(** * DeepDigitViz: the feed-forward engine and the activation composer

    A shallow embedding of [src/utils/SimpleNeuralNet.ts] (class
    [SimpleNeuralNet] and the singleton [neuralNetEngine]) and of the
    effect of [src/components/NeuralNetworkViz.tsx] that composes the
    locally simulated activations with the externally supplied
    probabilities.  Around them: the grid that the drawing canvas
    samples ([getInputGrid]), the geometry, the connections and the
    circles of the view ([nodes], [renderConnections] and the callback
    of [nodes.map]), the analysis service ([analyzeDigit], with the
    calls out of the program as arguments) and the state of the
    application.  The effect of the view is modelled on the store
    layer as well ([Module StoreView]).

    The embedding has two layers.

    - A value layer: arrays are lists, the engine is a record, every
      [for] loop of the source is a [for_upto] loop whose body pushes to
      its accumulator, and a call either completes normally or throws.
    - A store layer ([Module Store]): arrays are objects in a mutable
      store and are referred to by address, so that [push], aliasing and
      allocation are the ones of the source.  It is related to the value
      layer by a refinement theorem.

    JavaScript's [number] is kept abstract behind the class [Arith], with
    two instances: exact real arithmetic and IEEE-754 binary64.  What
    depends on the shape of the data only is proved for every
    arithmetic; what depends on values is proved for the reals, and
    refuted in binary64 where binary64 differs.  Layer sizes, loop
    counters and array indices are integers. *)

From Stdlib Require Import Floats.
From Stdlib Require Import ZArith List Lia Reals Lra.
From Stdlib Require Strings.Byte Strings.String Strings.Ascii.
From Stdlib Require Numbers.DecimalString Numbers.DecimalNat.
From stdpp Require Import base option list.
Import ListNotations.
Import String.StringSyntax Ascii.AsciiSyntax.

(** ** Completions of a JavaScript call *)

(** The exceptions the modelled code can raise.  [TypeError]: a property
    is read from [undefined].  [RangeError]: [Array(n)] with an invalid
    length.  [UndefinedOperand] is not a JavaScript exception: it marks
    the places where the source would read [undefined] as a number and
    carry on with [NaN]; the arithmetic interface has no such value, so
    the model stops there.  [forwardPropagate_outcomes] shows that an
    engine built by the constructor never reaches such a place. *)
Inductive js_error : Type :=
| TypeError
| RangeError
| UndefinedOperand.

Inductive completion (A : Type) : Type :=
| Normal (a : A)
| Throw (e : js_error).

Arguments Normal {A} a.
Arguments Throw {A} e.

#[global] Instance completion_ret : MRet completion := @Normal.

#[global] Instance completion_bind : MBind completion :=
  fun A B f c =>
    match c with
    | Normal a => f a
    | Throw e => Throw e
    end.

(** [for (let v = start; v < start + count; v++) s = body(v, s)] *)
Fixpoint for_upto {S : Type} (start count : nat) (body : nat -> S -> S)
    (s : S) : S :=
  match count with
  | O => s
  | Datatypes.S c => for_upto (Datatypes.S start) c body (body start s)
  end.

(** The same loop with a body that may throw; the loop stops at the
    first exception. *)
Fixpoint for_uptoM {S : Type} (start count : nat)
    (body : nat -> S -> completion S) (s : S) : completion S :=
  match count with
  | O => Normal s
  | Datatypes.S c =>
      match body start s with
      | Normal s' => for_uptoM (Datatypes.S start) c body s'
      | Throw e => Throw e
      end
  end.

(** [a.push(x)] on an array held as a list. *)
Definition push {A : Type} (a : list A) (x : A) : list A := a ++ [x].

(** ** The arithmetic of [number] *)

(** The operations the engine applies to numbers.  [num_of_Z] is the
    value of an integer literal or of an integer loop counter;
    [num_0_1] is the decimal literal [0.1]. *)
Class Arith (number : Type) : Type := {
  num_add : number -> number -> number;
  num_sub : number -> number -> number;
  num_mul : number -> number -> number;
  num_div : number -> number -> number;
  num_neg : number -> number;
  num_of_Z : Z -> number;
  num_0_1 : number;
  Math_sqrt : number -> number;
  Math_sin : number -> number;
  Math_exp : number -> number
}.

(** ** The engine (src/utils/SimpleNeuralNet.ts) *)

Section Engine.
Context {number : Type} {A : Arith number}.

(** The three private fields.  A layer size is an integer, of any
    sign: the constructor takes what it is given. *)
Record SimpleNeuralNet : Type := mkNet {
  weights : list (list (list number));
  biases : list (list number);
  layerSizes : list Z
}.

(** [this.layerSizes[i]] used as a loop bound: an index out of range
    reads [undefined], and [v < undefined] is false, so the loop runs
    as it does for the bound 0. *)
Definition size_at (sizes : list Z) (i : nat) : Z :=
  default 0%Z (sizes !! i).

(** The body of the [k] loop: one weight, from the seed
    [i * 1000 + j * 100 + k].  The seed is an integer far below 2^53,
    so it is the same computed on integers and converted, as here, or
    computed on doubles, as in the source. *)
Definition init_weight (i : nat) (inputSize : Z) (j k : nat) : number :=
  let seed := (Z.of_nat i * 1000 + Z.of_nat j * 100 + Z.of_nat k)%Z in
  let val :=
    num_sub (num_mul (Math_sin (num_of_Z seed)) (num_of_Z 2)) (num_of_Z 1) in
  num_div val (Math_sqrt (num_of_Z inputSize)).

(** The body of the [i] loop of [initializeWeights]. *)
Definition init_layer (i : nat) (this : SimpleNeuralNet) : SimpleNeuralNet :=
  let inputSize := size_at (layerSizes this) i in
  let outputSize := size_at (layerSizes this) (i + 1) in
  let layerBiases :=
    for_upto 0 (Z.to_nat outputSize)
      (fun _ layerBiases => push layerBiases (num_neg num_0_1)) [] in
  let layerWeights :=
    for_upto 0 (Z.to_nat inputSize)
      (fun j layerWeights =>
         let nodeWeights :=
           for_upto 0 (Z.to_nat outputSize)
             (fun k nodeWeights =>
                push nodeWeights (init_weight i inputSize j k)) [] in
         push layerWeights nodeWeights) [] in
  mkNet (push (weights this) layerWeights)
        (push (biases this) layerBiases)
        (layerSizes this).

Definition initializeWeights (this : SimpleNeuralNet) : SimpleNeuralNet :=
  for_upto 0 (length (layerSizes this) - 1) init_layer this.

(** [new SimpleNeuralNet(inputSize, hiddenSizes, outputSize)] *)
Definition new_SimpleNeuralNet (inputSize : Z) (hiddenSizes : list Z)
    (outputSize : Z) : SimpleNeuralNet :=
  initializeWeights (mkNet [] [] (inputSize :: hiddenSizes ++ [outputSize])).

Definition sigmoid (x : number) : number :=
  num_div (num_of_Z 1) (num_add (num_of_Z 1) (Math_exp (num_neg x))).

(** [a[i]] where a number is expected. *)
Definition read_number (a : option (list number)) (i : nat)
    : completion number :=
  match a with
  | None => Throw TypeError
  | Some l =>
      match l !! i with
      | Some x => Normal x
      | None => Throw UndefinedOperand
      end
  end.

(** [a[i]] where an array is expected: the result may be [undefined]. *)
Definition read_row (a : option (list (list number))) (i : nat)
    : completion (option (list number)) :=
  match a with
  | None => Throw TypeError
  | Some l => Normal (l !! i)
  end.

(** The body of the [inIdx] loop:
    [sum += currentActivations[inIdx] * layerW[inIdx][outIdx]]. *)
Definition dot_step (currentActivations : list number)
    (layerW : option (list (list number))) (outIdx inIdx : nat)
    (sum : number) : completion number :=
  x ← read_number (Some currentActivations) inIdx;
  row ← read_row layerW inIdx;
  w ← read_number row outIdx;
  Normal (num_add sum (num_mul x w)).

(** The body of the [outIdx] loop. *)
Definition node_step (currentActivations : list number)
    (layerW : option (list (list number))) (layerB : option (list number))
    (outIdx : nat) (nextActivations : list number)
    : completion (list number) :=
  sum0 ← read_number layerB outIdx;
  sum ← for_uptoM 0 (length currentActivations)
          (dot_step currentActivations layerW outIdx) sum0;
  Normal (push nextActivations (sigmoid sum)).

(** The body of the [i] loop of [forwardPropagate]; the state is the
    pair of [activations] and [currentActivations]. *)
Definition layer_step (this : SimpleNeuralNet) (i : nat)
    (st : list (list number) * list number)
    : completion (list (list number) * list number) :=
  let layerW := weights this !! i in
  let layerB := biases this !! i in
  let outputCount := size_at (layerSizes this) (i + 1) in
  nextActivations ← for_uptoM 0 (Z.to_nat outputCount)
                      (node_step st.2 layerW layerB) [];
  Normal (push st.1 nextActivations, nextActivations).

Definition forwardPropagate (this : SimpleNeuralNet) (inputs : list number)
    : completion (list (list number)) :=
  let activations := push [] inputs in
  st ← for_uptoM 0 (length (weights this)) (layer_step this)
         (activations, inputs);
  Normal st.1.

Definition getLayerConfig (this : SimpleNeuralNet) : list Z :=
  layerSizes this.

(** [export const neuralNetEngine = new SimpleNeuralNet(64, [16, 12], 10)] *)
Definition neuralNetEngine : SimpleNeuralNet :=
  new_SimpleNeuralNet 64 [16; 12]%Z 10.

(** ** The composer (src/components/NeuralNetworkViz.tsx, the first effect) *)

(** [Array(size).fill(0)] *)
Definition Array_fill_0 (size : Z) : completion (list number) :=
  if (size <? 0)%Z then Throw RangeError
  else Normal (replicate (Z.to_nat size) (num_of_Z 0)).

(** [a.map(f)] with a callback that may throw. *)
Fixpoint Array_map {X Y : Type} (f : X -> completion Y) (l : list X)
    : completion (list Y) :=
  match l with
  | [] => Normal []
  | x :: l' => y ← f x; ys ← Array_map f l'; Normal (y :: ys)
  end.

(** [a[a.length - 1] = v]: with [a] empty the index is [-1], which is
    not an element index, and the elements stay as they are. *)
Definition set_last {X : Type} (a : list X) (v : X) : list X :=
  match length a with
  | O => a
  | Datatypes.S n => <[n := v]> a
  end.

(** The value handed to [setActivations].  [inputActivations] has type
    [number[]] and [probabilities] has type [number[] | null]; a
    [probabilities] that is [null] is [None]. *)
Definition composeActivations (inputActivations : list number)
    (probabilities : option (list number)) : completion (list (list number)) :=
  if decide (length inputActivations = 64) then
    calculatedActivations ← forwardPropagate neuralNetEngine inputActivations;
    match probabilities with
    | Some p =>
        if decide (length p = 10)
        then Normal (set_last calculatedActivations p)
        else Normal calculatedActivations
    | None => Normal calculatedActivations
    end
  else
    Array_map Array_fill_0 (getLayerConfig neuralNetEngine).

(** The state shown when there is no 64-value grid: one all-zero
    vector per layer. *)
Definition zero_state : list (list number) :=
  map (fun size => replicate (Z.to_nat size) (num_of_Z 0))
      [64; 16; 12; 10]%Z.

End Engine.

Arguments SimpleNeuralNet number : clear implicits.

(** ** What the constructor builds, by index *)

Section Layout.
Context {number : Type} {A : Arith number}.

(** [biases[i]] of a transition into a layer of [outputSize] nodes. *)
Definition layer_biases (outputSize : Z) : list number :=
  replicate (Z.to_nat outputSize) (num_neg num_0_1).

(** [weights[i]]: row [j], column [k] holds [init_weight i inputSize j k]. *)
Definition layer_weights (i : nat) (inputSize outputSize : Z)
    : list (list number) :=
  map (fun j => map (init_weight i inputSize j) (seq 0 (Z.to_nat outputSize)))
      (seq 0 (Z.to_nat inputSize)).

Definition weights_of (sizes : list Z) : list (list (list number)) :=
  map (fun i => layer_weights i (size_at sizes i) (size_at sizes (i + 1)))
      (seq 0 (length sizes - 1)).

Definition biases_of (sizes : list Z) : list (list number) :=
  map (fun i => layer_biases (size_at sizes (i + 1)))
      (seq 0 (length sizes - 1)).

(** The sum the [inIdx] loop accumulates for the output node [outIdx]
    of transition [i], over the inputs [xs] that start at index
    [inIdx], from left to right. *)
Fixpoint weighted_sum (i : nat) (inputSize : Z) (outIdx inIdx : nat)
    (xs : list number) (sum : number) : number :=
  match xs with
  | [] => sum
  | x :: xs' =>
      weighted_sum i inputSize outIdx (Datatypes.S inIdx) xs'
        (num_add sum (num_mul x (init_weight i inputSize inIdx outIdx)))
  end.

(** The activations of layer [i + 1] from those of layer [i]. *)
Definition layer_output (i : nat) (inputSize outputSize : Z)
    (current : list number) : list number :=
  map (fun outIdx =>
         sigmoid (weighted_sum i inputSize outIdx 0 current
                    (num_neg num_0_1)))
      (seq 0 (Z.to_nat outputSize)).

(** The activations of the layers [i + 1 .. i + count]. *)
Fixpoint propagate_from (sizes : list Z) (i count : nat)
    (current : list number) : list (list number) :=
  match count with
  | O => []
  | Datatypes.S c =>
      let next :=
        layer_output i (size_at sizes i) (size_at sizes (i + 1)) current in
      next :: propagate_from sizes (Datatypes.S i) c next
  end.

(** The topology of
    [new SimpleNeuralNet(inputSize, hiddenSizes, outputSize)]. *)
Definition topology (inputSize : Z) (hiddenSizes : list Z) (outputSize : Z)
    : list Z :=
  inputSize :: hiddenSizes ++ [outputSize].

End Layout.

(** ** Exact real arithmetic *)

(** The arithmetic the formulas of the engine are written for: real
    numbers, with the real sine, exponential and square root. *)
#[global] Instance RArith : Arith R := {|
  num_add := Rplus;
  num_sub := Rminus;
  num_mul := Rmult;
  num_div := Rdiv;
  num_neg := Ropp;
  num_of_Z := IZR;
  num_0_1 := (1 / 10)%R;
  Math_sqrt := sqrt;
  Math_sin := sin;
  Math_exp := exp
|}.

(** ** IEEE-754 binary64 arithmetic *)

(** What ECMAScript fixes about [Math.sin] and [Math.exp]: their values
    at zeros, infinities and NaN.  Everywhere else the result is an
    implementation-approximated value, on which nothing is assumed. *)
Record ESMath : Type := {
  es_sin : float -> float;
  es_exp : float -> float;
  es_sin_zero : es_sin 0%float = 0%float;
  es_sin_nan : es_sin nan = nan;
  es_exp_zero : es_exp 0%float = 1%float;
  es_exp_nan : es_exp nan = nan;
  es_exp_pos_inf : es_exp infinity = infinity;
  es_exp_neg_inf : es_exp neg_infinity = 0%float
}.

(** Integers below 2^53 in absolute value, which covers every array
    index, are represented exactly. *)
Definition float_of_Z (z : Z) : float :=
  match z with
  | Z0 => 0%float
  | Zpos _ => PrimFloat.of_uint63 (Uint63.of_Z z)
  | Zneg p => (- PrimFloat.of_uint63 (Uint63.of_Z (Zpos p)))%float
  end.

Definition IEEE (M : ESMath) : Arith float := {|
  num_add := PrimFloat.add;
  num_sub := PrimFloat.sub;
  num_mul := PrimFloat.mul;
  num_div := PrimFloat.div;
  num_neg := PrimFloat.opp;
  num_of_Z := float_of_Z;
  num_0_1 := 0x1.999999999999ap-4%float;
  Math_sqrt := PrimFloat.sqrt;
  Math_sin := es_sin M;
  Math_exp := es_exp M
|}.

(** A double that is neither an infinity nor NaN. *)
Definition finite_number (w : float) : bool :=
  match Prim2SF w with
  | S754_zero _ | S754_finite _ _ _ => true
  | S754_infinity _ | S754_nan => false
  end.

(** An inhabitant of [ESMath]: it answers in the cases ECMAScript fixes
    and with NaN elsewhere. *)
Definition es_fixed_sin (x : float) : float :=
  if PrimFloat.eqb x 0%float then x else nan.

Definition es_fixed_exp (x : float) : float :=
  if PrimFloat.eqb x 0%float then 1%float
  else if PrimFloat.eqb x infinity then infinity
  else if PrimFloat.eqb x neg_infinity then 0%float
  else nan.

Definition es_fixed : ESMath := {|
  es_sin := es_fixed_sin;
  es_exp := es_fixed_exp;
  es_sin_zero := eq_refl;
  es_sin_nan := eq_refl;
  es_exp_zero := eq_refl;
  es_exp_nan := eq_refl;
  es_exp_pos_inf := eq_refl;
  es_exp_neg_inf := eq_refl
|}.

(** ** The store layer *)

(** Arrays as objects of a mutable store.  An address is an index into
    the store, [[]] and array literals allocate at its end, and [push]
    updates an object in place; two variables that hold the same address
    are aliases.  The engine object is the record of the addresses its
    three fields hold: the constructor assigns them once and no method
    assigns them again.  A loop bound that is the length of an array is
    read once, before the loop: no loop body writes to the array that
    bounds it. *)
Module Store.

(** An address is a position in the store. *)
Abbreviation loc := nat.

Section Store.
Context {number : Type} {A : Arith number}.

(** What an array element can be: a number, an integer (a layer
    size), or the address of another array. *)
Inductive value : Type :=
| VNum (x : number)
| VInt (z : Z)
| VRef (l : loc).

(** The store: the object at address [l] is the [l]-th element. *)
#[local] Abbreviation store := (list (list value)).

(** A computation on the store that completes normally or throws; the
    store survives an exception. *)
Definition M (X : Type) : Type := store -> completion X * store.

Definition ret {X : Type} (x : X) : M X := fun h => (Normal x, h).

Definition throw {X : Type} (e : js_error) : M X := fun h => (Throw e, h).

Definition bind {X Y : Type} (m : M X) (f : X -> M Y) : M Y :=
  fun h =>
    match m h with
    | (Normal x, h') => f x h'
    | (Throw e, h') => (Throw e, h')
    end.

#[local] Notation "x <- m ;; k" := (bind m (fun x => k))
  (at level 100, m at next level, right associativity).

Fixpoint for_uptoS {S : Type} (start count : nat) (body : nat -> S -> M S)
    (s : S) : M S :=
  match count with
  | O => ret s
  | Datatypes.S c =>
      s' <- body start s ;; for_uptoS (Datatypes.S start) c body s'
  end.

(** [[]] and array literals. *)
Definition alloc (a : list value) : M loc :=
  fun h => (Normal (length h), h ++ [a]).

(** The elements of the array at [l].  Every address the code holds
    comes from [alloc], so the second branch is never taken. *)
Definition contents (l : loc) : M (list value) :=
  fun h =>
    match h !! l with
    | Some a => (Normal a, h)
    | None => (Throw TypeError, h)
    end.

(** [l.push(v)] *)
Definition array_push (l : loc) (v : value) : M unit :=
  fun h =>
    match h !! l with
    | Some a => (Normal tt, <[l := a ++ [v]]> h)
    | None => (Throw TypeError, h)
    end.

(** [l.length] *)
Definition array_length (l : loc) : M nat :=
  a <- contents l ;; ret (length a).

(** [l[i]]; [None] is [undefined]. *)
Definition array_get (l : loc) (i : nat) : M (option value) :=
  a <- contents l ;; ret (a !! i).

(** [v[i]] for a value that was itself read from an array: reading a
    property of [undefined] throws, an index of a number is
    [undefined]. *)
Definition index (v : option value) (i : nat) : M (option value) :=
  match v with
  | None => throw TypeError
  | Some (VRef l) => array_get l i
  | Some _ => ret None
  end.

(** A value used as an operand of the arithmetic. *)
Definition as_number (v : option value) : M number :=
  match v with
  | Some (VNum x) => ret x
  | _ => throw UndefinedOperand
  end.

(** A value used as a layer size; [undefined] bounds a loop as 0 does. *)
Definition as_size (v : option value) : M Z :=
  match v with
  | Some (VInt z) => ret z
  | None => ret 0%Z
  | Some _ => throw UndefinedOperand
  end.

Record engine : Type := mkEngine {
  weights : loc;
  biases : loc;
  layerSizes : loc
}.

(** The body of the [i] loop of [initializeWeights]. *)
Definition init_layer (this : engine) (i : nat) (_ : unit) : M unit :=
  inputSize <- (v <- array_get (layerSizes this) i ;; as_size v) ;;
  outputSize <- (v <- array_get (layerSizes this) (i + 1) ;; as_size v) ;;
  layerWeights <- alloc [] ;;
  layerBiases <- alloc [] ;;
  _ <- for_uptoS 0 (Z.to_nat outputSize)
         (fun _ _ => array_push layerBiases (VNum (num_neg num_0_1))) tt ;;
  _ <- for_uptoS 0 (Z.to_nat inputSize)
         (fun j _ =>
            nodeWeights <- alloc [] ;;
            _ <- for_uptoS 0 (Z.to_nat outputSize)
                   (fun k _ =>
                      array_push nodeWeights
                        (VNum (init_weight i inputSize j k))) tt ;;
            array_push layerWeights (VRef nodeWeights)) tt ;;
  _ <- array_push (weights this) (VRef layerWeights) ;;
  array_push (biases this) (VRef layerBiases).

Definition initializeWeights (this : engine) : M unit :=
  n <- array_length (layerSizes this) ;;
  for_uptoS 0 (n - 1) (init_layer this) tt.

(** [new SimpleNeuralNet(inputSize, hiddenSizes, outputSize)] *)
Definition new_SimpleNeuralNet (inputSize : Z) (hiddenSizes : list Z)
    (outputSize : Z) : M engine :=
  sizes <- alloc (map VInt (inputSize :: hiddenSizes ++ [outputSize])) ;;
  w <- alloc [] ;;
  b <- alloc [] ;;
  let this := mkEngine w b sizes in
  _ <- initializeWeights this ;;
  ret this.

(** [sum += currentActivations[inIdx] * layerW[inIdx][outIdx]] *)
Definition dot_step (currentActivations : loc) (layerW : option value)
    (outIdx inIdx : nat) (sum : number) : M number :=
  x <- (v <- array_get currentActivations inIdx ;; as_number v) ;;
  row <- index layerW inIdx ;;
  w <- (v <- index row outIdx ;; as_number v) ;;
  ret (num_add sum (num_mul x w)).

Definition node_step (currentActivations nextActivations : loc)
    (layerW layerB : option value) (outIdx : nat) (_ : unit) : M unit :=
  sum0 <- (v <- index layerB outIdx ;; as_number v) ;;
  n <- array_length currentActivations ;;
  sum <- for_uptoS 0 n (dot_step currentActivations layerW outIdx) sum0 ;;
  array_push nextActivations (VNum (sigmoid sum)).

(** The body of the [i] loop of [forwardPropagate]; the loop state is
    the address held by [currentActivations]. *)
Definition layer_step (this : engine) (activations : loc) (i : nat)
    (currentActivations : loc) : M loc :=
  nextActivations <- alloc [] ;;
  layerW <- array_get (weights this) i ;;
  layerB <- array_get (biases this) i ;;
  outputCount <- (v <- array_get (layerSizes this) (i + 1) ;; as_size v) ;;
  _ <- for_uptoS 0 (Z.to_nat outputCount)
         (node_step currentActivations nextActivations layerW layerB) tt ;;
  _ <- array_push activations (VRef nextActivations) ;;
  ret nextActivations.

Definition forwardPropagate (this : engine) (inputs : loc) : M loc :=
  activations <- alloc [] ;;
  copy <- (a <- contents inputs ;; alloc a) ;;
  _ <- array_push activations (VRef copy) ;;
  n <- array_length (weights this) ;;
  _ <- for_uptoS 0 n (layer_step this activations) inputs ;;
  ret activations.

(** [getLayerConfig] hands out the address of the engine's own array. *)
Definition getLayerConfig (this : engine) : M loc :=
  ret (layerSizes this).

(** *** Reading values back from the store *)

Definition number_of (v : value) : option number :=
  match v with VNum x => Some x | _ => None end.

Definition size_of (v : value) : option Z :=
  match v with VInt z => Some z | _ => None end.

Definition ref_of (v : value) : option loc :=
  match v with VRef l => Some l | _ => None end.

Definition decode_vec (h : store) (l : loc) : option (list number) :=
  a ← h !! l; mapM number_of a.

Definition decode_mat (h : store) (l : loc) : option (list (list number)) :=
  a ← h !! l; rows ← mapM ref_of a; mapM (decode_vec h) rows.

Definition decode_ten (h : store) (l : loc)
    : option (list (list (list number))) :=
  a ← h !! l; mats ← mapM ref_of a; mapM (decode_mat h) mats.

Definition decode_sizes (h : store) (l : loc) : option (list Z) :=
  a ← h !! l; mapM size_of a.

Definition decode_engine (h : store) (e : engine)
    : option (SimpleNeuralNet number) :=
  w ← decode_ten h (weights e);
  b ← decode_mat h (biases e);
  s ← decode_sizes h (layerSizes e);
  Some (mkNet w b s).

(** The same readings as relations, with the addresses in view. *)
Definition rep_vec (h : store) (l : loc) (xs : list number) : Prop :=
  h !! l = Some (map VNum xs).

Definition rep_mat (h : store) (l : loc) (xss : list (list number))
    : Prop :=
  exists rows, h !! l = Some (map VRef rows) /\ Forall2 (rep_vec h) rows xss.

Definition rep_ten (h : store) (l : loc)
    (xsss : list (list (list number))) : Prop :=
  exists mats, h !! l = Some (map VRef mats) /\ Forall2 (rep_mat h) mats xsss.

(** [h'] extends [h], and every object of [h] at an address below
    [n] that is not listed in [ex] is the same in [h']. *)
Definition unchanged (n : nat) (ex : list loc) (h h' : store) : Prop :=
  length h <= length h'
  /\ forall l, l < n -> l ∉ ex -> h' !! l = h !! l.

(** A value read from an array of arrays, against the array it
    stands for; [undefined] stands for an index out of range. *)
Definition rel_vec (h : store) (v : option value)
    (x : option (list number)) : Prop :=
  match v, x with
  | None, None => True
  | Some (VRef l), Some xs => rep_vec h l xs
  | _, _ => False
  end.

Definition rel_mat (h : store) (v : option value)
    (x : option (list (list number))) : Prop :=
  match v, x with
  | None, None => True
  | Some (VRef l), Some xss => rep_mat h l xss
  | _, _ => False
  end.

(** The invariant of the [i] loop of [forwardPropagate]: [h] extends
    the store [h0] of the call, [la] holds the addresses of the layers
    computed so far, all allocated after [la], and [lc] holds the
    current activations. *)
Definition layers_inv (h0 : store) (la lc : loc)
    (st : list (list number) * list number) (h : store) : Prop :=
  unchanged (length h0) [] h0 h
  /\ length h0 <= la
  /\ (exists rows,
        h !! la = Some (map VRef rows)
        /\ Forall2 (fun r xs => la < r /\ rep_vec h r xs) rows st.1)
  /\ rep_vec h lc st.2
  /\ lc <> la.

(** Readings of objects allocated after the address [lo]. *)
Definition vec_above (lo : loc) (h : store) (r : loc) (xs : list number)
    : Prop :=
  lo < r /\ rep_vec h r xs.

Definition mat_above (lo : loc) (h : store) (m : loc)
    (xss : list (list number)) : Prop :=
  lo < m
  /\ exists rows,
       h !! m = Some (map VRef rows) /\ Forall2 (vec_above lo h) rows xss.

(** The invariant of the [i] loop of [initializeWeights], for an
    engine whose three arrays are at [ls], [ls + 1] and [ls + 2]. *)
Definition init_inv (ls : loc) (sizes : list Z)
    (w : list (list (list number))) (b : list (list number)) (h : store)
    : Prop :=
  h !! ls = Some (map VInt sizes)
  /\ (exists mats,
        h !! (ls + 1) = Some (map VRef mats)
        /\ Forall2 (mat_above (ls + 2) h) mats w)
  /\ (exists vecs,
        h !! (ls + 2) = Some (map VRef vecs)
        /\ Forall2 (vec_above (ls + 2) h) vecs b).

(** The store after a sequence of calls of [forwardPropagate], one
    per input address, whatever their outcomes. *)
Fixpoint run_calls (e : engine) (inputs : list loc) (h : store) : store :=
  match inputs with
  | [] => h
  | lin :: rest => run_calls e rest (forwardPropagate e lin h).2
  end.

(** A computation that only reads the store. *)
Definition reads {X : Type} (m : M X) : Prop :=
  forall h, (m h).2 = h.

(** A computation that, whatever its outcome, allocates and writes
    only to addresses from [n] on or listed in [ex]. *)
Definition frames (n : nat) (ex : list loc) {X : Type} (m : M X) : Prop :=
  forall h, n <= length h -> unchanged n ex h (m h).2.

(** The addresses a snapshot is made of: the outer array and the
    arrays it refers to. *)
Definition snapshot_locs (h : store) (l : loc) : list loc :=
  l :: default [] (a ← h !! l; mapM ref_of a).

End Store.

Arguments value number : clear implicits.
Arguments M number X : clear implicits.

End Store.

(** ** A small store *)




(** ** Comparisons of numbers *)

(** What the view and the canvas grid apply to numbers besides the
    arithmetic of the engine: [x < y], [x === y], the truth value of
    [x] (false for [0] and for [NaN]), [Math.min(x, y)], and the
    decimal literals [0.05], [0.4] and [0.5]. *)
Class Compare (number : Type) : Type := {
  num_ltb : number -> number -> bool;
  num_eqb : number -> number -> bool;
  num_truthy : number -> bool;
  Math_min : number -> number -> number;
  num_0_05 : number;
  num_0_4 : number;
  num_0_5 : number
}.

#[global] Instance RCompare : Compare R := {|
  num_ltb := fun x y => if Rlt_dec x y then true else false;
  num_eqb := fun x y => if Req_dec_T x y then true else false;
  num_truthy := fun x => if Req_dec_T x 0 then false else true;
  Math_min := Rmin;
  num_0_05 := (5 / 100)%R;
  num_0_4 := (4 / 10)%R;
  num_0_5 := (5 / 10)%R
|}.

(** [Math.min] on doubles: [NaN] if an argument is [NaN], and [-0]
    below [+0]. *)
Definition float_min (x y : float) : float :=
  if (PrimFloat.is_nan x || PrimFloat.is_nan y)%bool then nan
  else if PrimFloat.ltb x y then x
  else if PrimFloat.ltb y x then y
  else match PrimFloat.classify x with
       | NZero => x
       | _ => y
       end.

#[global] Instance IEEECompare : Compare float := {|
  num_ltb := PrimFloat.ltb;
  num_eqb := PrimFloat.eqb;
  num_truthy := fun x => negb (PrimFloat.is_nan x || PrimFloat.is_zero x);
  Math_min := float_min;
  num_0_05 := 0x1.999999999999ap-5%float;
  num_0_4 := 0x1.999999999999ap-2%float;
  num_0_5 := 0.5%float
|}.

(** ** The canvas grid (src/unnamed/part_002, DrawingCanvas) *)

Section Canvas.
Context {number : Type} {A : Arith number} {C : Compare number}.

(** What [getInputGrid] uses of the 2D context:
    [getImageData(sx, sy, sw, sh).data], the RGBA bytes of a rectangle
    (a [Uint8ClampedArray]), or [None] when the call throws a
    [DOMException]. *)
Record CanvasRenderingContext2D : Type := {
  getImageData :
    number -> number -> number -> number -> option (list Byte.byte)
}.

(** What it uses of the canvas element; [getContext('2d')] may be
    [null]. *)
Record HTMLCanvasElement : Type := {
  width : Z;
  height : Z;
  getContext : option CanvasRenderingContext2D
}.

Definition GRID_SIZE : Z := 8.

(** A [for] loop as [for_upto], with a body that may stop with a
    [DOMException]. *)
Fixpoint for_uptoD {S : Type} (start count : nat)
    (body : nat -> S -> option S) (s : S) : option S :=
  match count with
  | O => Some s
  | Datatypes.S c =>
      match body start s with
      | Some s' => for_uptoD (Datatypes.S start) c body s'
      | None => None
      end
  end.

(** [for (let i = 0; i < data.length; i += 4) totalBrightness += data[i]]
    on the bytes from index [i] on: the red byte of every pixel.  The
    total is an integer far below 2^53, the same on integers and on
    doubles. *)
Fixpoint sample_pixels (data : list Byte.byte) (totalBrightness : Z) : Z :=
  match data with
  | [] => totalBrightness
  | r :: rest =>
      let totalBrightness := (totalBrightness + Z.of_N (Byte.to_N r))%Z in
      match rest with
      | _ :: _ :: _ :: data' => sample_pixels data' totalBrightness
      | _ => totalBrightness
      end
  end.

(** The value of one cell, from the bytes of its rectangle. *)
Definition cell_value (data : list Byte.byte) : number :=
  let totalBrightness := sample_pixels data 0 in
  let numPixels := num_div (num_of_Z (Z.of_nat (length data))) (num_of_Z 4) in
  let avgBrightness := num_div (num_of_Z totalBrightness) numPixels in
  Math_min (num_of_Z 1) (num_div avgBrightness (num_of_Z 100)).

(** [getInputGrid()], with [canvasRef.current] as argument. *)
Definition getInputGrid (canvas : option HTMLCanvasElement)
    : option (list number) :=
  match canvas with
  | None => Some (replicate (Z.to_nat (GRID_SIZE * GRID_SIZE)) (num_of_Z 0))
  | Some canvas =>
      match getContext canvas with
      | None =>
          Some (replicate (Z.to_nat (GRID_SIZE * GRID_SIZE)) (num_of_Z 0))
      | Some ctx =>
          let cellWidth :=
            num_div (num_of_Z (width canvas)) (num_of_Z GRID_SIZE) in
          let cellHeight :=
            num_div (num_of_Z (height canvas)) (num_of_Z GRID_SIZE) in
          for_uptoD 0 (Z.to_nat GRID_SIZE)
            (fun row inputGrid =>
               for_uptoD 0 (Z.to_nat GRID_SIZE)
                 (fun col inputGrid =>
                    data ← getImageData ctx
                             (num_mul (num_of_Z (Z.of_nat col)) cellWidth)
                             (num_mul (num_of_Z (Z.of_nat row)) cellHeight)
                             cellWidth cellHeight;
                    Some (push inputGrid (cell_value data)))
                 inputGrid)
            []
      end
  end.

End Canvas.

Arguments CanvasRenderingContext2D number : clear implicits.
Arguments HTMLCanvasElement number : clear implicits.

Section CanvasLayout.
Context {number : Type} {A : Arith number} {C : Compare number}.

(** The value [getInputGrid] pushes for the cell in row [row] and
    column [col]. *)
Definition grid_cell (canvas : HTMLCanvasElement number)
    (ctx : CanvasRenderingContext2D number) (row col : nat) : option number :=
  let cellWidth := num_div (num_of_Z (width canvas)) (num_of_Z GRID_SIZE) in
  let cellHeight := num_div (num_of_Z (height canvas)) (num_of_Z GRID_SIZE) in
  data ← getImageData ctx (num_mul (num_of_Z (Z.of_nat col)) cellWidth)
           (num_mul (num_of_Z (Z.of_nat row)) cellHeight)
           cellWidth cellHeight;
  Some (cell_value data).

End CanvasLayout.

(** The bytes of a rectangle, from its pixels: red, green, blue and
    alpha of each, one pixel after the other. *)
Definition rgba_bytes
    (pixels : list (Byte.byte * Byte.byte * Byte.byte * Byte.byte))
    : list Byte.byte :=
  mjoin (map (fun p => [p.1.1.1; p.1.1.2; p.1.2; p.2]) pixels).

(** The sum of the red bytes of the pixels. *)
Definition red_sum
    (pixels : list (Byte.byte * Byte.byte * Byte.byte * Byte.byte)) : Z :=
  foldr (fun p total => (Z.of_N (Byte.to_N p.1.1.1) + total)%Z) 0%Z pixels.

(** ** Strings *)

(** A string is a sequence of code units below 256; the strings of
    the view are in ASCII. *)
Abbreviation string := String.string.
Delimit Scope string_scope with string.
Bind Scope string_scope with String.string.

(** [`${n}`] for an integer [n >= 0]: its decimal digits. *)
Definition Number_toString (n : nat) : string :=
  DecimalString.NilZero.string_of_uint (Nat.to_uint n).

(** The scan of [s.split(separator)], for a separator that is not
    empty: [current] holds the piece read so far, and [skip] counts
    the code units still to pass of the separator that was found. *)
Fixpoint split_from (separator s : string) (skip : nat) (current : string)
    : list string :=
  match s with
  | String.EmptyString => [current]
  | String.String c s' =>
      match skip with
      | Datatypes.S k => split_from separator s' k current
      | O =>
          if String.prefix separator s
          then current
               :: split_from separator s' (String.length separator - 1)
                    String.EmptyString
          else split_from separator s' 0
                 (String.append current (String.String c String.EmptyString))
      end
  end.

(** [s.split(separator)] *)
Definition split (s separator : string) : list string :=
  match separator with
  | String.EmptyString =>
      map (fun c => String.String c String.EmptyString)
          (String.list_ascii_of_string s)
  | _ => split_from separator s 0 String.EmptyString
  end.

(** The white space [parseInt] passes over. *)
Definition is_white_space (c : Ascii.ascii) : bool :=
  match Ascii.N_of_ascii c with
  | 9%N | 10%N | 11%N | 12%N | 13%N | 32%N | 160%N => true
  | _ => false
  end.

Fixpoint trim_start (s : string) : string :=
  match s with
  | String.EmptyString => s
  | String.String c s' => if is_white_space c then trim_start s' else s
  end.

(** The value of a code unit as a digit, up to radix 16. *)
Definition digit_value (c : Ascii.ascii) : option Z :=
  let n := Z.of_N (Ascii.N_of_ascii c) in
  if ((48 <=? n) && (n <=? 57))%Z then Some (n - 48)%Z
  else if ((97 <=? n) && (n <=? 102))%Z then Some (n - 87)%Z
  else if ((65 <=? n) && (n <=? 70))%Z then Some (n - 55)%Z
  else None.

(** The integer of the longest prefix of [s] made of digits of the
    radix; [None] while no digit has been read. *)
Fixpoint parse_digits (radix : Z) (s : string) (value : option Z)
    : option Z :=
  match s with
  | String.EmptyString => value
  | String.String c s' =>
      match digit_value c with
      | Some d =>
          if (d <? radix)%Z
          then parse_digits radix s' (Some (default 0 value * radix + d))%Z
          else value
      | None => value
      end
  end.

(** [parseInt(s)], without a radix; [None] is [NaN].  The result is
    the integer itself: it is the [number] the source gets as long as
    it is below 2^53 in absolute value. *)
Definition parseInt (s : string) : option Z :=
  let s := trim_start s in
  let '(sign, s) :=
    match s with
    | String.String "-" s' => ((-1)%Z, s')
    | String.String "+" s' => (1%Z, s')
    | _ => (1%Z, s)
    end in
  let '(radix, s) :=
    match s with
    | String.String "0" (String.String "x" s')
    | String.String "0" (String.String "X" s') => (16%Z, s')
    | _ => (10%Z, s)
    end in
  z ← parse_digits radix s None;
  Some (sign * z)%Z.

(** [parseInt(a[1])] for an array of strings: a missing element is
    [undefined], which [parseInt] reads as the string ["undefined"]. *)
Definition parseInt_at (a : list string) (i : nat) : option Z :=
  parseInt (default "undefined"%string (a !! i)).

(** ** The geometry of the view (src/components/NeuralNetworkViz.tsx) *)

Module NeuralNode.
Record t (number : Type) : Type := mk {
  id : string;
  layer : nat;
  x : number;
  y : number;
  value : number
}.
Arguments mk {number} id layer x y value.
Arguments id {number} _.
Arguments layer {number} _.
Arguments x {number} _.
Arguments y {number} _.
Arguments value {number} _.
End NeuralNode.

Definition WIDTH : Z := 600.
Definition HEIGHT : Z := 400.

(** [a.forEach((x, index) => ...)] from the index [index] on; the
    callback updates the state [s]. *)
Fixpoint forEach {X S : Type} (a : list X) (index : nat)
    (callback : X -> nat -> S -> S) (s : S) : S :=
  match a with
  | [] => s
  | x :: a' => forEach a' (Datatypes.S index) callback (callback x index s)
  end.

(** [`l${layerIndex}-n${i}`] *)
Definition node_id (layerIndex i : nat) : string :=
  String.append "l"
    (String.append (Number_toString layerIndex)
       (String.append "-n" (Number_toString i))).

Section Geometry.
Context {number : Type} {A : Arith number}.

(** The callback of [layerSizes.forEach]. *)
Definition layer_nodes (layerSizes : list Z) (size : Z) (layerIndex : nat)
    (nodeList : list (NeuralNode.t number)) : list (NeuralNode.t number) :=
  let isInput := Nat.eqb layerIndex 0 in
  let x :=
    num_add
      (num_mul
         (num_div (num_of_Z (Z.of_nat layerIndex))
            (num_of_Z (Z.of_nat (length layerSizes) - 1)))
         (num_sub (num_of_Z WIDTH) (num_of_Z 80)))
      (num_of_Z 40) in
  let availableHeight := num_sub (num_of_Z HEIGHT) (num_of_Z 40) in
  let spacingY :=
    num_div availableHeight
      (num_add (num_of_Z size) (num_of_Z (if isInput then 4 else 0))) in
  for_upto 0 (Z.to_nat size)
    (fun i nodeList =>
       push nodeList
         (NeuralNode.mk (node_id layerIndex i) layerIndex x
            (num_add
               (num_add (num_of_Z 20)
                  (num_mul (num_of_Z (Z.of_nat i)) spacingY))
               (if isInput then num_of_Z 0
                else num_div
                       (num_sub availableHeight
                          (num_mul (num_of_Z size) spacingY))
                       (num_of_Z 2)))
            (num_of_Z 0)))
    nodeList.

(** The memoised [nodes]. *)
Definition nodes (layerSizes : list Z) : list (NeuralNode.t number) :=
  forEach layerSizes 0 (layer_nodes layerSizes) [].

(** The node that [layer_nodes] pushes for the index [i] of the layer
    [layerIndex], which has [size] nodes. *)
Definition node_at (layerSizes : list Z) (size : Z) (layerIndex i : nat)
    : NeuralNode.t number :=
  let isInput := Nat.eqb layerIndex 0 in
  let x :=
    num_add
      (num_mul
         (num_div (num_of_Z (Z.of_nat layerIndex))
            (num_of_Z (Z.of_nat (length layerSizes) - 1)))
         (num_sub (num_of_Z WIDTH) (num_of_Z 80)))
      (num_of_Z 40) in
  let availableHeight := num_sub (num_of_Z HEIGHT) (num_of_Z 40) in
  let spacingY :=
    num_div availableHeight
      (num_add (num_of_Z size) (num_of_Z (if isInput then 4 else 0))) in
  NeuralNode.mk (node_id layerIndex i) layerIndex x
    (num_add
       (num_add (num_of_Z 20) (num_mul (num_of_Z (Z.of_nat i)) spacingY))
       (if isInput then num_of_Z 0
        else num_div
               (num_sub availableHeight (num_mul (num_of_Z size) spacingY))
               (num_of_Z 2)))
    (num_of_Z 0).

(** The nodes of the layers [sizes], the first of which has the index
    [layerIndex], layer after layer. *)
Fixpoint nodes_from (layerSizes sizes : list Z) (layerIndex : nat)
    : list (NeuralNode.t number) :=
  match sizes with
  | [] => []
  | size :: sizes' =>
      map (node_at layerSizes size layerIndex) (seq 0 (Z.to_nat size))
      ++ nodes_from layerSizes sizes' (Datatypes.S layerIndex)
  end.

End Geometry.

(** ** The connections of the view *)

(** The attributes of a [<line>] element. *)
Module Line.
Record t (number : Type) : Type := mk {
  key : string;
  x1 : number;
  y1 : number;
  x2 : number;
  y2 : number;
  stroke : string;
  strokeWidth : Z;
  opacity : number
}.
Arguments mk {number} key x1 y1 x2 y2 stroke strokeWidth opacity.
Arguments key {number} _.
Arguments x1 {number} _.
Arguments y1 {number} _.
Arguments x2 {number} _.
Arguments y2 {number} _.
Arguments stroke {number} _.
Arguments strokeWidth {number} _.
Arguments opacity {number} _.
End Line.

(** [`l${l}-${i}-${j}`] *)
Definition line_key (l i j : nat) : string :=
  String.append "l"
    (String.append (Number_toString l)
       (String.append "-"
          (String.append (Number_toString i)
             (String.append "-" (Number_toString j))))).

Section Connections.
Context {number : Type} {A : Arith number} {C : Compare number}.

(** [nodes.find(n => n.id === id)] *)
Definition find_node (nodes : list (NeuralNode.t number)) (id : string)
    : option (NeuralNode.t number) :=
  List.find (fun n => String.eqb (NeuralNode.id n) id) nodes.

(** [j === predictedDigit], for the loop counter [j] and a
    [predictedDigit] of type [number | null]. *)
Definition is_predicted (j : Z) (predictedDigit : option number) : bool :=
  match predictedDigit with
  | Some d => num_eqb (num_of_Z j) d
  | None => false
  end.

(** The body of the [j] loop. *)
Definition target_step (layerSizes : list Z)
    (nodes : list (NeuralNode.t number)) (predictedDigit : option number)
    (l i : nat) (sourceVal : number) (sourceNode : NeuralNode.t number)
    (j : nat) (lines : list (Line.t number)) : list (Line.t number) :=
  match find_node nodes (node_id (l + 1) j) with
  | None => lines
  | Some targetNode =>
      let intensity := num_mul sourceVal num_0_5 in
      push lines
        (Line.mk (line_key l i j)
           (NeuralNode.x sourceNode) (NeuralNode.y sourceNode)
           (NeuralNode.x targetNode) (NeuralNode.y targetNode)
           (if ((Z.of_nat l =? Z.of_nat (length layerSizes) - 2)%Z
                && is_predicted (Z.of_nat j) predictedDigit)%bool
            then "#0aff0a" else "#00f3ff")
           1 (num_mul intensity num_0_4))
  end.

(** The body of the [i] loop, which visits the elements of
    [sourceLayer] with their indices. *)
Definition source_step (layerSizes : list Z)
    (nodes : list (NeuralNode.t number)) (predictedDigit : option number)
    (l : nat) (sourceVal : number) (i : nat) (lines : list (Line.t number))
    : list (Line.t number) :=
  if num_ltb sourceVal num_0_05 then lines
  else
    let targetCount := size_at layerSizes (l + 1) in
    match find_node nodes (node_id l i) with
    | None => lines
    | Some sourceNode =>
        for_upto 0 (Z.to_nat targetCount)
          (target_step layerSizes nodes predictedDigit l i sourceVal
             sourceNode)
          lines
    end.

(** The body of the [l] loop; [activations[l]] may be [undefined], and
    reading its [length] then throws. *)
Definition connection_layer_step (layerSizes : list Z)
    (nodes : list (NeuralNode.t number)) (activations : list (list number))
    (predictedDigit : option number) (l : nat)
    (lines : list (Line.t number)) : completion (list (Line.t number)) :=
  match activations !! l with
  | None => Throw TypeError
  | Some sourceLayer =>
      Normal (forEach sourceLayer 0
                (source_step layerSizes nodes predictedDigit l) lines)
  end.

(** [renderConnections()]; [None] is [null]. *)
Definition renderConnections (layerSizes : list Z)
    (nodes : list (NeuralNode.t number)) (activations : list (list number))
    (predictedDigit : option number)
    : completion (option (list (Line.t number))) :=
  if decide (length activations = 0) then Normal None
  else
    lines ← for_uptoM 0 (length layerSizes - 1)
              (connection_layer_step layerSizes nodes activations
                 predictedDigit)
              [];
    Normal (Some lines).

End Connections.

(** ** The circles of the view *)

(** The [fill] of a circle: ['#1e293b'], ['#0aff0a'],
    [`rgba(188, 19, 254, ${val})`] or [`rgba(0, 243, 255, ${val})`]. *)
Inductive Fill (number : Type) : Type :=
| fill_inactive
| fill_winning
| fill_output (val : number)
| fill_hidden (val : number).

Arguments fill_inactive {number}.
Arguments fill_winning {number}.
Arguments fill_output {number} val.
Arguments fill_hidden {number} val.

(** The attributes of the [<circle>] of a node; [label] is the number
    shown beside an output node, and [winning] is [isWinning], which
    picks the colour, the size and the weight of that label. *)
Module Circle.
Record t (number : Type) : Type := mk {
  cx : number;
  cy : number;
  r : Z;
  fill : Fill number;
  glow : bool;
  label : option (option Z);
  winning : bool
}.
Arguments mk {number} cx cy r fill glow label winning.
Arguments cx {number} _.
Arguments cy {number} _.
Arguments r {number} _.
Arguments fill {number} _.
Arguments glow {number} _.
Arguments label {number} _.
Arguments winning {number} _.
End Circle.

Section Circles.
Context {number : Type} {A : Arith number} {C : Compare number}.

(** [a[i]] for an index that [parseInt] returned; [None] is
    [undefined]. *)
Definition element_at (a : list number) (i : option Z) : option number :=
  match i with
  | Some i => if (i <? 0)%Z then None else a !! Z.to_nat i
  | None => None
  end.

(** [rawVal || 0] *)
Definition or_0 (rawVal : option number) : number :=
  match rawVal with
  | Some v => if num_truthy v then v else num_of_Z 0
  | None => num_of_Z 0
  end.

(** The callback of [nodes.map]. *)
Definition render_node (layerSizes : list Z)
    (activations : list (list number)) (predictedDigit : option number)
    (node : NeuralNode.t number) : Circle.t number :=
  let layerVals := activations !! NeuralNode.layer node in
  let index := parseInt_at (split (NeuralNode.id node) "-n") 1 in
  let rawVal :=
    match layerVals with
    | Some layerVals => element_at layerVals index
    | None => Some (num_of_Z 0)
    end in
  let val := or_0 rawVal in
  let isInput := Nat.eqb (NeuralNode.layer node) 0 in
  let isOutput :=
    (Z.of_nat (NeuralNode.layer node)
     =? Z.of_nat (length layerSizes) - 1)%Z in
  let isWinning :=
    (isOutput
     && match predictedDigit, index with
        | Some d, Some index => num_eqb (num_of_Z index) d
        | _, _ => false
        end)%bool in
  let radius := if isInput then 2%Z else 5%Z in
  let radius := if isOutput then 6%Z else radius in
  let radius := if isWinning then 10%Z else radius in
  let fill :=
    if num_ltb num_0_1 val
    then if isWinning then fill_winning
         else if isOutput then fill_output val
         else fill_hidden val
    else fill_inactive in
  Circle.mk (NeuralNode.x node) (NeuralNode.y node) radius fill
    (num_ltb num_0_5 val)
    (if isOutput then Some index else None) isWinning.

End Circles.

(** ** The view, by index *)

Section ViewLayout.
Context {number : Type} {A : Arith number} {C : Compare number}.

(** The line that [target_step] pushes from the node [i] of the layer
    [l], whose activation is [sourceVal], to the node [j] of the next
    layer. *)
Definition connection (layerSizes : list Z) (predictedDigit : option number)
    (l i : nat) (sourceVal : number) (j : nat) : Line.t number :=
  let sourceNode := node_at layerSizes (size_at layerSizes l) l i in
  let targetNode :=
    node_at layerSizes (size_at layerSizes (l + 1)) (l + 1) j in
  Line.mk (line_key l i j)
    (NeuralNode.x sourceNode) (NeuralNode.y sourceNode)
    (NeuralNode.x targetNode) (NeuralNode.y targetNode)
    (if ((Z.of_nat l =? Z.of_nat (length layerSizes) - 2)%Z
         && is_predicted (Z.of_nat j) predictedDigit)%bool
     then "#0aff0a" else "#00f3ff")
    1 (num_mul (num_mul sourceVal num_0_5) num_0_4).

(** The lines from the sources [sourceLayer] of the layer [l], the
    first of which has the index [i]. *)
Fixpoint source_connections (layerSizes : list Z)
    (predictedDigit : option number) (l : nat) (sourceLayer : list number)
    (i : nat) : list (Line.t number) :=
  match sourceLayer with
  | [] => []
  | sourceVal :: sourceLayer' =>
      (if num_ltb sourceVal num_0_05 then []
       else if decide (i < Z.to_nat (size_at layerSizes l))
       then map (connection layerSizes predictedDigit l i sourceVal)
              (seq 0 (Z.to_nat (size_at layerSizes (l + 1))))
       else [])
      ++ source_connections layerSizes predictedDigit l sourceLayer'
           (Datatypes.S i)
  end.

(** The lines from the layers [l .. l + count - 1]. *)
Fixpoint connections_from (layerSizes : list Z)
    (predictedDigit : option number) (activations : list (list number))
    (l count : nat) : list (Line.t number) :=
  match count with
  | O => []
  | Datatypes.S c =>
      source_connections layerSizes predictedDigit l
        (default [] (activations !! l)) 0
      ++ connections_from layerSizes predictedDigit activations
           (Datatypes.S l) c
  end.

End ViewLayout.

(** ** The analysis service (src/services/geminiService.ts) *)

Module RecognitionResult.
Record t (number : Type) : Type := mk {
  prediction : number;
  probabilities : list number;
  explanation : string;
  featureMapDescription : string
}.
Arguments mk {number} prediction probabilities explanation
  featureMapDescription.
Arguments prediction {number} _.
Arguments probabilities {number} _.
Arguments explanation {number} _.
Arguments featureMapDescription {number} _.
End RecognitionResult.

(** [s] without the prefix [p], if it starts with it. *)
Fixpoint strip_prefix (p s : string) : option string :=
  match p with
  | String.EmptyString => Some s
  | String.String a p' =>
      match s with
      | String.EmptyString => None
      | String.String b s' =>
          if Ascii.eqb a b then strip_prefix p' s' else None
      end
  end.

(** [base64Image.replace(/^data:image\/(png|jpeg|jpg);base64,/, "")]:
    the three alternatives are tried in this order, at the start of
    the string only. *)
Definition cleanBase64 (base64Image : string) : string :=
  match strip_prefix "data:image/png;base64," base64Image with
  | Some rest => rest
  | None =>
      match strip_prefix "data:image/jpeg;base64," base64Image with
      | Some rest => rest
      | None =>
          match strip_prefix "data:image/jpg;base64," base64Image with
          | Some rest => rest
          | None => base64Image
          end
      end
  end.

Section Service.
Context {number : Type} {A : Arith number}.

(** The value returned from the [catch] block. *)
Definition fallback : RecognitionResult.t number :=
  RecognitionResult.mk (num_neg (num_of_Z 1))
    (replicate (Z.to_nat 10) num_0_1)
    "Failed to connect to the neural network API. Please check your API Key."
    "Error analyzing features.".

(** [analyzeDigit(base64Image)], the value its promise resolves with.
    The two calls out of the program are arguments: [generateContent]
    is [(await ai.models.generateContent(...)).text] as a function of
    the image data sent, [None] when the call throws or rejects and
    [Some None] when the text is [undefined]; [JSON_parse] is
    [JSON.parse], [None] when it throws, and its value is taken to have
    the shape that the cast [as RecognitionResult] asserts. *)
Definition analyzeDigit (generateContent : string -> option (option string))
    (JSON_parse : string -> option (RecognitionResult.t number))
    (base64Image : string) : RecognitionResult.t number :=
  let cleanBase64 := cleanBase64 base64Image in
  match generateContent cleanBase64 with
  | Some (Some text) =>
      if String.eqb text "" then fallback
      else match JSON_parse text with
           | Some result => result
           | None => fallback
           end
  | _ => fallback
  end.

End Service.

(** ** The application state (src/unnamed/part_001, AppContent) *)

Module AppState.
Record t (number : Type) : Type := mk {
  isAnalyzing : bool;
  result : option (RecognitionResult.t number);
  inputGrid : list number
}.
Arguments mk {number} isAnalyzing result inputGrid.
Arguments isAnalyzing {number} _.
Arguments result {number} _.
Arguments inputGrid {number} _.
End AppState.

Section App.
Context {number : Type} {A : Arith number} {C : Compare number}.

(** The three [useState] initial values. *)
Definition App_initial : AppState.t number :=
  AppState.mk false None (replicate (Z.to_nat 64) (num_of_Z 0)).

(** [handleAnalysis(imageData, gridData)] up to its [await]. *)
Definition handleAnalysis_begin (gridData : list number)
    (s : AppState.t number) : AppState.t number :=
  AppState.mk true None gridData.

(** [handleAnalysis] from its [await] on, with the value of
    [analyzeDigit]. *)
Definition handleAnalysis_settle (analysisData : RecognitionResult.t number)
    (s : AppState.t number) : AppState.t number :=
  AppState.mk false (Some analysisData) (AppState.inputGrid s).

(** A step of the application: [handleAnalyze] of the canvas reads
    the grid and calls [handleAnalysis], or a pending [handleAnalysis]
    goes on after its [await]. *)
Inductive App_step : AppState.t number -> AppState.t number -> Prop :=
| step_begin (s : AppState.t number)
    (canvas : HTMLCanvasElement number) (gridData : list number) :
    getInputGrid (Some canvas) = Some gridData ->
    App_step s (handleAnalysis_begin gridData s)
| step_settle (s : AppState.t number)
    (generateContent : string -> option (option string))
    (JSON_parse : string -> option (RecognitionResult.t number))
    (imageData : string) :
    App_step s
      (handleAnalysis_settle
         (analyzeDigit generateContent JSON_parse imageData) s).

(** The states the application goes through. *)
Inductive App_reachable : AppState.t number -> Prop :=
| reach_initial : App_reachable App_initial
| reach_step (s s' : AppState.t number) :
    App_reachable s -> App_step s s' -> App_reachable s'.

(** [probabilities={result?.probabilities || null}] *)
Definition App_probabilities (s : AppState.t number)
    : option (list number) :=
  RecognitionResult.probabilities <$> AppState.result s.

(** [predictedDigit={result?.prediction ?? null}] *)
Definition App_predictedDigit (s : AppState.t number) : option number :=
  RecognitionResult.prediction <$> AppState.result s.

End App.

(** ** The composer on the store layer *)

(** The first effect of the view with its arrays in the store: the
    input grid and the probabilities are addresses, the snapshot of
    [forwardPropagate] is written to in place, and what is handed to
    [setActivations] is an address. *)
Module StoreView.

Section StoreView.
Context {number : Type} {A : Arith number}.

#[local] Abbreviation M := (Store.M number).

#[local] Notation "x <- m ;; k" := (Store.bind m (fun x => k))
  (at level 100, m at next level, right associativity).

(** [l[l.length - 1] = v]: with [l] empty the index is [-1], which is
    not an element index, and the elements stay as they are. *)
Definition array_set_last (l : Store.loc) (v : Store.value number)
    : M unit :=
  fun h =>
    match h !! l with
    | Some a => (Normal tt, <[l := set_last a v]> h)
    | None => (Throw TypeError, h)
    end.

(** [Array(size).fill(0)], a new array. *)
Definition Array_fill_0 (size : Z) : M Store.loc :=
  if (size <? 0)%Z then Store.throw RangeError
  else Store.alloc (replicate (Z.to_nat size) (Store.VNum (num_of_Z 0))).

(** The loop of [a.map(f)] over the elements [a]: each result goes
    into the array [results]. *)
Fixpoint Array_map_loop (f : Store.value number -> M (Store.value number))
    (a : list (Store.value number)) (results : Store.loc) : M unit :=
  match a with
  | [] => Store.ret tt
  | v :: a' =>
      r <- f v ;;
      _ <- Store.array_push results r ;;
      Array_map_loop f a' results
  end.

(** [l.map(f)], a new array. *)
Definition Array_map (f : Store.value number -> M (Store.value number))
    (l : Store.loc) : M Store.loc :=
  a <- Store.contents l ;;
  results <- Store.alloc [] ;;
  _ <- Array_map_loop f a results ;;
  Store.ret results.

(** The callback of [layerSizes.map]: [size => Array(size).fill(0)]. *)
Definition zero_row (size : Store.value number) : M (Store.value number) :=
  size <- Store.as_size (Some size) ;;
  zeros <- Array_fill_0 size ;;
  Store.ret (Store.VRef zeros).

(** The effect; [probabilities] is an address or [null]. *)
Definition composeActivations (neuralNetEngine : Store.engine)
    (inputActivations : Store.loc) (probabilities : option Store.loc)
    : M Store.loc :=
  n <- Store.array_length inputActivations ;;
  if decide (n = 64) then
    calculatedActivations <-
      Store.forwardPropagate neuralNetEngine inputActivations ;;
    _ <- match probabilities with
         | Some probabilities =>
             m <- Store.array_length probabilities ;;
             if decide (m = 10)
             then array_set_last calculatedActivations
                    (Store.VRef probabilities)
             else Store.ret tt
         | None => Store.ret tt
         end ;;
    Store.ret calculatedActivations
  else
    layerSizes <- Store.getLayerConfig neuralNetEngine ;;
    Array_map zero_row layerSizes.

End StoreView.

End StoreView.

(** ** A small canvas *)

(** A context in which every rectangle read is one pixel of red 200,
    and a canvas of the size the application gives it; each of the 64
    values of its grid is the value of that pixel. *)
Definition sample_pixel : list Byte.byte :=
  [Byte.xc8; Byte.x00; Byte.x00; Byte.xff].

Definition sample_context : CanvasRenderingContext2D R :=
  {| getImageData := fun _ _ _ _ => Some sample_pixel |}.

Definition sample_canvas : HTMLCanvasElement R :=
  {| width := 280; height := 280; getContext := Some sample_context |}.

Definition sample_grid : list R := replicate 64 (cell_value sample_pixel).

(** ** The singleton engine in a store *)

(** A grid of 64 zeros at the address 0 and probabilities of ten times
    0.1 at the address 1, and the engine constructed behind them. *)
Definition singleton_store : list (list (Store.value R)) :=
  (Store.new_SimpleNeuralNet 64 [16; 12]%Z 10
     [map Store.VNum (replicate 64 0%R);
      map Store.VNum (replicate 10 (1 / 10)%R)]).2.

Definition singleton_engine : Store.engine := Store.mkEngine 3 4 2.

(** * Properties *)

(** ** Loops *)

Section Loops.
Context {S : Type}.

Lemma for_upto_push {X : Type} (f : nat -> X) (count start : nat)
    (acc : list X) :
  for_upto start count (fun v a => push a (f v)) acc
  = acc ++ map f (seq start count).
Proof.
  revert start acc.
  induction count as [|c IH]; intros start acc; cbn [for_upto seq map].
  - by rewrite app_nil_r.
  - rewrite IH. unfold push. by rewrite <- app_assoc.
Qed.

(** A loop stops at the first iteration that throws. *)
Lemma for_uptoM_throw (body : nat -> S -> completion S) (count start : nat)
    (s : S) (e : js_error) :
  0 < count -> body start s = Throw e ->
  for_uptoM start count body s = Throw e.
Proof.
  intros Hc Hb. destruct count as [|c]; [lia|].
  cbn [for_uptoM]. by rewrite Hb.
Qed.

End Loops.

(** ** The constructor *)

Section Constructor.
Context {number : Type} {A : Arith number}.

Lemma map_const_seq {X : Type} (c : X) (count start : nat) :
  map (fun _ => c) (seq start count) = replicate count c.
Proof.
  revert start. induction count as [|n IH]; intros start; cbn; [done|].
  by rewrite IH.
Qed.

Lemma init_layer_eq (i : nat) (w : list (list (list number)))
    (b : list (list number)) (sizes : list Z) :
  init_layer i (mkNet w b sizes)
  = mkNet (w ++ [layer_weights i (size_at sizes i) (size_at sizes (i + 1))])
          (b ++ [layer_biases (size_at sizes (i + 1))]) sizes.
Proof.
  unfold init_layer, layer_weights, layer_biases.
  cbn [layerSizes weights biases].
  rewrite (for_upto_push (fun _ => num_neg num_0_1)), map_const_seq.
  rewrite (for_upto_push
             (fun j => for_upto 0 (Z.to_nat (size_at sizes (i + 1)))
                         (fun k nodeWeights =>
                            push nodeWeights
                              (init_weight i (size_at sizes i) j k)) [])).
  cbn [app]. unfold push at 1 2.
  do 3 f_equal. apply map_ext. intros j.
  exact (for_upto_push (init_weight i (size_at sizes i) j) _ 0 []).
Qed.

Lemma init_loop_eq (sizes : list Z) (count start : nat)
    (w : list (list (list number))) (b : list (list number)) :
  for_upto start count init_layer (mkNet w b sizes)
  = mkNet
      (w ++ map (fun i => layer_weights i (size_at sizes i)
                            (size_at sizes (i + 1))) (seq start count))
      (b ++ map (fun i => layer_biases (size_at sizes (i + 1)))
              (seq start count))
      sizes.
Proof.
  revert start w b.
  induction count as [|c IH]; intros start w b; cbn [for_upto seq map].
  - by rewrite !app_nil_r.
  - rewrite init_layer_eq, IH. by rewrite <- !app_assoc.
Qed.

(** The engine the constructor returns, field by field. *)
Lemma new_SimpleNeuralNet_eq (inputSize : Z) (hiddenSizes : list Z)
    (outputSize : Z) :
  new_SimpleNeuralNet inputSize hiddenSizes outputSize
  = mkNet (weights_of (topology inputSize hiddenSizes outputSize))
          (biases_of (topology inputSize hiddenSizes outputSize))
          (topology inputSize hiddenSizes outputSize).
Proof.
  unfold new_SimpleNeuralNet, initializeWeights. cbn [layerSizes].
  by rewrite init_loop_eq.
Qed.

End Constructor.

(** ** Forward propagation on a constructed engine *)

Section Propagation.
Context {number : Type} {A : Arith number}.

Lemma length_topology (inputSize : Z) (hiddenSizes : list Z)
    (outputSize : Z) :
  length (topology inputSize hiddenSizes outputSize)
  = Datatypes.S (length hiddenSizes + 1).
Proof. unfold topology. cbn [length]. by rewrite length_app. Qed.

Lemma weights_of_lookup (sizes : list Z) (i : nat) :
  i < length sizes - 1 ->
  weights_of sizes !! i
  = Some (layer_weights i (size_at sizes i) (size_at sizes (i + 1))).
Proof.
  intros Hi. unfold weights_of.
  by rewrite list_lookup_fmap, lookup_seq_lt.
Qed.

Lemma biases_of_lookup (sizes : list Z) (i : nat) :
  i < length sizes - 1 ->
  biases_of sizes !! i = Some (layer_biases (size_at sizes (i + 1))).
Proof.
  intros Hi. unfold biases_of.
  by rewrite list_lookup_fmap, lookup_seq_lt.
Qed.

Lemma layer_weights_lookup (i : nat) (a b : Z) (j : nat) :
  j < Z.to_nat a ->
  layer_weights i a b !! j
  = Some (map (init_weight i a j) (seq 0 (Z.to_nat b))).
Proof.
  intros Hj. unfold layer_weights.
  by rewrite list_lookup_fmap, lookup_seq_lt.
Qed.

Lemma weight_row_lookup (i : nat) (a : Z) (j n k : nat) :
  k < n ->
  map (init_weight i a j) (seq 0 n) !! k = Some (init_weight i a j k).
Proof.
  intros Hk. by rewrite list_lookup_fmap, lookup_seq_lt.
Qed.

Lemma layer_biases_lookup (b : Z) (k : nat) :
  k < Z.to_nat b -> layer_biases b !! k = Some (num_neg num_0_1).
Proof. intros Hk. by apply lookup_replicate_2. Qed.

Lemma length_weights_of (sizes : list Z) :
  length (weights_of sizes) = length sizes - 1.
Proof. unfold weights_of. by rewrite length_map, length_seq. Qed.

Lemma length_layer_output (i : nat) (a b : Z) (current : list number) :
  length (layer_output i a b current) = Z.to_nat b.
Proof. unfold layer_output. by rewrite length_map, length_seq. Qed.

(** The [inIdx] loop, when the inputs are no more than the rows. *)
Lemma dot_loop_eq (i : nat) (a b : Z) (outIdx : nat) (xs pre : list number)
    (sum : number) :
  length (pre ++ xs) <= Z.to_nat a -> outIdx < Z.to_nat b ->
  for_uptoM (length pre) (length xs)
    (dot_step (pre ++ xs) (Some (layer_weights i a b)) outIdx) sum
  = Normal (weighted_sum i a outIdx (length pre) xs sum).
Proof.
  revert pre sum.
  induction xs as [|x xs IH]; intros pre sum Hlen Hout; [done|].
  cbn [length for_uptoM weighted_sum].
  rewrite length_app in Hlen. cbn [length] in Hlen.
  unfold dot_step at 1. cbn [read_number read_row].
  rewrite list_lookup_middle by done. cbn.
  rewrite layer_weights_lookup by lia. cbn.
  rewrite weight_row_lookup by done. cbn.
  specialize (IH (pre ++ [x]) (num_add sum
                (num_mul x (init_weight i a (length pre) outIdx)))).
  rewrite <- app_assoc in IH. cbn [app] in IH.
  replace (length (pre ++ [x])) with (Datatypes.S (length pre)) in IH
    by (rewrite length_app; cbn [length]; lia).
  apply IH; [|done].
  rewrite length_app. cbn [length]. lia.
Qed.

(** The [outIdx] loop. *)
Lemma node_loop_eq (i : nat) (a b : Z) (current : list number)
    (count start : nat) (next : list number) :
  length current <= Z.to_nat a -> start + count <= Z.to_nat b ->
  for_uptoM start count
    (node_step current (Some (layer_weights i a b)) (Some (layer_biases b)))
    next
  = Normal
      (next ++ map (fun outIdx =>
                      sigmoid (weighted_sum i a outIdx 0 current
                                 (num_neg num_0_1)))
                 (seq start count)).
Proof.
  intros Hlen. revert start next.
  induction count as [|c IH]; intros start next Hb; cbn [for_uptoM seq map].
  - by rewrite app_nil_r.
  - unfold node_step at 1. cbn [read_number].
    rewrite layer_biases_lookup by lia. cbn.
    rewrite (dot_loop_eq i a b start current [] _) by (done || lia). cbn.
    rewrite IH by lia. unfold push. by rewrite <- app_assoc.
Qed.

(** The [i] loop. *)
Lemma layer_loop_eq (sizes : list Z) (count i : nat)
    (acts : list (list number)) (current : list number) :
  i + count <= length sizes - 1 ->
  length current <= Z.to_nat (size_at sizes i) ->
  for_uptoM i count
    (layer_step (mkNet (weights_of sizes) (biases_of sizes) sizes))
    (acts, current)
  = Normal (acts ++ propagate_from sizes i count current,
            default current (last (propagate_from sizes i count current))).
Proof.
  revert i acts current.
  induction count as [|c IH]; intros i acts current Hi Hlen;
    cbn [for_uptoM propagate_from].
  - by rewrite app_nil_r.
  - unfold layer_step at 1. cbn [weights biases layerSizes fst snd].
    rewrite weights_of_lookup, biases_of_lookup by lia.
    rewrite node_loop_eq by (done || lia). cbn.
    rewrite IH; [|lia|].
    + unfold push. rewrite <- app_assoc. cbn [app]. rewrite last_cons.
      rewrite !Nat.add_1_r. f_equal. f_equal.
      by destruct (last _).
    + rewrite length_map, length_seq, Nat.add_1_r. lia.
Qed.

(** What [forwardPropagate] returns on a constructed engine when the
    input is no longer than the first layer. *)
Lemma forwardPropagate_eq (inputSize : Z) (hiddenSizes : list Z)
    (outputSize : Z) (inputs : list number) :
  length inputs <= Z.to_nat inputSize ->
  forwardPropagate (new_SimpleNeuralNet inputSize hiddenSizes outputSize)
    inputs
  = Normal
      (inputs
       :: propagate_from (topology inputSize hiddenSizes outputSize) 0
            (length hiddenSizes + 1) inputs).
Proof.
  intros Hlen. rewrite new_SimpleNeuralNet_eq.
  unfold forwardPropagate. cbn [weights].
  rewrite length_weights_of.
  assert (length (topology inputSize hiddenSizes outputSize) - 1
          = length hiddenSizes + 1) as ->.
  { unfold topology. cbn [length]. rewrite length_app. cbn. lia. }
  rewrite layer_loop_eq; [done| |done].
  unfold topology. cbn [length]. rewrite length_app. cbn. lia.
Qed.

(** The [inIdx] loop, when the inputs outnumber the rows: the read of
    the first missing row is [undefined], and indexing it throws. *)
Lemma dot_loop_long (i : nat) (a b : Z) (outIdx : nat)
    (current : list number) (count start : nat) (sum : number) :
  start <= Z.to_nat a < start + count ->
  start + count <= length current -> outIdx < Z.to_nat b ->
  for_uptoM start count
    (dot_step current (Some (layer_weights i a b)) outIdx) sum
  = Throw TypeError.
Proof.
  revert start sum.
  induction count as [|c IH]; intros start sum Hm Hlen Hout; [lia|].
  cbn [for_uptoM]. unfold dot_step at 1. cbn [read_number read_row].
  destruct (lookup_lt_is_Some_2 current start) as [x ->]; [lia|]. cbn.
  destruct (decide (start = Z.to_nat a)) as [->|Hne].
  - rewrite (lookup_ge_None_2 (layer_weights i a b)); [done|].
    unfold layer_weights. by rewrite length_map, length_seq.
  - rewrite layer_weights_lookup by lia. cbn.
    rewrite weight_row_lookup by done. cbn. apply IH; lia.
Qed.

Lemma node_loop_long (i : nat) (a b : Z) (current next : list number)
    (count : nat) :
  Z.to_nat a < length current -> 0 < count <= Z.to_nat b ->
  for_uptoM 0 count
    (node_step current (Some (layer_weights i a b)) (Some (layer_biases b)))
    next
  = Throw TypeError.
Proof.
  intros Hlong Hcount. apply for_uptoM_throw; [lia|].
  unfold node_step. cbn [read_number].
  rewrite layer_biases_lookup by lia. cbn [mbind completion_bind].
  by rewrite (dot_loop_long i a b 0 current) by lia.
Qed.

Lemma layer_loop_long (sizes : list Z) (acts : list (list number))
    (inputs : list number) :
  0 < length sizes - 1 ->
  Z.to_nat (size_at sizes 0) < length inputs ->
  0 < Z.to_nat (size_at sizes 1) ->
  for_uptoM 0 (length sizes - 1)
    (layer_step (mkNet (weights_of sizes) (biases_of sizes) sizes))
    (acts, inputs)
  = Throw TypeError.
Proof.
  intros Hlen Hlong Hnext. apply for_uptoM_throw; [done|].
  unfold layer_step. cbn [weights biases layerSizes fst snd].
  rewrite weights_of_lookup, biases_of_lookup by done.
  change (0 + 1) with 1.
  by rewrite node_loop_long by lia.
Qed.

(** What [forwardPropagate] does on a constructed engine when the
    input is longer than the first layer and the second layer is not
    empty. *)
Lemma forwardPropagate_long (inputSize : Z) (hiddenSizes : list Z)
    (outputSize : Z) (inputs : list number) :
  Z.to_nat inputSize < length inputs ->
  0 < Z.to_nat (size_at (topology inputSize hiddenSizes outputSize) 1) ->
  forwardPropagate (new_SimpleNeuralNet inputSize hiddenSizes outputSize)
    inputs
  = Throw TypeError.
Proof.
  intros Hlong Hnext. rewrite new_SimpleNeuralNet_eq.
  unfold forwardPropagate. cbn [weights].
  rewrite length_weights_of.
  rewrite layer_loop_long; [done| |done|done].
  rewrite length_topology. lia.
Qed.

(** The same input when the second layer is empty: no weight is read,
    and the later layers are computed from an empty vector. *)
Lemma forwardPropagate_long_empty (inputSize : Z) (hiddenSizes : list Z)
    (outputSize : Z) (inputs : list number) :
  Z.to_nat (size_at (topology inputSize hiddenSizes outputSize) 1) = 0 ->
  forwardPropagate (new_SimpleNeuralNet inputSize hiddenSizes outputSize)
    inputs
  = Normal
      (inputs :: []
       :: propagate_from (topology inputSize hiddenSizes outputSize) 1
            (length hiddenSizes) []).
Proof.
  intros Hnext. rewrite new_SimpleNeuralNet_eq.
  set (sizes := topology inputSize hiddenSizes outputSize) in *.
  unfold forwardPropagate. cbn [weights].
  rewrite length_weights_of.
  assert (length sizes - 1 = Datatypes.S (length hiddenSizes)) as ->.
  { unfold sizes. rewrite length_topology. lia. }
  cbn [for_uptoM]. unfold layer_step at 1.
  cbn [weights biases layerSizes fst snd].
  change (0 + 1) with 1. rewrite Hnext. cbn [for_uptoM mbind completion_bind].
  rewrite layer_loop_eq.
  - done.
  - unfold sizes. rewrite length_topology. lia.
  - cbn. lia.
Qed.

(** On a constructed engine [forwardPropagate] returns a snapshot or
    throws a [TypeError], whatever the input. *)
Lemma forwardPropagate_outcomes (inputSize : Z) (hiddenSizes : list Z)
    (outputSize : Z) (inputs : list number) :
  (exists snapshot,
     forwardPropagate (new_SimpleNeuralNet inputSize hiddenSizes outputSize)
       inputs
     = Normal snapshot)
  \/ forwardPropagate (new_SimpleNeuralNet inputSize hiddenSizes outputSize)
       inputs
     = Throw TypeError.
Proof.
  destruct (decide (length inputs <= Z.to_nat inputSize)) as [Hle|Hgt].
  { left. eexists. by apply forwardPropagate_eq. }
  destruct (Z.to_nat (size_at (topology inputSize hiddenSizes outputSize) 1))
    as [|c] eqn:Hc.
  - left. eexists. by apply forwardPropagate_long_empty.
  - right. apply forwardPropagate_long; lia.
Qed.

End Propagation.

(** ** Shape and range of a snapshot *)

Section Snapshot.
Context {number : Type} {A : Arith number}.

Lemma length_propagate_from (sizes : list Z) (count i : nat)
    (current : list number) :
  length (propagate_from sizes i count current) = count.
Proof.
  revert i current. induction count as [|c IH]; intros i current; cbn; [done|].
  by rewrite IH.
Qed.

Lemma propagate_from_lookup (sizes : list Z) (count i n : nat)
    (current layer : list number) :
  propagate_from sizes i count current !! n = Some layer ->
  exists previous,
    layer = layer_output (i + n) (size_at sizes (i + n))
              (size_at sizes (i + n + 1)) previous.
Proof.
  revert i n current.
  induction count as [|c IH]; intros i n current; cbn [propagate_from];
    [done|].
  destruct n as [|n]; cbn.
  - intros [= <-]. exists current. by rewrite !Nat.add_0_r.
  - intros Hn. destruct (IH _ _ _ Hn) as (previous & ->). exists previous.
    by replace (i + Datatypes.S n) with (Datatypes.S i + n) by lia.
Qed.

Lemma layer_output_sigmoid (i : nat) (a b : Z) (current : list number)
    (v : number) :
  v ∈ layer_output i a b current -> exists sum, v = sigmoid sum.
Proof.
  unfold layer_output. intros (outIdx & -> & _)%list_elem_of_fmap. eauto.
Qed.

Lemma neuralNetEngine_config :
  getLayerConfig neuralNetEngine = [64; 16; 12; 10]%Z.
Proof.
  unfold getLayerConfig, neuralNetEngine.
  by rewrite new_SimpleNeuralNet_eq.
Qed.

Lemma getLayerConfig_new (inputSize : Z) (hiddenSizes : list Z)
    (outputSize : Z) :
  getLayerConfig (new_SimpleNeuralNet inputSize hiddenSizes outputSize)
  = topology inputSize hiddenSizes outputSize.
Proof. unfold getLayerConfig. by rewrite new_SimpleNeuralNet_eq. Qed.

(** C6.  For a topology of non-negative sizes and an input vector of
    length [topology[0]], [forwardPropagate] returns a snapshot with
    one vector per layer of the topology, whose layer 0 is the input
    vector and whose layer [i] has length [topology[i]]. *)
Theorem shape_invariant (inputSize : Z) (hiddenSizes : list Z)
    (outputSize : Z) (inputs : list number) :
  Forall (fun size => (0 <= size)%Z)
         (topology inputSize hiddenSizes outputSize) ->
  Z.of_nat (length inputs) = inputSize ->
  exists snapshot,
    forwardPropagate
      (new_SimpleNeuralNet inputSize hiddenSizes outputSize) inputs
    = Normal snapshot
    /\ length snapshot
       = length (getLayerConfig
                   (new_SimpleNeuralNet inputSize hiddenSizes outputSize))
    /\ snapshot !! 0 = Some inputs
    /\ forall i layer,
         snapshot !! i = Some layer ->
         getLayerConfig
           (new_SimpleNeuralNet inputSize hiddenSizes outputSize) !! i
         = Some (Z.of_nat (length layer)).
Proof.
  intros Hsizes Hin. rewrite getLayerConfig_new.
  eexists. split; [apply forwardPropagate_eq; lia|].
  split; [|split; [done|]].
  - cbn [length]. by rewrite length_propagate_from, length_topology.
  - intros [|n] layer; cbn.
    + intros [= <-]. by rewrite Hin.
    + intros Hn.
      assert (n < length hiddenSizes + 1) as Hlt.
      { apply lookup_lt_Some in Hn. by rewrite length_propagate_from in Hn. }
      destruct (propagate_from_lookup _ _ _ _ _ _ Hn) as (previous & ->).
      rewrite length_layer_output. cbn [Nat.add].
      destruct (lookup_lt_is_Some_2
                  (topology inputSize hiddenSizes outputSize)
                  (Datatypes.S n)) as [size Hsize].
      { rewrite length_topology. lia. }
      change ((inputSize :: hiddenSizes ++ [outputSize]) !! Datatypes.S n)
        with (topology inputSize hiddenSizes outputSize !! Datatypes.S n).
      rewrite Nat.add_1_r. unfold size_at. rewrite Hsize. cbn.
      rewrite Forall_lookup in Hsizes. specialize (Hsizes _ _ Hsize).
      cbn in Hsizes. by rewrite Z2Nat.id.
Qed.

(** C10.  The singleton engine is built with input size 64, hidden
    sizes [16, 12] and output size 10: [getLayerConfig] returns
    [64, 16, 12, 10], whose first entry is the 64 of the grid and
    whose last entry is the 10 of the override vector. *)
Theorem singleton_topology :
  getLayerConfig neuralNetEngine = [64; 16; 12; 10]%Z
  /\ getLayerConfig neuralNetEngine !! 0 = Some 64%Z
  /\ last (getLayerConfig neuralNetEngine) = Some 10%Z.
Proof. by rewrite neuralNetEngine_config. Qed.

End Snapshot.

(** ** The composer *)

Section Composer.
Context {number : Type} {A : Arith number}.

Lemma length_set_last {X : Type} (a : list X) (v : X) :
  length (set_last a v) = length a.
Proof.
  unfold set_last. destruct (length a) eqn:Hn; [done|].
  by rewrite length_insert.
Qed.

Lemma last_set_last {X : Type} (a : list X) (v : X) :
  0 < length a -> last (set_last a v) = Some v.
Proof.
  intros Ha. unfold set_last.
  destruct (length a) as [|n] eqn:Hn; [lia|].
  rewrite last_lookup, length_insert, Hn. cbn.
  apply list_lookup_insert_eq. lia.
Qed.

Lemma lookup_set_last {X : Type} (a : list X) (v : X) (i : nat) :
  i < length a - 1 -> set_last a v !! i = a !! i.
Proof.
  intros Hi. unfold set_last.
  destruct (length a) as [|n] eqn:Hn; [done|].
  apply list_lookup_insert_ne. lia.
Qed.

(** The local simulation of the singleton engine on a 64-value grid. *)
Lemma neuralNetEngine_propagate (x : list number) :
  length x = 64 ->
  forwardPropagate neuralNetEngine x
  = Normal (x :: propagate_from [64; 16; 12; 10]%Z 0 3 x).
Proof.
  intros Hx. unfold neuralNetEngine.
  rewrite forwardPropagate_eq; [done|]. rewrite Hx. by compute.
Qed.

Lemma composeActivations_absent (x : list number) :
  length x = 64 ->
  composeActivations x None = forwardPropagate neuralNetEngine x.
Proof.
  intros Hx. unfold composeActivations.
  rewrite decide_True by done.
  by destruct (forwardPropagate neuralNetEngine x).
Qed.

(** C2.  For an input [x] of length [topology[0]] and an override [o]
    of length [topology[last]], the composed snapshot has the override
    itself as its last layer, and every earlier layer is the one that
    propagation without an override produces. *)
Theorem override_substitution (x o : list number) :
  getLayerConfig neuralNetEngine !! 0 = Some (Z.of_nat (length x)) ->
  last (getLayerConfig neuralNetEngine) = Some (Z.of_nat (length o)) ->
  exists local composed,
    forwardPropagate neuralNetEngine x = Normal local
    /\ composeActivations x None = Normal local
    /\ composeActivations x (Some o) = Normal composed
    /\ length composed = length local
    /\ last composed = Some o
    /\ forall i, i < length local - 1 -> composed !! i = local !! i.
Proof.
  rewrite neuralNetEngine_config. cbn. intros [= Hx] [= Ho].
  assert (length x = 64) as Hx' by lia.
  assert (length o = 10) as Ho' by lia.
  exists (x :: propagate_from [64; 16; 12; 10]%Z 0 3 x).
  exists (set_last (x :: propagate_from [64; 16; 12; 10]%Z 0 3 x) o).
  split; [by apply neuralNetEngine_propagate|].
  split; [by rewrite composeActivations_absent, neuralNetEngine_propagate|].
  split.
  { unfold composeActivations. rewrite decide_True by done.
    rewrite neuralNetEngine_propagate by done. cbn.
    by rewrite decide_True by done. }
  split; [apply length_set_last|].
  split; [apply last_set_last; cbn; lia|].
  intros i Hi. by apply lookup_set_last.
Qed.

Lemma composeActivations_other_length (x : list number)
    (p : option (list number)) :
  length x <> 64 -> composeActivations x p = Normal zero_state.
Proof.
  intros Hx. unfold composeActivations.
  rewrite decide_False by done. by rewrite neuralNetEngine_config.
Qed.

Lemma composeActivations_malformed (x o : list number) :
  length x = 64 -> length o <> 10 ->
  composeActivations x (Some o) = forwardPropagate neuralNetEngine x.
Proof.
  intros Hx Ho. unfold composeActivations. rewrite decide_True by done.
  rewrite neuralNetEngine_propagate by done. cbn.
  by rewrite decide_False by done.
Qed.

(** C7, as the code has it.  A length mismatch raises nothing.  An
    input whose length is not 64 yields the zero state, whatever the
    override; with a 64-value input, an override whose length is not
    10 is ignored, and the result is the local snapshot, as it is when
    the override is absent. *)
Theorem shape_mismatch_is_silent (x o : list number)
    (p : option (list number)) :
  (length x <> 64 -> composeActivations x p = Normal zero_state)
  /\ (length x = 64 -> length o <> 10 ->
      exists local,
        forwardPropagate neuralNetEngine x = Normal local
        /\ composeActivations x (Some o) = Normal local
        /\ composeActivations x None = Normal local).
Proof.
  split; [apply composeActivations_other_length|].
  intros Hx Ho. eexists. split; [by apply neuralNetEngine_propagate|].
  split.
  - by rewrite composeActivations_malformed, neuralNetEngine_propagate.
  - by rewrite composeActivations_absent, neuralNetEngine_propagate.
Qed.

End Composer.

(** ** Exact real arithmetic: bounds on the sine at the seeds *)

Section RealFacts.
Local Open Scope R_scope.

Lemma PI_bounds : 3141 / 1000 < PI < 3143 / 1000.
Proof.
  pose proof (PI_2_3_7_ineq 1) as [Hlo Hhi].
  unfold sum_f_R0, tg_alt, PI_2_3_7_tg, Ratan_seq in Hlo, Hhi.
  simpl in Hlo, Hhi.
  split; lra.
Qed.

Lemma sin_gt_half (x : R) : PI / 6 < x < 5 * PI / 6 -> 1 / 2 < sin x.
Proof.
  intros [Hlo Hhi]. pose proof PI_bounds as [? ?].
  rewrite <- sin_PI6.
  destruct (Rle_dec x (PI / 2)) as [Hx|Hx].
  - apply sin_increasing_1; lra.
  - rewrite <- (sin_PI_x x). apply sin_increasing_1; lra.
Qed.

Lemma sin_gt_half_period (x : R) (k : nat) :
  PI / 6 + 2 * INR k * PI < x < 5 * PI / 6 + 2 * INR k * PI ->
  1 / 2 < sin x.
Proof.
  intros H.
  replace x with (x - 2 * INR k * PI + 2 * INR k * PI) by ring.
  rewrite sin_period. apply sin_gt_half. lra.
Qed.

Lemma sin_1001 : 1 / 2 < sin 1001.
Proof.
  apply (sin_gt_half_period _ 159). pose proof PI_bounds.
  replace (INR 159) with 159 by (rewrite INR_IZR_INZ; reflexivity).
  lra.
Qed.

Lemma sin_1101 : 1 / 2 < sin 1101.
Proof.
  apply (sin_gt_half_period _ 175). pose proof PI_bounds.
  replace (INR 175) with 175 by (rewrite INR_IZR_INZ; reflexivity).
  lra.
Qed.

Lemma sin_5 : sin 5 < 0.
Proof. pose proof PI_bounds. apply sin_lt_0; lra. Qed.

Lemma sigmoid_R (x : R) : sigmoid x = 1 / (1 + exp (- x)).
Proof. reflexivity. Qed.

Lemma sigmoid_range (x : R) : 0 < sigmoid x < 1.
Proof.
  rewrite sigmoid_R. pose proof (exp_pos (- x)) as He.
  split.
  - apply Rdiv_lt_0_compat; lra.
  - apply (Rmult_lt_reg_r (1 + exp (- x))); [lra|].
    unfold Rdiv. rewrite Rmult_assoc, Rinv_l by lra. lra.
Qed.

Lemma sigmoid_increasing (x y : R) : x < y -> sigmoid x < sigmoid y.
Proof.
  intros Hxy. rewrite !sigmoid_R.
  pose proof (exp_pos (- x)). pose proof (exp_pos (- y)).
  assert (exp (- y) < exp (- x)) by (apply exp_increasing; lra).
  unfold Rdiv. rewrite !Rmult_1_l.
  apply Rinv_lt_contravar; [|lra].
  apply Rmult_lt_0_compat; lra.
Qed.

Lemma sigmoid_bias : sigmoid (- (1 / 10)) = 1 / (1 + exp (1 / 10)).
Proof. rewrite sigmoid_R. by rewrite Ropp_involutive. Qed.

(** With every input 0 the weighted terms vanish. *)
Lemma weighted_sum_zero (i : nat) (a : Z) (outIdx n inIdx : nat) (sum : R) :
  weighted_sum i a outIdx inIdx (replicate n 0) sum = sum.
Proof.
  revert inIdx sum.
  induction n as [|n IH]; intros inIdx sum; cbn [replicate weighted_sum];
    [done|].
  rewrite IH. cbn. ring.
Qed.

Lemma layer_output_zero (i : nat) (a b : Z) (n : nat) :
  layer_output i a b (replicate n 0)
  = replicate (Z.to_nat b) (1 / (1 + exp (1 / 10))).
Proof.
  unfold layer_output.
  rewrite <- (map_const_seq (1 / (1 + exp (1 / 10))) (Z.to_nat b) 0).
  apply map_ext. intros outIdx. rewrite weighted_sum_zero.
  apply sigmoid_bias.
Qed.

End RealFacts.

(** ** Exact real arithmetic: the engine *)

Section RealEngine.
Local Open Scope R_scope.

(** C3, at the singleton engine.  The weight of transition 0 from
    input node 0 to output node 5 has seed 5; it is
    [(sin 5 * 2 - 1) / sqrt 64], and its absolute value exceeds
    [1 / sqrt 64]. *)
Theorem weight_exceeds_scaled_unit :
  exists (layerW : list (list R)) (nodeWeights : list R) (w : R),
    weights neuralNetEngine !! 0%nat = Some layerW
    /\ layerW !! 0%nat = Some nodeWeights
    /\ nodeWeights !! 5%nat = Some w
    /\ w = (sin 5 * 2 - 1) / sqrt 64
    /\ 1 / sqrt 64 < Rabs w.
Proof.
  unfold neuralNetEngine. rewrite new_SimpleNeuralNet_eq. cbn [weights].
  do 3 eexists.
  split; [apply weights_of_lookup; unfold topology; cbn; lia|].
  split; [apply layer_weights_lookup; unfold topology; cbn; lia|].
  split; [apply weight_row_lookup; unfold topology; cbn; lia|].
  change (init_weight 0 (size_at (topology 64 [16%Z; 12%Z] 10) 0) 0 5)
    with ((sin 5 * 2 - 1) / sqrt 64).
  split; [reflexivity|].
  replace 64 with (8 * 8) by lra. rewrite sqrt_square by lra.
  pose proof sin_5. rewrite Rabs_left; lra.
Qed.

(** C4, as the code has it.  Propagating the all-zero input of length
    [topology[0]] gives every node of layer 1 the activation
    [1 / (1 + e^0.1)], the sigmoid of the bias. *)
Theorem zero_input_first_layer (inputSize : Z) (hiddenSizes : list Z)
    (outputSize : Z) :
  exists snapshot,
    forwardPropagate (new_SimpleNeuralNet inputSize hiddenSizes outputSize)
      (replicate (Z.to_nat inputSize) 0)
    = Normal snapshot
    /\ snapshot !! 1%nat
       = Some (replicate
                 (Z.to_nat
                    (size_at (topology inputSize hiddenSizes outputSize) 1))
                 (1 / (1 + exp (1 / 10)))).
Proof.
  eexists. split.
  - apply forwardPropagate_eq. by rewrite length_replicate.
  - rewrite Nat.add_1_r. cbn [propagate_from lookup list_lookup].
    by rewrite layer_output_zero.
Qed.

Lemma init_weight_1_2_0_1 :
  init_weight 1 2 0 1 = (sin 1001 * 2 - 1) / sqrt 2.
Proof. reflexivity. Qed.

Lemma init_weight_1_2_1_1 :
  init_weight 1 2 1 1 = (sin 1101 * 2 - 1) / sqrt 2.
Proof. reflexivity. Qed.

(** C4 fails beyond layer 1: with topology [4, 2, 3] and the all-zero
    input, output node 1 receives the two layer-1 activations through
    positive weights, and its activation is above [1 / (1 + e^0.1)]. *)
Lemma zero_input_output_layer_differs :
  exists (snapshot : list (list R)) (layer : list R) (v : R),
    forwardPropagate (new_SimpleNeuralNet 4 [2%Z] 3) [0; 0; 0; 0]
    = Normal snapshot
    /\ snapshot !! 2%nat = Some layer
    /\ layer !! 1%nat = Some v
    /\ 1 / (1 + exp (1 / 10)) < v.
Proof.
  do 3 eexists. split; [by apply forwardPropagate_eq; cbn; lia|].
  split; [reflexivity|]. split; [reflexivity|].
  change [0; 0; 0; 0] with (replicate 4 0).
  change (size_at (topology 4 [2%Z] 3) 0) with 4%Z.
  change (size_at (topology 4 [2%Z] 3) (0 + 1)) with 2%Z.
  change (size_at (topology 4 [2%Z] 3) 1) with 2%Z.
  change (size_at (topology 4 [2%Z] 3) (1 + 1)) with 3%Z.
  rewrite layer_output_zero.
  rewrite <- sigmoid_bias. apply sigmoid_increasing.
  change (Z.to_nat 2) with 2%nat. cbn [replicate weighted_sum].
  rewrite init_weight_1_2_0_1, init_weight_1_2_1_1.
  pose proof sin_1001. pose proof sin_1101.
  pose proof (sigmoid_range (- (1 / 10))) as [Hs _].
  rewrite sigmoid_bias in *.
  assert (0 < sqrt 2) as Hsqrt by (apply sqrt_lt_R0; lra).
  assert (0 < (sin 1001 * 2 - 1) / sqrt 2) as Hw0
    by (apply Rdiv_lt_0_compat; lra).
  assert (0 < (sin 1101 * 2 - 1) / sqrt 2) as Hw1
    by (apply Rdiv_lt_0_compat; lra).
  cbn [num_add num_mul num_neg num_0_1 RArith].
  pose proof (Rmult_lt_0_compat _ _ Hs Hw0).
  pose proof (Rmult_lt_0_compat _ _ Hs Hw1).
  lra.
Qed.

(** C5, in exact real arithmetic.  For an input vector of length
    [topology[0]], [forwardPropagate] returns a snapshot in which
    every activation of the layers 1 to last lies strictly between 0
    and 1. *)
Theorem range_invariant_exact (inputSize : Z) (hiddenSizes : list Z)
    (outputSize : Z) (inputs : list R) :
  Z.of_nat (length inputs) = inputSize ->
  exists snapshot,
    forwardPropagate (new_SimpleNeuralNet inputSize hiddenSizes outputSize)
      inputs
    = Normal snapshot
    /\ forall (i : nat) (layer : list R) (v : R),
         (1 <= i)%nat -> snapshot !! i = Some layer -> v ∈ layer ->
         0 < v < 1.
Proof.
  intros Hin. eexists. split; [apply forwardPropagate_eq; lia|].
  intros [|n] layer v Hi Hlayer Hv; [lia|]. cbn in Hlayer.
  destruct (propagate_from_lookup _ _ _ _ _ _ Hlayer) as (previous & ->).
  destruct (layer_output_sigmoid _ _ _ _ _ Hv) as (sum & ->).
  apply sigmoid_range.
Qed.

End RealEngine.

(** ** IEEE-754 arithmetic: the sigmoid saturates *)

Section Binary64.
Variable M : ESMath.

(** The only weight of the topology [1, 1] has seed 0; in binary64
    it is exactly -1. *)
Lemma ieee_weight_seed_0 :
  init_weight (A := IEEE M) 0 1 0 0 = (-1)%float.
Proof.
  unfold init_weight. cbn [Math_sin Math_sqrt num_of_Z num_sub num_mul
                           num_div IEEE].
  change (float_of_Z (Z.of_nat 0 * 1000 + Z.of_nat 0 * 100 + Z.of_nat 0))
    with 0%float.
  by rewrite es_sin_zero.
Qed.

(** With the input -Infinity the weighted sum is +Infinity, the
    exponential of its opposite is +0, and the activation is exactly 1. *)
Lemma ieee_single_layer (x : float) :
  forwardPropagate (A := IEEE M) (new_SimpleNeuralNet (A := IEEE M) 1 [] 1)
    [x]
  = Normal
      [[x];
       [sigmoid (A := IEEE M)
          (PrimFloat.add (PrimFloat.opp 0x1.999999999999ap-4%float)
             (PrimFloat.mul x (-1)%float))]].
Proof.
  rewrite forwardPropagate_eq by (cbn; lia).
  rewrite <- ieee_weight_seed_0. reflexivity.
Qed.

(** With the input -Infinity the weighted sum is +Infinity, the
    exponential of its opposite is +0, and the activation is exactly 1. *)
Lemma ieee_saturates_at_1 :
  forwardPropagate (A := IEEE M) (new_SimpleNeuralNet (A := IEEE M) 1 [] 1)
    [neg_infinity]
  = Normal [[neg_infinity]; [1%float]].
Proof.
  rewrite ieee_single_layer. unfold sigmoid.
  cbn [Math_exp num_of_Z num_add num_div num_neg IEEE].
  change (PrimFloat.opp
            (PrimFloat.add (PrimFloat.opp 0x1.999999999999ap-4%float)
               (PrimFloat.mul neg_infinity (-1)%float)))
    with neg_infinity.
  by rewrite es_exp_neg_inf.
Qed.

(** With the input +Infinity the weighted sum is -Infinity, the
    exponential of its opposite is +Infinity, and the activation is
    exactly 0. *)
Lemma ieee_saturates_at_0 :
  forwardPropagate (A := IEEE M) (new_SimpleNeuralNet (A := IEEE M) 1 [] 1)
    [infinity]
  = Normal [[infinity]; [0%float]].
Proof.
  rewrite ieee_single_layer. unfold sigmoid.
  cbn [Math_exp num_of_Z num_add num_div num_neg IEEE].
  change (PrimFloat.opp
            (PrimFloat.add (PrimFloat.opp 0x1.999999999999ap-4%float)
               (PrimFloat.mul infinity (-1)%float)))
    with infinity.
  by rewrite es_exp_pos_inf.
Qed.

(** The same with a finite input, -1000, for a [Math.exp] whose value
    at -999.9 is small enough to vanish when added to 1 (the real
    exponential there is below 1e-434). *)
Lemma ieee_saturates_on_finite_input :
  PrimFloat.add 1%float (es_exp M (-0x1.f3f3333333333p+9)%float) = 1%float ->
  forwardPropagate (A := IEEE M) (new_SimpleNeuralNet (A := IEEE M) 1 [] 1)
    [(-1000)%float]
  = Normal [[(-1000)%float]; [1%float]].
Proof.
  intros Hexp. rewrite ieee_single_layer. unfold sigmoid.
  cbn [Math_exp num_of_Z num_add num_div num_neg IEEE].
  change (PrimFloat.opp
            (PrimFloat.add (PrimFloat.opp 0x1.999999999999ap-4%float)
               (PrimFloat.mul (-1000)%float (-1)%float)))
    with (-0x1.f3f3333333333p+9)%float.
  change (float_of_Z 1) with 1%float. by rewrite Hexp.
Qed.

(** In binary64, adding [0 * w] to the bias leaves the bias as it is,
    provided [w] is finite. *)
Lemma ieee_zero_term (w : float) :
  finite_number w = true ->
  PrimFloat.add (PrimFloat.opp 0x1.999999999999ap-4%float)
    (PrimFloat.mul 0%float w)
  = PrimFloat.opp 0x1.999999999999ap-4%float.
Proof.
  intros Hw. apply Prim2SF_inj. rewrite add_spec, mul_spec.
  unfold finite_number in Hw.
  destruct (Prim2SF w) as [s|s| |s m e]; try done; by destruct s.
Qed.

Lemma ieee_weighted_sum_zero (i : nat) (a : Z) (outIdx n inIdx : nat) :
  (forall j, finite_number (init_weight (A := IEEE M) i a j outIdx) = true) ->
  weighted_sum (A := IEEE M) i a outIdx inIdx (replicate n 0%float)
    (PrimFloat.opp 0x1.999999999999ap-4%float)
  = PrimFloat.opp 0x1.999999999999ap-4%float.
Proof.
  intros Hfin. revert inIdx.
  induction n as [|n IH]; intros inIdx; cbn [replicate weighted_sum]; [done|].
  cbn [num_add num_mul IEEE]. rewrite ieee_zero_term by apply Hfin.
  apply IH.
Qed.

(** In binary64 too, provided the weights of the first transition are
    finite, the all-zero input gives every node of layer 1 the sigmoid
    of the bias. *)
Lemma ieee_zero_input_first_layer (inputSize : Z) (hiddenSizes : list Z)
    (outputSize : Z) :
  (forall j k,
     finite_number (init_weight (A := IEEE M) 0 inputSize j k) = true) ->
  exists snapshot,
    forwardPropagate (A := IEEE M)
      (new_SimpleNeuralNet (A := IEEE M) inputSize hiddenSizes outputSize)
      (replicate (Z.to_nat inputSize) 0%float)
    = Normal snapshot
    /\ snapshot !! 1
       = Some (replicate
                 (Z.to_nat
                    (size_at (topology inputSize hiddenSizes outputSize) 1))
                 (sigmoid (A := IEEE M)
                    (PrimFloat.opp 0x1.999999999999ap-4%float))).
Proof.
  intros Hfin. eexists. split.
  - apply forwardPropagate_eq. by rewrite length_replicate.
  - rewrite Nat.add_1_r. cbn [propagate_from lookup list_lookup].
    f_equal. unfold layer_output.
    rewrite <- (map_const_seq
                  (sigmoid (A := IEEE M)
                     (PrimFloat.opp 0x1.999999999999ap-4%float))
                  (Z.to_nat
                     (size_at (topology inputSize hiddenSizes outputSize) 1))
                  0).
    apply map_ext. intros outIdx.
    change (num_neg (Arith := IEEE M) num_0_1)
      with (PrimFloat.opp 0x1.999999999999ap-4%float).
    change (size_at (topology inputSize hiddenSizes outputSize) 0)
      with inputSize.
    by rewrite ieee_weighted_sum_zero.
Qed.

End Binary64.

(** The same evaluated, with the [Math] that answers only where
    ECMAScript fixes the answer. *)
Example ieee_saturates_es_fixed :
  forwardPropagate (A := IEEE es_fixed)
    (new_SimpleNeuralNet (A := IEEE es_fixed) 1 [] 1) [neg_infinity]
  = Normal [[neg_infinity]; [1%float]].
Proof. vm_compute. reflexivity. Qed.

(** C5 fails in binary64.  With the topology [1, 1] and the input
    [-Infinity], whatever [Math.sin] and [Math.exp] the host provides,
    the activation of the output node is exactly 1, which is not below 1. *)
Lemma range_invariant_fails_in_binary64 :
  exists v : float,
    (forall M : ESMath,
       forwardPropagate (A := IEEE M)
         (new_SimpleNeuralNet (A := IEEE M) 1 [] 1) [neg_infinity]
       = Normal [[neg_infinity]; [v]])
    /\ PrimFloat.ltb v 1%float = false.
Proof.
  exists 1%float. split; [apply ieee_saturates_at_1|reflexivity].
Qed.

(** ** The store layer: frames and refinement *)

Section StoreProofs.
Context {number : Type} {A : Arith number}.

#[local] Abbreviation store := (list (list (Store.value number))).
#[local] Abbreviation M := (Store.M number).

Lemma unchanged_refl (n : nat) (ex : list Store.loc) (h : store) :
  Store.unchanged n ex h h.
Proof. by split. Qed.

Lemma unchanged_trans (n : nat) (ex : list Store.loc) (h1 h2 h3 : store) :
  Store.unchanged n ex h1 h2 -> Store.unchanged n ex h2 h3 ->
  Store.unchanged n ex h1 h3.
Proof.
  intros [Hl1 H1] [Hl2 H2]. split; [lia|].
  intros l Hl Hex. by rewrite H2, H1.
Qed.

Lemma unchanged_weaken (n n' : nat) (ex ex' : list Store.loc) (h h' : store) :
  n' <= n -> ex ⊆ ex' ->
  Store.unchanged n ex h h' -> Store.unchanged n' ex' h h'.
Proof.
  intros Hn Hex [Hl H]. split; [done|].
  intros l Hl' Hnin. apply H; [lia|]. intros Hin. apply Hnin. by apply Hex.
Qed.

(** *** Computations that only read *)

Lemma reads_ret {X : Type} (x : X) :
  Store.reads (number := number) (Store.ret x).
Proof. by intros h. Qed.

Lemma reads_throw {X : Type} (e : js_error) :
  Store.reads (number := number) (Store.throw (X := X) e).
Proof. by intros h. Qed.

Lemma reads_bind {X Y : Type} (m : M X) (f : X -> M Y) :
  Store.reads m -> (forall x, Store.reads (f x)) ->
  Store.reads (Store.bind m f).
Proof.
  intros Hm Hf h. unfold Store.bind. specialize (Hm h).
  destruct (m h) as [[x|e] h1]; cbn in *; subst; [apply Hf|done].
Qed.

Lemma reads_contents (l : Store.loc) :
  Store.reads (number := number) (Store.contents l).
Proof. intros h. unfold Store.contents. by destruct (h !! l). Qed.

Lemma reads_array_get (l : Store.loc) (i : nat) :
  Store.reads (number := number) (Store.array_get l i).
Proof.
  apply reads_bind; [apply reads_contents|]. intros a. apply reads_ret.
Qed.

Lemma reads_array_length (l : Store.loc) :
  Store.reads (number := number) (Store.array_length l).
Proof.
  apply reads_bind; [apply reads_contents|]. intros a. apply reads_ret.
Qed.

Lemma reads_index (v : option (Store.value number)) (i : nat) :
  Store.reads (Store.index v i).
Proof.
  destruct v as [[| |l]|]; cbn;
    auto using reads_ret, reads_throw, reads_array_get.
Qed.

Lemma reads_as_number (v : option (Store.value number)) :
  Store.reads (Store.as_number v).
Proof. destruct v as [[| |]|]; cbn; auto using reads_ret, reads_throw. Qed.

Lemma reads_as_size (v : option (Store.value number)) :
  Store.reads (Store.as_size v).
Proof. destruct v as [[| |]|]; cbn; auto using reads_ret, reads_throw. Qed.

Lemma reads_for_uptoS {S : Type} (body : nat -> S -> M S)
    (count start : nat) (s : S) :
  (forall v s', Store.reads (body v s')) ->
  Store.reads (Store.for_uptoS start count body s).
Proof.
  intros Hbody. revert start s.
  induction count as [|c IH]; intros start s; cbn; [apply reads_ret|].
  apply reads_bind; [apply Hbody|]. intros s'. apply IH.
Qed.

Ltac solve_reads :=
  repeat first
    [ apply reads_ret | apply reads_throw | apply reads_contents
    | apply reads_array_get | apply reads_array_length | apply reads_index
    | apply reads_as_number | apply reads_as_size
    | apply reads_bind | intros ? ].

Lemma reads_dot_step (lc : Store.loc) (layerW : option (Store.value number))
    (outIdx inIdx : nat) (sum : number) :
  Store.reads (Store.dot_step lc layerW outIdx inIdx sum).
Proof. unfold Store.dot_step. solve_reads. Qed.

(** *** Computations that write to new objects only *)

Lemma frames_reads (n : nat) (ex : list Store.loc) {X : Type}
    (m : M X) :
  Store.reads m -> Store.frames n ex m.
Proof. intros Hm h _. rewrite Hm. apply unchanged_refl. Qed.

Lemma frames_alloc (n : nat) (ex : list Store.loc)
    (a : list (Store.value number)) :
  Store.frames n ex (Store.alloc a).
Proof.
  intros h Hn. cbn. split; [rewrite length_app; lia|].
  intros l Hl _. apply lookup_app_l. lia.
Qed.

Lemma frames_push (n : nat) (ex : list Store.loc) (l : Store.loc)
    (v : Store.value number) :
  n <= l \/ l ∈ ex -> Store.frames n ex (Store.array_push l v).
Proof.
  intros Hl h _. unfold Store.array_push.
  destruct (h !! l) as [a|]; cbn; [|apply unchanged_refl].
  split; [by rewrite length_insert|].
  intros l' Hl' Hex. apply list_lookup_insert_ne.
  intros ->. destruct Hl; [lia|done].
Qed.

(** Sequencing, with what is known of the first result. *)
Lemma frames_bind (n : nat) (ex : list Store.loc) {X Y : Type}
    (Q : X -> Prop) (m : M X) (f : X -> M Y) :
  Store.frames n ex m ->
  (forall h x, n <= length h -> (m h).1 = Normal x -> Q x) ->
  (forall x, Q x -> Store.frames n ex (f x)) ->
  Store.frames n ex (Store.bind m f).
Proof.
  intros Hm HQ Hf h Hn. unfold Store.bind.
  specialize (Hm h Hn). specialize (HQ h).
  destruct (m h) as [[x|e] h1]; cbn in *; [|done].
  eapply unchanged_trans; [done|]. apply Hf; [by apply HQ|].
  destruct Hm. lia.
Qed.

Lemma frames_for_uptoS (n : nat) (ex : list Store.loc) {S : Type}
    (Q : S -> Prop) (body : nat -> S -> M S) (count start : nat)
    (s : S) :
  Q s ->
  (forall v s', Q s' -> Store.frames n ex (body v s')) ->
  (forall v s' h x, Q s' -> n <= length h ->
     (body v s' h).1 = Normal x -> Q x) ->
  Store.frames n ex (Store.for_uptoS start count body s).
Proof.
  intros Hs Hbody HQ. revert start s Hs.
  induction count as [|c IH]; intros start s Hs; cbn.
  - apply frames_reads, reads_ret.
  - apply (frames_bind n ex Q); [by apply Hbody| |by intros; apply IH].
    intros h x Hn Hx. by eapply HQ.
Qed.

Lemma alloc_result (a : list (Store.value number)) (h : store) (x : Store.loc) :
  (Store.alloc a h).1 = Normal x -> x = length h.
Proof. by intros [= <-]. Qed.

Lemma frames_node_step (n : nat) (lc ln : Store.loc)
    (layerW layerB : option (Store.value number)) (outIdx : nat) :
  n <= ln ->
  Store.frames n [] (Store.node_step lc ln layerW layerB outIdx tt).
Proof.
  intros Hln. unfold Store.node_step.
  apply (frames_bind n [] (fun _ => True)); [|done|intros sum0 _].
  { apply frames_reads. solve_reads. }
  apply (frames_bind n [] (fun _ => True)); [|done|intros m _].
  { apply frames_reads, reads_array_length. }
  apply (frames_bind n [] (fun _ => True)); [|done|intros sum _].
  { apply frames_reads, reads_for_uptoS. intros. apply reads_dot_step. }
  apply frames_push. by left.
Qed.

Lemma frames_layer_step (n : nat) (this : Store.engine) (la : Store.loc)
    (i : nat) (lc : Store.loc) :
  n <= la ->
  Store.frames n [] (Store.layer_step this la i lc).
Proof.
  intros Hla. unfold Store.layer_step.
  apply (frames_bind n [] (fun ln => n <= ln)); [apply frames_alloc| |].
  { intros h x Hn Hx. apply alloc_result in Hx. lia. }
  intros ln Hln.
  apply (frames_bind n [] (fun _ => True)); [|done|intros layerW _].
  { apply frames_reads, reads_array_get. }
  apply (frames_bind n [] (fun _ => True)); [|done|intros layerB _].
  { apply frames_reads, reads_array_get. }
  apply (frames_bind n [] (fun _ => True)); [|done|intros outputCount _].
  { apply frames_reads. solve_reads. }
  apply (frames_bind n [] (fun _ => True)); [|done|intros _ _].
  { apply (frames_for_uptoS n [] (fun _ => True)); [done| |done].
    intros v [] _. by apply frames_node_step. }
  apply (frames_bind n [] (fun _ => True)); [|done|intros _ _].
  { apply frames_push. by left. }
  apply frames_reads, reads_ret.
Qed.

(** [forwardPropagate] writes to objects it allocates itself, and to
    no other. *)
Lemma frames_forwardPropagate (n : nat) (this : Store.engine)
    (inputs : Store.loc) :
  Store.frames n [] (Store.forwardPropagate this inputs).
Proof.
  unfold Store.forwardPropagate.
  apply (frames_bind n [] (fun la => n <= la)); [apply frames_alloc| |].
  { intros h x Hn Hx. apply alloc_result in Hx. lia. }
  intros la Hla.
  apply (frames_bind n [] (fun _ => True)); [|done|intros copy _].
  { apply (frames_bind n [] (fun _ => True)); [|done|intros a _].
    - apply frames_reads, reads_contents.
    - apply frames_alloc. }
  apply (frames_bind n [] (fun _ => True)); [|done|intros _ _].
  { apply frames_push. by left. }
  apply (frames_bind n [] (fun _ => True)); [|done|intros m _].
  { apply frames_reads, reads_array_length. }
  apply (frames_bind n [] (fun _ => True)); [|done|intros _ _].
  { apply (frames_for_uptoS n [] (fun _ => True)); [done| |done].
    intros v lc _. by apply frames_layer_step. }
  apply frames_reads, reads_ret.
Qed.

(** *** Reads, when the object is there *)

Lemma contents_eq (l : Store.loc) (a : list (Store.value number))
    (h : store) :
  h !! l = Some a -> Store.contents l h = (Normal a, h).
Proof. intros Hl. unfold Store.contents. by rewrite Hl. Qed.

Lemma array_get_eq (l : Store.loc) (a : list (Store.value number))
    (i : nat) (h : store) :
  h !! l = Some a -> Store.array_get l i h = (Normal (a !! i), h).
Proof.
  intros Hl. unfold Store.array_get, Store.bind. by rewrite (contents_eq l a).
Qed.

Lemma array_length_eq (l : Store.loc) (a : list (Store.value number))
    (h : store) :
  h !! l = Some a -> Store.array_length l h = (Normal (length a), h).
Proof.
  intros Hl. unfold Store.array_length, Store.bind.
  by rewrite (contents_eq l a).
Qed.

Lemma array_push_eq (l : Store.loc) (a : list (Store.value number))
    (v : Store.value number) (h : store) :
  h !! l = Some a ->
  Store.array_push l v h = (Normal tt, <[l := a ++ [v]]> h).
Proof. intros Hl. unfold Store.array_push. by rewrite Hl. Qed.

Lemma mapM_number_of (a : list (Store.value number)) (xs : list number) :
  mapM Store.number_of a = Some xs <-> a = map Store.VNum xs.
Proof.
  rewrite mapM_Some. split.
  - induction 1 as [|v x a xs Hv _ IH]; [done|].
    destruct v; cbn in Hv; try done. injection Hv as ->. by rewrite IH.
  - intros ->. induction xs; constructor; done.
Qed.

Lemma mapM_ref_of (a : list (Store.value number)) (ls : list Store.loc) :
  mapM Store.ref_of a = Some ls <-> a = map Store.VRef ls.
Proof.
  rewrite mapM_Some. split.
  - induction 1 as [|v x a xs Hv _ IH]; [done|].
    destruct v; cbn in Hv; try done. injection Hv as ->. by rewrite IH.
  - intros ->. induction ls; constructor; done.
Qed.

Lemma mapM_size_of (a : list (Store.value number)) (zs : list Z) :
  mapM Store.size_of a = Some zs <-> a = map Store.VInt zs.
Proof.
  rewrite mapM_Some. split.
  - induction 1 as [|v x a xs Hv _ IH]; [done|].
    destruct v; cbn in Hv; try done. injection Hv as ->. by rewrite IH.
  - intros ->. induction zs; constructor; done.
Qed.

Lemma decode_vec_rep (h : store) (l : Store.loc) (xs : list number) :
  Store.decode_vec h l = Some xs <-> Store.rep_vec h l xs.
Proof.
  unfold Store.decode_vec, Store.rep_vec.
  destruct (h !! l) as [a|]; cbn; [|done].
  rewrite mapM_number_of. split; [by intros ->|by intros [= ->]].
Qed.

Lemma decode_mat_rep (h : store) (l : Store.loc) (xss : list (list number)) :
  Store.decode_mat h l = Some xss <-> Store.rep_mat h l xss.
Proof.
  unfold Store.decode_mat, Store.rep_mat.
  destruct (h !! l) as [a|]; cbn; [|by split; [|intros (? & ? & _)]].
  split.
  - destruct (mapM Store.ref_of a) as [rows|] eqn:Hrows; cbn; [|done].
    apply mapM_ref_of in Hrows as ->.
    rewrite mapM_Some. intros Hall. exists rows. split; [done|].
    eapply Forall2_impl; [done|]. intros r xs. apply decode_vec_rep.
  - intros (rows & [= ->] & Hall).
    rewrite (proj2 (mapM_ref_of _ rows)) by done. cbn.
    apply mapM_Some. eapply Forall2_impl; [done|].
    intros r xs. apply decode_vec_rep.
Qed.

Lemma decode_ten_rep (h : store) (l : Store.loc)
    (xsss : list (list (list number))) :
  Store.decode_ten h l = Some xsss <-> Store.rep_ten h l xsss.
Proof.
  unfold Store.decode_ten, Store.rep_ten.
  destruct (h !! l) as [a|]; cbn; [|by split; [|intros (? & ? & _)]].
  split.
  - destruct (mapM Store.ref_of a) as [mats|] eqn:Hmats; cbn; [|done].
    apply mapM_ref_of in Hmats as ->.
    rewrite mapM_Some. intros Hall. exists mats. split; [done|].
    eapply Forall2_impl; [done|]. intros r xs. apply decode_mat_rep.
  - intros (mats & [= ->] & Hall).
    rewrite (proj2 (mapM_ref_of _ mats)) by done. cbn.
    apply mapM_Some. eapply Forall2_impl; [done|].
    intros r xs. apply decode_mat_rep.
Qed.

Lemma decode_sizes_rep (h : store) (l : Store.loc) (zs : list Z) :
  Store.decode_sizes h l = Some zs <-> h !! l = Some (map Store.VInt zs).
Proof.
  unfold Store.decode_sizes.
  destruct (h !! l) as [a|]; cbn; [|done].
  rewrite mapM_size_of. split; [by intros ->|by intros [= ->]].
Qed.

Lemma decode_engine_rep (h : store) (e : Store.engine)
    (net : SimpleNeuralNet number) :
  Store.decode_engine h e = Some net
  <-> Store.rep_ten h (Store.weights e) (weights net)
      /\ Store.rep_mat h (Store.biases e) (biases net)
      /\ h !! Store.layerSizes e = Some (map Store.VInt (layerSizes net)).
Proof.
  unfold Store.decode_engine.
  rewrite <- decode_ten_rep, <- decode_mat_rep, <- decode_sizes_rep.
  destruct net as [w b s]; cbn.
  destruct (Store.decode_ten h _) as [w'|]; cbn;
    [|by split; [|intros ([=] & _)]].
  destruct (Store.decode_mat h _) as [b'|]; cbn;
    [|by split; [|intros (_ & [=] & _)]].
  destruct (Store.decode_sizes h _) as [s'|]; cbn;
    [|by split; [|intros (_ & _ & [=])]].
  split; [by intros [= -> -> ->]|by intros ([= ->] & [= ->] & [= ->])].
Qed.

(** *** Readings survive in an extension of the store *)

Lemma rep_vec_unchanged (h h' : store) (l : Store.loc) (xs : list number) :
  Store.unchanged (length h) [] h h' ->
  Store.rep_vec h l xs -> Store.rep_vec h' l xs.
Proof.
  intros [_ Hun] Hl. unfold Store.rep_vec in *.
  rewrite Hun; [done| |apply not_elem_of_nil].
  by apply lookup_lt_Some in Hl.
Qed.

Lemma rep_mat_unchanged (h h' : store) (l : Store.loc)
    (xss : list (list number)) :
  Store.unchanged (length h) [] h h' ->
  Store.rep_mat h l xss -> Store.rep_mat h' l xss.
Proof.
  intros Hun (rows & Hl & Hrows). exists rows. split.
  - destruct Hun as [_ Hun]. rewrite Hun; [done| |apply not_elem_of_nil].
    by apply lookup_lt_Some in Hl.
  - eapply Forall2_impl; [done|]. intros r xs. by apply rep_vec_unchanged.
Qed.

Lemma rep_ten_unchanged (h h' : store) (l : Store.loc)
    (xsss : list (list (list number))) :
  Store.unchanged (length h) [] h h' ->
  Store.rep_ten h l xsss -> Store.rep_ten h' l xsss.
Proof.
  intros Hun (mats & Hl & Hmats). exists mats. split.
  - destruct Hun as [_ Hun]. rewrite Hun; [done| |apply not_elem_of_nil].
    by apply lookup_lt_Some in Hl.
  - eapply Forall2_impl; [done|]. intros r xs. by apply rep_mat_unchanged.
Qed.

Lemma decode_engine_unchanged (h h' : store) (e : Store.engine)
    (net : SimpleNeuralNet number) :
  Store.unchanged (length h) [] h h' ->
  Store.decode_engine h e = Some net -> Store.decode_engine h' e = Some net.
Proof.
  intros Hun. rewrite !decode_engine_rep. intros (Hw & Hb & Hs).
  split; [by eapply rep_ten_unchanged|].
  split; [by eapply rep_mat_unchanged|].
  destruct Hun as [_ Hun]. rewrite Hun; [done| |apply not_elem_of_nil].
  by apply lookup_lt_Some in Hs.
Qed.

Lemma rel_vec_unchanged (h h' : store) (v : option (Store.value number))
    (x : option (list number)) :
  Store.unchanged (length h) [] h h' ->
  Store.rel_vec h v x -> Store.rel_vec h' v x.
Proof.
  intros Hun. destruct v as [[| |l]|], x as [xs|]; cbn; try done.
  by apply rep_vec_unchanged.
Qed.

Lemma rel_mat_unchanged (h h' : store) (v : option (Store.value number))
    (x : option (list (list number))) :
  Store.unchanged (length h) [] h h' ->
  Store.rel_mat h v x -> Store.rel_mat h' v x.
Proof.
  intros Hun. destruct v as [[| |l]|], x as [xs|]; cbn; try done.
  by apply rep_mat_unchanged.
Qed.

Lemma rel_lookup {X : Type} (R : Store.loc -> X -> Prop)
    (ls : list Store.loc) (xs : list X) (i : nat) :
  Forall2 R ls xs ->
  match (map Store.VRef ls : list (Store.value number)) !! i, xs !! i with
  | None, None => True
  | Some (Store.VRef l), Some x => R l x
  | _, _ => False
  end.
Proof.
  intros Hall. rewrite list_lookup_fmap.
  destruct (ls !! i) as [l|] eqn:Hl; cbn.
  - destruct (Forall2_lookup_l _ _ _ _ _ Hall Hl) as (x & -> & HR). done.
  - apply lookup_ge_None in Hl. rewrite (Forall2_length _ _ _ Hall) in Hl.
    apply lookup_ge_None in Hl. by rewrite Hl.
Qed.

Lemma rep_mat_lookup (h : store) (l : Store.loc) (xss : list (list number))
    (i : nat) :
  Store.rep_mat h l xss ->
  exists a, h !! l = Some a /\ Store.rel_vec h (a !! i) (xss !! i).
Proof.
  intros (rows & Hl & Hrows). exists (map Store.VRef rows).
  split; [done|]. apply (rel_lookup _ _ _ i Hrows).
Qed.

Lemma rep_ten_lookup (h : store) (l : Store.loc)
    (xsss : list (list (list number))) (i : nat) :
  Store.rep_ten h l xsss ->
  exists a, h !! l = Some a /\ length a = length xsss
            /\ Store.rel_mat h (a !! i) (xsss !! i).
Proof.
  intros (mats & Hl & Hmats). exists (map Store.VRef mats).
  split; [done|]. split.
  - rewrite length_map. by eapply Forall2_length.
  - apply (rel_lookup _ _ _ i Hmats).
Qed.

(** *** The [inIdx] loop *)

Lemma dot_step_sim (h : store) (lc : Store.loc) (current : list number)
    (layerWs : option (Store.value number))
    (layerWv : option (list (list number))) (outIdx inIdx : nat)
    (sum : number) :
  Store.rep_vec h lc current -> Store.rel_mat h layerWs layerWv ->
  Store.dot_step lc layerWs outIdx inIdx sum h
  = (dot_step current layerWv outIdx inIdx sum, h).
Proof.
  intros Hc HW. unfold Store.dot_step, dot_step, Store.bind.
  rewrite (array_get_eq lc _ inIdx h Hc), list_lookup_fmap. cbn.
  destruct (current !! inIdx) as [x|]; cbn; [|done].
  destruct layerWs as [[| |lw]|], layerWv as [m|]; cbn in *; try done.
  destruct HW as (rows & Hlw & Hrows).
  rewrite (array_get_eq lw _ inIdx h Hlw).
  pose proof (rel_lookup _ _ _ inIdx Hrows) as Hrow.
  destruct (map Store.VRef rows !! inIdx) as [[| |r]|],
    (m !! inIdx) as [row|]; cbn in *; try done.
  rewrite (array_get_eq r _ outIdx h Hrow), list_lookup_fmap.
  by destruct (row !! outIdx).
Qed.

Lemma dot_loop_sim (h : store) (lc : Store.loc) (current : list number)
    (layerWs : option (Store.value number))
    (layerWv : option (list (list number))) (outIdx count start : nat)
    (sum : number) :
  Store.rep_vec h lc current -> Store.rel_mat h layerWs layerWv ->
  Store.for_uptoS start count (Store.dot_step lc layerWs outIdx) sum h
  = (for_uptoM start count (dot_step current layerWv outIdx) sum, h).
Proof.
  intros Hc HW. revert start sum.
  induction count as [|c IH]; intros start sum;
    cbn [Store.for_uptoS for_uptoM]; [done|].
  unfold Store.bind. rewrite (dot_step_sim h lc current _ layerWv) by done.
  destruct (dot_step current layerWv outIdx start sum); [apply IH|done].
Qed.

(** *** The [outIdx] loop *)

Lemma node_step_sim (hb h : store) (lc ln : Store.loc)
    (current next : list number) (layerWs layerBs : option (Store.value number))
    (layerWv : option (list (list number))) (layerBv : option (list number))
    (outIdx : nat) :
  Store.rep_vec hb lc current -> Store.rel_mat hb layerWs layerWv ->
  Store.rel_vec hb layerBs layerBv ->
  Store.unchanged (length hb) [] hb h ->
  h !! ln = Some (map Store.VNum next) ->
  Store.node_step lc ln layerWs layerBs outIdx tt h
  = match node_step current layerWv layerBv outIdx next with
    | Normal next' => (Normal tt, <[ln := map Store.VNum next']> h)
    | Throw e => (Throw e, h)
    end.
Proof.
  intros Hc HW HB Hun Hn.
  apply (rep_vec_unchanged _ _ _ _ Hun) in Hc.
  apply (rel_mat_unchanged _ _ _ _ Hun) in HW.
  apply (rel_vec_unchanged _ _ _ _ Hun) in HB.
  unfold Store.node_step, node_step, Store.bind.
  destruct layerBs as [[| |lb]|], layerBv as [b|]; cbn in *; try done.
  rewrite (array_get_eq lb _ outIdx h HB), list_lookup_fmap. cbn.
  destruct (b !! outIdx) as [sum0|]; cbn; [|done].
  rewrite (array_length_eq lc _ h Hc), length_map.
  rewrite (dot_loop_sim h lc current _ layerWv) by done.
  destruct (for_uptoM _ _ _ _) as [sum|e]; cbn; [|done].
  rewrite (array_push_eq ln _ _ h Hn). unfold push.
  by rewrite map_app.
Qed.

Lemma node_loop_sim (hb : store) (lc ln : Store.loc)
    (current : list number) (layerWs layerBs : option (Store.value number))
    (layerWv : option (list (list number))) (layerBv : option (list number))
    (count start : nat) (next : list number) (h : store) :
  Store.rep_vec hb lc current -> Store.rel_mat hb layerWs layerWv ->
  Store.rel_vec hb layerBs layerBv ->
  length hb <= ln ->
  Store.unchanged (length hb) [] hb h ->
  h !! ln = Some (map Store.VNum next) ->
  match for_uptoM start count (node_step current layerWv layerBv) next with
  | Normal next' =>
      Store.for_uptoS start count (Store.node_step lc ln layerWs layerBs)
        tt h
      = (Normal tt, <[ln := map Store.VNum next']> h)
  | Throw e =>
      exists h',
        Store.for_uptoS start count (Store.node_step lc ln layerWs layerBs)
          tt h
        = (Throw e, h')
  end.
Proof.
  intros Hc HW HB Hln. revert start next h.
  induction count as [|c IH]; intros start next h Hun Hn;
    cbn [Store.for_uptoS for_uptoM].
  - unfold Store.ret. by rewrite list_insert_id.
  - unfold Store.bind.
    rewrite (node_step_sim hb h lc ln current next _ _ layerWv layerBv)
      by done.
    destruct (node_step current layerWv layerBv start next) as [next1|e];
      [|by eexists].
    specialize (IH (Datatypes.S start) next1
                  (<[ln := map Store.VNum next1]> h)).
    destruct (for_uptoM _ c _ next1) as [next'|e].
    + rewrite IH.
      * by rewrite list_insert_insert_eq.
      * eapply unchanged_trans; [done|].
        split; [by rewrite length_insert|].
        intros l Hl _. apply list_lookup_insert_ne. lia.
      * apply list_lookup_insert_eq. by apply lookup_lt_Some in Hn.
    + apply IH.
      * eapply unchanged_trans; [done|].
        split; [by rewrite length_insert|].
        intros l Hl _. apply list_lookup_insert_ne. lia.
      * apply list_lookup_insert_eq. by apply lookup_lt_Some in Hn.
Qed.

(** Two loops that proceed in step. *)
Lemma for_upto_sim {Ss Sv : Type} (R : Ss -> Sv -> store -> Prop)
    (bs : nat -> Ss -> M Ss) (bv : nat -> Sv -> completion Sv)
    (count start : nat) (ss : Ss) (sv : Sv) (h : store) :
  R ss sv h ->
  (forall v ss sv h, R ss sv h ->
     match bv v sv with
     | Normal sv' => exists ss' h', bs v ss h = (Normal ss', h') /\ R ss' sv' h'
     | Throw e => exists h', bs v ss h = (Throw e, h')
     end) ->
  match for_uptoM start count bv sv with
  | Normal sv' =>
      exists ss' h',
        Store.for_uptoS start count bs ss h = (Normal ss', h') /\ R ss' sv' h'
  | Throw e => exists h', Store.for_uptoS start count bs ss h = (Throw e, h')
  end.
Proof.
  intros HR Hstep. revert start ss sv h HR.
  induction count as [|c IH]; intros start ss sv h HR;
    cbn [Store.for_uptoS for_uptoM].
  - by exists ss, h.
  - specialize (Hstep start ss sv h HR). unfold Store.bind.
    destruct (bv start sv) as [sv1|e].
    + destruct Hstep as (ss1 & h1 & -> & HR1). by apply IH.
    + destruct Hstep as (h1 & ->). by eexists.
Qed.

Lemma layer_step_sim (h0 : store) (e : Store.engine)
    (net : SimpleNeuralNet number) (la : Store.loc) (i : nat)
    (lc : Store.loc) (st : list (list number) * list number) (h : store) :
  Store.decode_engine h0 e = Some net ->
  Store.layers_inv h0 la lc st h ->
  match layer_step net i st with
  | Normal st' =>
      exists lc' h',
        Store.layer_step e la i lc h = (Normal lc', h')
        /\ Store.layers_inv h0 la lc' st' h'
  | Throw err => exists h', Store.layer_step e la i lc h = (Throw err, h')
  end.
Proof.
  intros He (Hun & Hla & (rows & Hrows & Hall) & Hc & Hne).
  pose proof (frames_layer_step (length h0) e la i lc Hla h) as Hframe.
  assert (length h0 <= length h) as Hlen by (destruct Hun; lia).
  specialize (Hframe Hlen).
  apply (decode_engine_unchanged _ _ _ _ Hun) in He.
  apply decode_engine_rep in He as (HW & HB & HS).
  set (h1 := h ++ [[]]).
  assert (Store.unchanged (length h) [] h h1) as Hun1.
  { split; [unfold h1; rewrite length_app; lia|].
    intros l Hl _. unfold h1. by apply lookup_app_l. }
  destruct (rep_ten_lookup h _ _ i HW) as (aW & HaW & _ & HrelW).
  destruct (rep_mat_lookup h _ _ i HB) as (aB & HaB & HrelB).
  assert (forall l a, h !! l = Some a -> h1 !! l = Some a) as Hup.
  { intros l a Hl. unfold h1. rewrite lookup_app_l; [done|].
    by apply lookup_lt_Some in Hl. }
  revert Hframe.
  unfold Store.layer_step, layer_step, Store.bind. cbn [Store.alloc].
  fold h1.
  rewrite (array_get_eq _ _ i h1 (Hup _ _ HaW)).
  rewrite (array_get_eq _ _ i h1 (Hup _ _ HaB)).
  rewrite (array_get_eq _ _ (i + 1) h1 (Hup _ _ HS)), list_lookup_fmap.
  assert (Store.as_size (Store.VInt <$> layerSizes net !! (i + 1)) h1
          = (Normal (size_at (layerSizes net) (i + 1)), h1)) as ->.
  { unfold size_at. by destruct (layerSizes net !! (i + 1)). }
  pose proof (node_loop_sim h lc (length h) st.2 _ _ _ _
                (Z.to_nat (size_at (layerSizes net) (i + 1))) 0 [] h1
                Hc HrelW HrelB (le_n _) Hun1) as Hloop.
  destruct (for_uptoM 0 _ (node_step st.2 (weights net !! i)
                             (biases net !! i)) []) as [next|err].
  - rewrite Hloop by (unfold h1; by rewrite list_lookup_middle).
    assert (la < length h) as Hlalt by (by apply lookup_lt_Some in Hrows).
    rewrite (array_push_eq la (map Store.VRef rows)).
    2:{ rewrite list_lookup_insert_ne by lia. by apply Hup. }
    cbn. intros Hframe. eexists _, _. split; [done|].
    unfold Store.layers_inv.
    split; [by eapply unchanged_trans|]. split; [done|]. split; [|split].
    + exists (rows ++ [length h]). split.
      * rewrite list_lookup_insert_eq; [by rewrite map_app|].
        rewrite length_insert. unfold h1. rewrite length_app. lia.
      * unfold push. apply Forall2_app.
        -- eapply Forall2_impl; [done|]. intros r xs [Hr Hxs].
           split; [done|]. unfold Store.rep_vec in *.
           assert (r < length h) by (by apply lookup_lt_Some in Hxs).
           rewrite !list_lookup_insert_ne by lia. by apply Hup.
        -- constructor; [|constructor].
           split; [done|]. unfold Store.rep_vec.
           rewrite list_lookup_insert_ne by lia.
           apply list_lookup_insert_eq. unfold h1.
           rewrite length_app. cbn. lia.
    + cbn. unfold Store.rep_vec.
      rewrite list_lookup_insert_ne by lia.
      apply list_lookup_insert_eq. unfold h1. rewrite length_app. cbn. lia.
    + lia.
  - destruct Hloop as (h' & ->); [unfold h1; by rewrite list_lookup_middle|].
    by eexists.
Qed.

(** The store-level [forwardPropagate] computes what the value-level
    one does, in a new object made of new objects. *)
Lemma forwardPropagate_sim (h0 : store) (e : Store.engine)
    (net : SimpleNeuralNet number) (lin : Store.loc)
    (inputs : list number) :
  Store.decode_engine h0 e = Some net ->
  Store.decode_vec h0 lin = Some inputs ->
  match forwardPropagate net inputs with
  | Normal snapshot =>
      exists h',
        Store.forwardPropagate e lin h0 = (Normal (length h0), h')
        /\ Store.decode_mat h' (length h0) = Some snapshot
        /\ Forall (fun r => length h0 <= r)
             (Store.snapshot_locs h' (length h0))
  | Throw err => exists h', Store.forwardPropagate e lin h0 = (Throw err, h')
  end.
Proof.
  intros He Hin. apply decode_vec_rep in Hin.
  pose proof He as He0.
  apply decode_engine_rep in He as (HW & HB & HS).
  destruct (rep_ten_lookup h0 _ _ 0 HW) as (aW & HaW & HlenW & _).
  set (la := length h0).
  set (h3 := h0 ++ [[Store.VRef (Datatypes.S la)]; map Store.VNum inputs]).
  assert (forall l a, h0 !! l = Some a -> h3 !! l = Some a) as Hup.
  { intros l a Hl. unfold h3. rewrite lookup_app_l; [done|].
    by apply lookup_lt_Some in Hl. }
  assert (Store.layers_inv h0 la lin (push [] inputs, inputs) h3) as Hinv.
  { split; [|split; [done|split; [|split]]].
    - split; [unfold h3; rewrite length_app; lia|].
      intros l Hl _. unfold h3. by apply lookup_app_l.
    - exists [Datatypes.S la]. split.
      + unfold h3, la. by rewrite list_lookup_middle.
      + constructor; [|constructor]. cbn.
        split; [lia|]. unfold Store.rep_vec, h3, la.
        rewrite (lookup_app_r h0) by lia.
        by rewrite Nat.sub_succ_l, Nat.sub_diag by lia.
    - by apply Hup.
    - apply lookup_lt_Some in Hin. unfold la. lia. }
  pose proof (for_upto_sim (fun lc st h => Store.layers_inv h0 la lc st h)
                (Store.layer_step e la) (layer_step net)
                (length (weights net)) 0 lin (push [] inputs, inputs) h3
                Hinv) as Hloop.
  unfold Store.forwardPropagate, forwardPropagate, Store.bind.
  cbn [Store.alloc]. fold la.
  rewrite (contents_eq lin (map Store.VNum inputs)).
  2:{ rewrite lookup_app_l; [done|]. by apply lookup_lt_Some in Hin. }
  cbn [Store.alloc]. rewrite length_app. cbn [length].
  rewrite (array_push_eq la []).
  2:{ rewrite <- app_assoc. cbn [app]. unfold la.
      by rewrite list_lookup_middle. }
  replace (<[la:=[] ++ [Store.VRef (la + 1)]]>
             ((h0 ++ [[]]) ++ [map Store.VNum inputs])) with h3.
  2:{ unfold h3, la. rewrite <- app_assoc. cbn [app].
      rewrite insert_app_r_alt by lia. rewrite Nat.sub_diag.
      by rewrite Nat.add_1_r. }
  rewrite (array_length_eq _ _ h3 (Hup _ _ HaW)), HlenW.
  destruct (for_uptoM 0 (length (weights net)) (layer_step net)
              (push [] inputs, inputs)) as [[acts current]|err].
  - destruct Hloop as (lc' & h' & -> & Hinv').
    { intros v ss sv h. by apply layer_step_sim. }
    cbn. exists h'. split; [done|].
    destruct Hinv' as (_ & _ & (rows & Hrows & Hall) & _ & _). cbn in Hall.
    split.
    + apply decode_mat_rep. exists rows. split; [done|].
      eapply Forall2_impl; [done|]. by intros r xs [_ ?].
    + unfold Store.snapshot_locs. fold la. rewrite Hrows. cbn.
      rewrite (proj2 (mapM_ref_of _ rows)) by done. cbn.
      constructor; [done|].
      eapply Forall2_Forall_l; [exact Hall|].
      apply Forall_forall. intros xs _ r [Hr _]. lia.
  - destruct Hloop as (h' & ->); [|by eexists].
    intros v ss sv h. by apply layer_step_sim.
Qed.

(** A loop that pushes one value per iteration to the same array. *)
Lemma push_loop_eq (l : Store.loc) (g : nat -> Store.value number)
    (count start : nat) (a : list (Store.value number)) (h : store) :
  h !! l = Some a ->
  Store.for_uptoS start count (fun v _ => Store.array_push l (g v)) tt h
  = (Normal tt, <[l := a ++ map g (seq start count)]> h).
Proof.
  revert start a h.
  induction count as [|c IH]; intros start a h Hl;
    cbn [Store.for_uptoS seq map].
  - unfold Store.ret. by rewrite app_nil_r, list_insert_id.
  - unfold Store.bind. rewrite (array_push_eq l a _ h Hl).
    rewrite (IH _ (a ++ [g start])).
    + by rewrite list_insert_insert_eq, <- app_assoc.
    + apply list_lookup_insert_eq. by apply lookup_lt_Some in Hl.
Qed.

(** The [j] loop of [initializeWeights]: one new array per row, filled
    and then pushed to [layerWeights]. *)
Lemma row_loop_eq (i : nat) (inputSize : Z) (outputCount : nat)
    (lw : Store.loc) (count start : nat) (a : list (Store.value number))
    (h : store) :
  h !! lw = Some a ->
  Store.for_uptoS start count
    (fun j _ =>
       Store.bind (Store.alloc [])
         (fun nodeWeights =>
            Store.bind
              (Store.for_uptoS 0 outputCount
                 (fun k _ =>
                    Store.array_push nodeWeights
                      (Store.VNum (init_weight i inputSize j k))) tt)
              (fun _ => Store.array_push lw (Store.VRef nodeWeights))))
    tt h
  = (Normal tt,
     <[lw := a ++ map Store.VRef (seq (length h) count)]>
       (h ++ map (fun j =>
                    map (fun k => Store.VNum (init_weight i inputSize j k))
                        (seq 0 outputCount))
               (seq start count))).
Proof.
  revert start a h.
  induction count as [|c IH]; intros start a h Hl;
    cbn [Store.for_uptoS seq map].
  - unfold Store.ret. by rewrite !app_nil_r, list_insert_id.
  - assert (lw < length h) as Hlt by (by apply lookup_lt_Some in Hl).
    unfold Store.bind at 1 2 3. cbn [Store.alloc].
    rewrite (push_loop_eq (length h) _ outputCount 0 [] (h ++ [[]]))
      by (by rewrite list_lookup_middle).
    cbn [app].
    rewrite (array_push_eq lw a).
    2:{ rewrite list_lookup_insert_ne by lia. by rewrite lookup_app_l. }
    set (row := map (fun k => Store.VNum (init_weight i inputSize start k))
                    (seq 0 outputCount)).
    rewrite (IH _ (a ++ [Store.VRef (length h)])).
    2:{ apply list_lookup_insert_eq. rewrite length_insert, length_app. lia. }
    f_equal. rewrite !length_insert, length_app. cbn [length].
    rewrite (insert_app_r_alt h [[]] (length h)) by lia.
    rewrite Nat.sub_diag. cbn [insert list_insert].
    rewrite <- insert_app_l by (rewrite length_app; cbn; lia).
    rewrite list_insert_insert_eq, <- !app_assoc. cbn [app].
    by rewrite Nat.add_1_r.
Qed.

Lemma vec_above_keep (lo : Store.loc) (h h' : store) (r : Store.loc)
    (xs : list number) :
  (forall l, lo < l -> l < length h -> h' !! l = h !! l) ->
  Store.vec_above lo h r xs -> Store.vec_above lo h' r xs.
Proof.
  intros Hkeep [Hlo Hr]. split; [done|]. unfold Store.rep_vec in *.
  rewrite Hkeep; [done|done|]. by apply lookup_lt_Some in Hr.
Qed.

Lemma mat_above_keep (lo : Store.loc) (h h' : store) (m : Store.loc)
    (xss : list (list number)) :
  (forall l, lo < l -> l < length h -> h' !! l = h !! l) ->
  Store.mat_above lo h m xss -> Store.mat_above lo h' m xss.
Proof.
  intros Hkeep (Hlo & rows & Hm & Hrows). split; [done|].
  exists rows. split.
  - rewrite Hkeep; [done|done|]. by apply lookup_lt_Some in Hm.
  - eapply Forall2_impl; [done|]. intros r xs. by apply vec_above_keep.
Qed.

Lemma vec_above_rep (lo : Store.loc) (h : store) (r : Store.loc)
    (xs : list number) :
  Store.vec_above lo h r xs -> Store.rep_vec h r xs.
Proof. by intros [_ ?]. Qed.

Lemma mat_above_rep (lo : Store.loc) (h : store) (m : Store.loc)
    (xss : list (list number)) :
  Store.mat_above lo h m xss -> Store.rep_mat h m xss.
Proof.
  intros (_ & rows & Hm & Hrows). exists rows. split; [done|].
  eapply Forall2_impl; [done|]. intros r xs. apply vec_above_rep.
Qed.

Lemma size_read (ls : Store.loc) (sizes : list Z) (i : nat) (h : store) :
  h !! ls = Some (map Store.VInt sizes) ->
  Store.bind (Store.array_get ls i) (fun v => Store.as_size v) h
  = (Normal (size_at sizes i), h).
Proof.
  intros Hls. unfold Store.bind.
  rewrite (array_get_eq ls _ i h Hls), list_lookup_fmap.
  unfold size_at. by destruct (sizes !! i).
Qed.

(** One iteration of the [i] loop, on the store. *)
Lemma init_layer_store_eq (ls lW lB : Store.loc) (sizes : list Z) (i : nat)
    (aW aB : list (Store.value number)) (h : store) :
  h !! ls = Some (map Store.VInt sizes) ->
  h !! lW = Some aW -> h !! lB = Some aB -> lW <> lB ->
  Store.init_layer (Store.mkEngine lW lB ls) i tt h
  = (Normal tt,
     <[lB := aB ++ [Store.VRef (Datatypes.S (length h))]]>
       (<[lW := aW ++ [Store.VRef (length h)]]>
          (h ++ [map Store.VRef
                   (seq (Datatypes.S (Datatypes.S (length h)))
                      (Z.to_nat (size_at sizes i)));
                 map Store.VNum (layer_biases (size_at sizes (i + 1)))]
             ++ map (map Store.VNum)
                  (layer_weights i (size_at sizes i)
                     (size_at sizes (i + 1)))))).
Proof.
  intros Hls HlW HlB Hne.
  assert (lW < length h) by (by apply lookup_lt_Some in HlW).
  assert (lB < length h) by (by apply lookup_lt_Some in HlB).
  unfold Store.init_layer. cbn [Store.layerSizes Store.weights Store.biases].
  unfold Store.bind at 1. rewrite (size_read ls sizes i h Hls).
  unfold Store.bind at 1. rewrite (size_read ls sizes (i + 1) h Hls).
  unfold Store.bind at 1. cbn [Store.alloc].
  unfold Store.bind at 1. cbn [Store.alloc].
  rewrite length_app. cbn [length].
  unfold Store.bind at 1.
  rewrite (push_loop_eq _ _ _ 0 []).
  2:{ rewrite <- app_assoc. cbn [app].
      rewrite lookup_app_r by lia.
      by replace (length h + 1 - length h) with 1 by lia. }
  unfold Store.bind at 1.
  rewrite (row_loop_eq i _ _ (length h) _ 0 []).
  2:{ rewrite list_lookup_insert_ne by lia. rewrite <- app_assoc.
      cbn [app]. by rewrite list_lookup_middle. }
  unfold Store.bind at 1.
  set (n := length h).
  set (rows := map _ (seq 0 (Z.to_nat (size_at sizes i)))).
  set (bs := [] ++ map _ (seq 0 (Z.to_nat (size_at sizes (i + 1))))).
  assert (<[n + 1 := bs]> ((h ++ [[]]) ++ [[]]) = h ++ [[]; bs]) as ->.
  { rewrite <- app_assoc. cbn [app]. rewrite insert_app_r_alt by lia.
    by replace (n + 1 - length h) with 1 by (unfold n; lia). }
  assert (length (h ++ [[]; bs]) = Datatypes.S (Datatypes.S n)) as ->.
  { rewrite length_app. cbn. unfold n. lia. }
  assert (<[n := [] ++ map Store.VRef
                   (seq (Datatypes.S (Datatypes.S n))
                      (Z.to_nat (size_at sizes i)))]>
            ((h ++ [[]; bs]) ++ rows)
          = h ++ [map Store.VRef
                    (seq (Datatypes.S (Datatypes.S n))
                       (Z.to_nat (size_at sizes i))); bs] ++ rows) as ->.
  { rewrite <- app_assoc. rewrite insert_app_r_alt by (unfold n; lia).
    by replace (n - length h) with 0 by (unfold n; lia). }
  rewrite (array_push_eq lW aW) by (by rewrite lookup_app_l).
  rewrite (array_push_eq lB aB).
  2:{ rewrite list_lookup_insert_ne by done. by rewrite lookup_app_l. }
  assert (bs = map Store.VNum (layer_biases (size_at sizes (i + 1)))) as ->.
  { unfold bs, layer_biases. cbn [app].
    rewrite <- (map_const_seq (num_neg num_0_1) _ 0).
    by rewrite map_map. }
  assert (rows = map (map Store.VNum)
                   (layer_weights i (size_at sizes i)
                      (size_at sizes (i + 1)))) as ->.
  { unfold rows, layer_weights. rewrite map_map. apply map_ext.
    intros j. by rewrite map_map. }
  by rewrite Nat.add_1_r.
Qed.

Lemma init_layer_inv (ls : Store.loc) (sizes : list Z) (i : nat)
    (w : list (list (list number))) (b : list (list number)) (h : store) :
  Store.init_inv ls sizes w b h ->
  exists h',
    Store.init_layer (Store.mkEngine (ls + 1) (ls + 2) ls) i tt h
    = (Normal tt, h')
    /\ Store.init_inv ls sizes
         (w ++ [layer_weights i (size_at sizes i) (size_at sizes (i + 1))])
         (b ++ [layer_biases (size_at sizes (i + 1))]) h'.
Proof.
  intros (Hls & (mats & HlW & Hmats) & (vecs & HlB & Hvecs)).
  assert (ls + 2 < length h) as Hlt by (by apply lookup_lt_Some in HlB).
  eexists. split.
  { apply (init_layer_store_eq ls _ _ sizes i _ _ h Hls HlW HlB). lia. }
  set (n := length h).
  set (a := size_at sizes i). set (c := size_at sizes (i + 1)).
  set (t := [map Store.VRef (seq (Datatypes.S (Datatypes.S n)) (Z.to_nat a));
             map Store.VNum (layer_biases c)]
            ++ map (map Store.VNum) (layer_weights i a c)).
  set (h' := <[ls + 2 := _]> (<[ls + 1 := _]> (h ++ t))).
  assert (forall l, l <> ls + 1 -> l <> ls + 2 -> h' !! l = (h ++ t) !! l)
    as Hother.
  { intros l H1 H2. unfold h'. by rewrite !list_lookup_insert_ne by done. }
  assert (forall l, ls + 2 < l -> l < length h -> h' !! l = h !! l) as Hkeep.
  { intros l H1 H2. rewrite Hother by lia. by apply lookup_app_l. }
  assert (h' !! Datatypes.S n = Some (map Store.VNum (layer_biases c)))
    as Hbias.
  { rewrite Hother by (unfold n; lia). unfold t, n.
    rewrite lookup_app_r by lia.
    by replace (Datatypes.S (length h) - length h) with 1 by lia. }
  assert (forall q row,
            layer_weights i a c !! q = Some row ->
            h' !! (Datatypes.S (Datatypes.S n) + q)
            = Some (map Store.VNum row)) as Hrow.
  { intros q row Hq. rewrite Hother by (unfold n; lia). unfold t, n.
    rewrite app_assoc.
    rewrite lookup_app_r by (rewrite length_app; cbn [length]; lia).
    rewrite length_app. cbn [length].
    replace (Datatypes.S (Datatypes.S (length h)) + q - (length h + 2))
      with q by lia.
    by rewrite list_lookup_fmap, Hq. }
  split; [|split].
  - rewrite Hother by lia. rewrite lookup_app_l by lia. done.
  - exists (mats ++ [n]). split.
    + unfold h'. rewrite list_lookup_insert_ne by lia.
      rewrite list_lookup_insert_eq by (rewrite length_app; lia).
      by rewrite map_app.
    + apply Forall2_app.
      * eapply Forall2_impl; [done|]. intros m x.
        by apply mat_above_keep.
      * constructor; [|constructor].
        split; [unfold n; lia|].
        exists (seq (Datatypes.S (Datatypes.S n)) (Z.to_nat a)). split.
        -- rewrite Hother by (unfold n; lia). unfold t, n. cbn [app].
           by rewrite list_lookup_middle.
        -- apply Forall2_same_length_lookup_2.
           { unfold layer_weights. by rewrite length_seq, length_map,
               length_seq. }
           intros q r row Hr Hq. apply lookup_seq in Hr as [-> Hq'].
           split; [unfold n; lia|]. by apply Hrow.
  - exists (vecs ++ [Datatypes.S n]). split.
    + unfold h'. rewrite list_lookup_insert_eq.
      * by rewrite map_app.
      * rewrite length_insert, length_app. lia.
    + apply Forall2_app.
      * eapply Forall2_impl; [done|]. intros m x.
        by apply vec_above_keep.
      * constructor; [|constructor]. split; [unfold n; lia|done].
Qed.

Lemma init_loop_inv (ls : Store.loc) (sizes : list Z) (count start : nat)
    (w : list (list (list number))) (b : list (list number)) (h : store) :
  Store.init_inv ls sizes w b h ->
  exists h',
    Store.for_uptoS start count
      (Store.init_layer (Store.mkEngine (ls + 1) (ls + 2) ls)) tt h
    = (Normal tt, h')
    /\ Store.init_inv ls sizes
         (w ++ map (fun i => layer_weights i (size_at sizes i)
                               (size_at sizes (i + 1))) (seq start count))
         (b ++ map (fun i => layer_biases (size_at sizes (i + 1)))
                 (seq start count)) h'.
Proof.
  revert start w b h.
  induction count as [|c IH]; intros start w b h Hinv;
    cbn [Store.for_uptoS seq map].
  - exists h. by rewrite !app_nil_r.
  - destruct (init_layer_inv ls sizes start w b h Hinv) as (h1 & Hh1 & Hinv1).
    destruct (IH (Datatypes.S start) _ _ h1 Hinv1) as (h' & Hh' & Hinv').
    exists h'. unfold Store.bind. rewrite Hh1, Hh'.
    split; [done|]. by rewrite <- !app_assoc in Hinv'.
Qed.

(** The constructor returns normally; its three arrays are the first
    three objects it allocates, and they read back as the engine of
    the value layer. *)
Lemma new_SimpleNeuralNet_sim (inputSize : Z) (hiddenSizes : list Z)
    (outputSize : Z) (h0 : store) :
  exists h',
    Store.new_SimpleNeuralNet inputSize hiddenSizes outputSize h0
    = (Normal (Store.mkEngine (length h0 + 1) (length h0 + 2) (length h0)),
       h')
    /\ Store.decode_engine h'
         (Store.mkEngine (length h0 + 1) (length h0 + 2) (length h0))
       = Some (new_SimpleNeuralNet inputSize hiddenSizes outputSize).
Proof.
  set (sizes := topology inputSize hiddenSizes outputSize).
  set (h3 := h0 ++ [map Store.VInt sizes; []; []]).
  assert (Store.init_inv (length h0) sizes [] [] h3) as Hinv.
  { split; [|split].
    - unfold h3. by rewrite list_lookup_middle.
    - exists []. split; [|constructor]. unfold h3.
      rewrite lookup_app_r by lia.
      by replace (length h0 + 1 - length h0) with 1 by lia.
    - exists []. split; [|constructor]. unfold h3.
      rewrite lookup_app_r by lia.
      by replace (length h0 + 2 - length h0) with 2 by lia. }
  destruct (init_loop_inv (length h0) sizes (length sizes - 1) 0 [] [] h3
              Hinv) as (h' & Hh' & Hinv').
  exists h'. split.
  - unfold Store.new_SimpleNeuralNet, Store.bind. cbn [Store.alloc].
    rewrite !length_app. cbn [length].
    replace (length h0 + 1 + 1) with (length h0 + 2) by lia.
    change (inputSize :: hiddenSizes ++ [outputSize]) with sizes.
    replace (((h0 ++ [map Store.VInt sizes]) ++ [[]]) ++ [[]]) with h3
      by (unfold h3; by rewrite <- !app_assoc).
    unfold Store.initializeWeights, Store.bind.
    cbn [Store.layerSizes].
    rewrite (array_length_eq (length h0) (map Store.VInt sizes)).
    2:{ unfold h3. by rewrite list_lookup_middle. }
    rewrite length_map. by rewrite Hh'.
  - rewrite new_SimpleNeuralNet_eq. fold sizes.
    apply decode_engine_rep. cbn [Store.weights Store.biases Store.layerSizes
                                  weights biases layerSizes].
    destruct Hinv' as (Hls & (mats & HlW & Hmats) & (vecs & HlB & Hvecs)).
    cbn [app] in *. split; [|split; [|done]].
    + exists mats. split; [done|]. eapply Forall2_impl; [done|].
      intros m x. apply mat_above_rep.
    + exists vecs. split; [done|]. eapply Forall2_impl; [done|].
      intros m x. apply vec_above_rep.
Qed.

Lemma frames_init_layer (n : nat) (this : Store.engine) (i : nat) :
  n <= Store.weights this -> n <= Store.biases this ->
  Store.frames n [] (Store.init_layer this i tt).
Proof.
  intros HW HB. unfold Store.init_layer.
  apply (frames_bind n [] (fun _ => True)); [|done|intros inputSize _].
  { apply frames_reads. solve_reads. }
  apply (frames_bind n [] (fun _ => True)); [|done|intros outputSize _].
  { apply frames_reads. solve_reads. }
  apply (frames_bind n [] (fun l => n <= l)); [apply frames_alloc| |].
  { intros h x Hn Hx. apply alloc_result in Hx. lia. }
  intros lw Hlw.
  apply (frames_bind n [] (fun l => n <= l)); [apply frames_alloc| |].
  { intros h x Hn Hx. apply alloc_result in Hx. lia. }
  intros lb Hlb.
  apply (frames_bind n [] (fun _ => True)); [|done|intros _ _].
  { apply (frames_for_uptoS n [] (fun _ => True)); [done| |done].
    intros v [] _. apply frames_push. by left. }
  apply (frames_bind n [] (fun _ => True)); [|done|intros _ _].
  { apply (frames_for_uptoS n [] (fun _ => True)); [done| |done].
    intros j [] _.
    apply (frames_bind n [] (fun l => n <= l)); [apply frames_alloc| |].
    { intros h x Hn Hx. apply alloc_result in Hx. lia. }
    intros nw Hnw.
    apply (frames_bind n [] (fun _ => True)); [|done|intros _ _].
    { apply (frames_for_uptoS n [] (fun _ => True)); [done| |done].
      intros k [] _. apply frames_push. by left. }
    apply frames_push. by left. }
  apply (frames_bind n [] (fun _ => True)); [|done|intros _ _].
  { apply frames_push. by left. }
  apply frames_push. by left.
Qed.

(** The constructor writes to objects it allocates itself, and to no
    other. *)
Lemma frames_new_SimpleNeuralNet (n : nat) (inputSize : Z)
    (hiddenSizes : list Z) (outputSize : Z) :
  Store.frames (number := number) n []
    (Store.new_SimpleNeuralNet inputSize hiddenSizes outputSize).
Proof.
  unfold Store.new_SimpleNeuralNet.
  apply (frames_bind n [] (fun l => n <= l)); [apply frames_alloc| |].
  { intros h x Hn Hx. apply alloc_result in Hx. lia. }
  intros ls Hls.
  apply (frames_bind n [] (fun l => n <= l)); [apply frames_alloc| |].
  { intros h x Hn Hx. apply alloc_result in Hx. lia. }
  intros lW HlW.
  apply (frames_bind n [] (fun l => n <= l)); [apply frames_alloc| |].
  { intros h x Hn Hx. apply alloc_result in Hx. lia. }
  intros lB HlB.
  apply (frames_bind n [] (fun _ => True)); [|done|intros _ _].
  { unfold Store.initializeWeights.
    apply (frames_bind n [] (fun _ => True)); [|done|intros m _].
    { apply frames_reads. solve_reads. }
    apply (frames_for_uptoS n [] (fun _ => True)); [done| |done].
    intros v [] _. by apply frames_init_layer. }
  apply frames_reads, reads_ret.
Qed.

Lemma run_calls_unchanged (e : Store.engine) (inputs : list Store.loc)
    (h : store) :
  Store.unchanged (length h) [] h (Store.run_calls e inputs h).
Proof.
  revert h. induction inputs as [|lin rest IH]; intros h; cbn [Store.run_calls].
  - apply unchanged_refl.
  - pose proof (frames_forwardPropagate (length h) e lin h (le_n _)) as H1.
    eapply unchanged_trans; [done|].
    eapply unchanged_weaken; [| |apply IH]; [by destruct H1|done].
Qed.

End StoreProofs.

(** ** The store layer: the claims *)

Section StoreClaims.
Context {number : Type} {A : Arith number}.

#[local] Abbreviation store := (list (list (Store.value number))).

Lemma decode_vec_unchanged (h h' : store) (l : Store.loc)
    (xs : list number) :
  Store.unchanged (length h) [] h h' ->
  Store.decode_vec h l = Some xs -> Store.decode_vec h' l = Some xs.
Proof.
  intros Hun. rewrite !decode_vec_rep. by apply rep_vec_unchanged.
Qed.

Lemma decode_mat_unchanged (h h' : store) (l : Store.loc)
    (xss : list (list number)) :
  Store.unchanged (length h) [] h h' ->
  Store.decode_mat h l = Some xss -> Store.decode_mat h' l = Some xss.
Proof.
  intros Hun. rewrite !decode_mat_rep. by apply rep_mat_unchanged.
Qed.

Lemma unchanged_lookup (h h' : store) (l : Store.loc) :
  Store.unchanged (length h) [] h h' -> l < length h -> h' !! l = h !! l.
Proof. intros [_ Hun] Hl. apply Hun; [done|apply not_elem_of_nil]. Qed.

(** Two calls in a row, on the same engine and the same input. *)
Lemma forwardPropagate_twice (h : store) (e : Store.engine)
    (net : SimpleNeuralNet number) (lin : Store.loc)
    (inputs : list number) :
  Store.decode_engine h e = Some net ->
  Store.decode_vec h lin = Some inputs ->
  let r1 := Store.forwardPropagate e lin h in
  let r2 := Store.forwardPropagate e lin r1.2 in
  match r1.1, r2.1 with
  | Normal l1, Normal l2 =>
      exists snapshot,
        forwardPropagate net inputs = Normal snapshot
        /\ Store.decode_mat r1.2 l1 = Some snapshot
        /\ Store.decode_mat r2.2 l2 = Some snapshot
        /\ Store.decode_mat r2.2 l1 = Some snapshot
  | Throw err1, Throw err2 =>
      err1 = err2 /\ forwardPropagate net inputs = Throw err1
  | _, _ => False
  end.
Proof.
  intros He Hin r1 r2.
  pose proof (frames_forwardPropagate (length h) e lin h (le_n _)) as Hf1.
  fold r1 in Hf1.
  pose proof (frames_forwardPropagate (length r1.2) e lin r1.2 (le_n _))
    as Hf2.
  fold r2 in Hf2.
  pose proof (decode_engine_unchanged _ _ _ _ Hf1 He) as He1.
  pose proof (decode_vec_unchanged _ _ _ _ Hf1 Hin) as Hin1.
  pose proof (forwardPropagate_sim h e net lin inputs He Hin) as H1.
  pose proof (forwardPropagate_sim r1.2 e net lin inputs He1 Hin1) as H2.
  fold r1 r2 in H1, H2.
  destruct (forwardPropagate net inputs) as [snapshot|err].
  - destruct H1 as (h1 & Hr1 & Hd1 & _), H2 as (h2 & Hr2 & Hd2 & _).
    rewrite Hr1, Hr2 in *. cbn in *. exists snapshot.
    split; [done|]. split; [done|]. split; [done|].
    by apply (decode_mat_unchanged h1).
  - destruct H1 as (h1 & Hr1), H2 as (h2 & Hr2).
    by rewrite Hr1, Hr2.
Qed.

(** C1.  Two constructions with the same sizes, in any two stores,
    return engines that read back as the same weights, biases and
    sizes; and two calls of [forwardPropagate] in a row, on the same
    engine and the same input array, have the same outcome: snapshots
    that read back as the same value, or the same exception. *)
Theorem determinism (inputSize : Z) (hiddenSizes : list Z)
    (outputSize : Z) (inputs : list number) (h1 h2 : store) :
  exists e1 h1' e2 h2',
    Store.new_SimpleNeuralNet inputSize hiddenSizes outputSize h1
    = (Normal e1, h1')
    /\ Store.new_SimpleNeuralNet inputSize hiddenSizes outputSize h2
       = (Normal e2, h2')
    /\ Store.decode_engine h1' e1
       = Some (new_SimpleNeuralNet inputSize hiddenSizes outputSize)
    /\ Store.decode_engine h2' e2
       = Some (new_SimpleNeuralNet inputSize hiddenSizes outputSize)
    /\ let x := (Store.alloc (map Store.VNum inputs) h1') in
       let r1 := Store.forwardPropagate e1 (length h1') x.2 in
       let r2 := Store.forwardPropagate e1 (length h1') r1.2 in
       match r1.1, r2.1 with
       | Normal l1, Normal l2 =>
           exists snapshot,
             Store.decode_mat r1.2 l1 = Some snapshot
             /\ Store.decode_mat r2.2 l2 = Some snapshot
       | Throw err1, Throw err2 => err1 = err2
       | _, _ => False
       end.
Proof.
  destruct (new_SimpleNeuralNet_sim inputSize hiddenSizes outputSize h1)
    as (h1' & Hn1 & Hd1).
  destruct (new_SimpleNeuralNet_sim inputSize hiddenSizes outputSize h2)
    as (h2' & Hn2 & Hd2).
  eexists _, h1', _, h2'. do 4 (split; [done|]).
  set (e1 := Store.mkEngine _ _ _) in *.
  intros x r1 r2.
  assert (Store.unchanged (length h1') [] h1' x.2) as Hx.
  { apply (frames_alloc (length h1') []). lia. }
  pose proof (decode_engine_unchanged _ _ _ _ Hx Hd1) as Hd.
  assert (Store.decode_vec x.2 (length h1') = Some inputs) as Hin.
  { apply decode_vec_rep. unfold Store.rep_vec. cbn.
    by rewrite list_lookup_middle. }
  pose proof (forwardPropagate_twice x.2 e1 _ (length h1') inputs Hd Hin)
    as Htwice.
  cbn zeta in Htwice. fold r1 r2 in Htwice.
  destruct r1.1, r2.1; try done.
  - destruct Htwice as (snapshot & _ & ? & ? & _). by exists snapshot.
  - by destruct Htwice.
Qed.

(** C8, as the code has it.  The constructor checks nothing, and a
    size that is not positive is not rejected.  For integer sizes no
    larger than those of the application's own engine (no size above
    64, no more than two hidden layers) and of either sign, it returns
    normally, with an engine that reads back as a complete one: the
    topology as given, of at least two layers (its signature admits no
    fewer), and one weight matrix and one bias vector per transition.
    A layer of non-positive size gets empty arrays: the matrix of the
    transition that leaves it has no rows, and in the transition that
    enters it every row is empty and so is the bias vector.  The
    objects that were in the store before the call are unchanged.
    The bounds keep the statement to arrays that the host can hold;
    the lists of the model have no capacity, and nothing is stated
    here about larger sizes. *)
Theorem constructor_accepts_nonpositive_sizes (inputSize : Z)
    (hiddenSizes : list Z) (outputSize : Z) (h : store) :
  Forall (fun size => (size <= 64)%Z)
         (inputSize :: hiddenSizes ++ [outputSize]) ->
  length hiddenSizes <= 2 ->
  exists e h' net,
    Store.new_SimpleNeuralNet inputSize hiddenSizes outputSize h
    = (Normal e, h')
    /\ Store.decode_engine h' e = Some net
    /\ net = new_SimpleNeuralNet inputSize hiddenSizes outputSize
    /\ layerSizes net = inputSize :: hiddenSizes ++ [outputSize]
    /\ 2 <= length (layerSizes net)
    /\ length (weights net) = length (layerSizes net) - 1
    /\ length (biases net) = length (layerSizes net) - 1
    /\ (forall i size,
          layerSizes net !! i = Some size ->
          (size <= 0)%Z ->
          i < length (weights net) ->
          weights net !! i = Some [])
    /\ (forall i size,
          layerSizes net !! (i + 1) = Some size ->
          (size <= 0)%Z ->
          biases net !! i = Some []
          /\ exists layerWeights,
               weights net !! i = Some layerWeights
               /\ Forall (fun row => row = []) layerWeights)
    /\ forall l, l < length h -> h' !! l = h !! l.
Proof.
  intros _ _.
  destruct (new_SimpleNeuralNet_sim inputSize hiddenSizes outputSize h)
    as (h' & Hn & Hd).
  pose proof (frames_new_SimpleNeuralNet (length h) inputSize hiddenSizes
                outputSize h (le_n _)) as Hframe.
  rewrite Hn in Hframe.
  eexists _, h', _. do 3 (split; [done|]).
  rewrite new_SimpleNeuralNet_eq. cbn [layerSizes weights biases].
  split; [done|]. rewrite length_topology.
  split; [lia|].
  set (sizes := topology inputSize hiddenSizes outputSize).
  assert (length sizes = Datatypes.S (length hiddenSizes + 1)) as Hlen
    by apply length_topology.
  assert (length (weights_of sizes) = length sizes - 1) as Hw.
  { unfold weights_of. by rewrite length_map, length_seq. }
  assert (length (biases_of sizes) = length sizes - 1) as Hb.
  { unfold biases_of. by rewrite length_map, length_seq. }
  assert (forall i size, sizes !! i = Some size -> size_at sizes i = size)
    as Hsize.
  { intros i size Hi. unfold size_at. by rewrite Hi. }
  split; [lia|]. split; [lia|].
  split; [|split].
  - intros i size Hi Hle Hlt.
    rewrite weights_of_lookup by lia.
    rewrite (Hsize _ _ Hi). unfold layer_weights.
    by replace (Z.to_nat size) with 0 by lia.
  - intros i size Hi Hle.
    pose proof (lookup_lt_Some _ _ _ Hi) as Hlt.
    rewrite biases_of_lookup, weights_of_lookup by lia.
    rewrite (Hsize _ _ Hi). unfold layer_biases, layer_weights.
    replace (Z.to_nat size) with 0 by lia.
    split; [done|]. eexists. split; [done|].
    rewrite Forall_fmap. by apply Forall_true.
  - intros l Hl. by apply unchanged_lookup.
Qed.


(** The array [getLayerConfig] hands out is the engine's own; for the
    singleton it reads [64, 16, 12, 10] after the construction and after
    any calls of [forwardPropagate] that follow. *)
Lemma singleton_config_stable (h : store) (later : list Store.loc) :
  exists e h',
    Store.new_SimpleNeuralNet 64 [16; 12]%Z 10 h = (Normal e, h')
    /\ exists l,
         Store.getLayerConfig (number := number) e
           (Store.run_calls e later h')
         = (Normal l, Store.run_calls e later h')
         /\ Store.decode_sizes (Store.run_calls e later h') l
            = Some [64; 16; 12; 10]%Z.
Proof.
  destruct (new_SimpleNeuralNet_sim 64 [16; 12]%Z 10 h) as (h' & Hn & Hd).
  eexists _, h'. split; [done|]. eexists. split; [done|].
  pose proof (run_calls_unchanged
                (Store.mkEngine (length h + 1) (length h + 2) (length h))
                later h') as Hun.
  apply (decode_engine_unchanged _ _ _ _ Hun) in Hd.
  apply decode_engine_rep in Hd as (_ & _ & Hs).
  apply decode_sizes_rep. rewrite Hs.
  by rewrite new_SimpleNeuralNet_eq.
Qed.

End StoreClaims.

(** ** The claims at concrete inputs *)

Section Instances.
Local Open Scope R_scope.

(** The override of the right length, on the all-zero grid. *)
Lemma override_substitution_witness :
  exists local composed : list (list R),
    forwardPropagate neuralNetEngine (replicate 64 0) = Normal local
    /\ composeActivations (replicate 64 0) None = Normal local
    /\ composeActivations (replicate 64 0) (Some (replicate 10 0))
       = Normal composed
    /\ length composed = length local
    /\ last composed = Some (replicate 10 0)
    /\ forall i, (i < length local - 1)%nat -> composed !! i = local !! i.
Proof.
  apply (override_substitution (replicate 64 0) (replicate 10 0)).
  - rewrite neuralNetEngine_config. reflexivity.
  - rewrite neuralNetEngine_config. reflexivity.
Defined.

(** The topology [4, 2, 3] on the all-zero input. *)
Lemma shape_invariant_witness :
  exists snapshot : list (list R),
    forwardPropagate (new_SimpleNeuralNet 4 [2%Z] 3) [0; 0; 0; 0]
    = Normal snapshot
    /\ length snapshot
       = length (getLayerConfig (new_SimpleNeuralNet (A := RArith) 4 [2%Z] 3))
    /\ snapshot !! 0%nat = Some [0; 0; 0; 0]
    /\ forall i layer,
         snapshot !! i = Some layer ->
         getLayerConfig (new_SimpleNeuralNet (A := RArith) 4 [2%Z] 3) !! i
         = Some (Z.of_nat (length layer)).
Proof.
  apply (shape_invariant 4 [2%Z] 3 [0; 0; 0; 0]).
  - repeat constructor; discriminate.
  - reflexivity.
Defined.

Lemma range_invariant_exact_witness :
  exists snapshot : list (list R),
    forwardPropagate (new_SimpleNeuralNet 4 [2%Z] 3) [0; 0; 0; 0]
    = Normal snapshot
    /\ forall (i : nat) (layer : list R) (v : R),
         (1 <= i)%nat -> snapshot !! i = Some layer -> v ∈ layer ->
         0 < v < 1.
Proof.
  apply (range_invariant_exact 4 [2%Z] 3 [0; 0; 0; 0]). reflexivity.
Defined.

(** A one-value grid, and a three-value override on a 64-value grid. *)
Lemma shape_mismatch_is_silent_witness :
  composeActivations [1] (Some [1; 2; 3]) = Normal zero_state
  /\ exists local : list (list R),
       forwardPropagate neuralNetEngine (replicate 64 0) = Normal local
       /\ composeActivations (replicate 64 0) (Some [1; 2; 3]) = Normal local
       /\ composeActivations (replicate 64 0) None = Normal local.
Proof.
  split.
  - apply (shape_mismatch_is_silent [1] [] (Some [1; 2; 3])). discriminate.
  - apply (shape_mismatch_is_silent (replicate 64 0) [1; 2; 3] None).
    + reflexivity.
    + discriminate.
Defined.

(** C7 fails: a three-value override on a 64-value grid is not
    rejected, the composer returns what it returns without an
    override; a one-value grid is not rejected either, the composer
    returns the zero state; and [forwardPropagate] itself accepts one
    input for a first layer of two nodes, leaving the missing term out
    of the sum. *)
Lemma malformed_shapes_are_not_rejected :
  (exists local : list (list R),
     composeActivations (replicate 64 0) (Some [1; 2; 3]) = Normal local
     /\ composeActivations (replicate 64 0) None = Normal local)
  /\ composeActivations [1] None = Normal (zero_state (A := RArith))
  /\ exists v : R,
       forwardPropagate (new_SimpleNeuralNet 2 [] 1) [1] = Normal [[1]; [v]].
Proof.
  split; [|split].
  - eexists. split.
    + rewrite composeActivations_malformed by (done || discriminate).
      by apply neuralNetEngine_propagate.
    + rewrite composeActivations_absent by done.
      by apply neuralNetEngine_propagate.
  - by apply composeActivations_other_length.
  - eexists. rewrite forwardPropagate_eq by (cbn; lia). reflexivity.
Qed.

(** C8 fails: with input size 0 the constructor completes normally.
    The store, empty before the call, then holds the sizes, the two
    outer arrays, an empty weight matrix and one bias. *)
Lemma nonpositive_size_is_accepted :
  Store.new_SimpleNeuralNet (A := RArith) 0 [] 1 []
  = (Normal (Store.mkEngine 1 2 0),
     [ [Store.VInt 0; Store.VInt 1];
       [Store.VRef 3];
       [Store.VRef 4];
       [];
       [Store.VNum (- (1 / 10))] ])
  /\ new_SimpleNeuralNet (A := RArith) 0 [] 1
     = mkNet [[]] [[- (1 / 10)]] [0; 1]%Z.
Proof. split; reflexivity. Qed.

(** The topology [2, 0, -3, 1] in the empty store: two layers of
    non-positive size between two others. *)
Lemma constructor_accepts_nonpositive_sizes_witness :
  exists e h' net,
    Store.new_SimpleNeuralNet (A := RArith) 2 [0; -3]%Z 1 [] = (Normal e, h')
    /\ Store.decode_engine h' e = Some net
    /\ net = new_SimpleNeuralNet 2 [0; -3]%Z 1
    /\ layerSizes net = [2; 0; -3; 1]%Z
    /\ (2 <= length (layerSizes net))%nat
    /\ length (weights net) = (length (layerSizes net) - 1)%nat
    /\ length (biases net) = (length (layerSizes net) - 1)%nat
    /\ (forall i size,
          layerSizes net !! i = Some size ->
          (size <= 0)%Z ->
          (i < length (weights net))%nat ->
          weights net !! i = Some [])
    /\ (forall i size,
          layerSizes net !! (i + 1)%nat = Some size ->
          (size <= 0)%Z ->
          biases net !! i = Some []
          /\ exists layerWeights,
               weights net !! i = Some layerWeights
               /\ Forall (fun row => row = []) layerWeights)
    /\ forall l, (l < length ([] : list (list (Store.value R))))%nat ->
                 h' !! l = ([] : list (list (Store.value R))) !! l.
Proof.
  apply (constructor_accepts_nonpositive_sizes (A := RArith) 2 [0; -3]%Z 1 []).
  - repeat constructor; lia.
  - cbn. lia.
Defined.


End Instances.

(** * Further properties of the code *)

(** ** The engine: what the constructor builds, and inputs of other lengths *)

Section EngineShapes.
Context {number : Type} {A : Arith number}.

Lemma length_layer_weights (i : nat) (a b : Z) :
  length (layer_weights i a b) = Z.to_nat a.
Proof. unfold layer_weights. by rewrite length_map, length_seq. Qed.

Lemma length_biases_of (sizes : list Z) :
  length (biases_of sizes) = length sizes - 1.
Proof. unfold biases_of. by rewrite length_map, length_seq. Qed.

(** X1. *)
Theorem weights_match_topology (inputSize : Z) (hiddenSizes : list Z)
    (outputSize : Z) :
  let this := new_SimpleNeuralNet inputSize hiddenSizes outputSize in
  let sizes := getLayerConfig this in
  length (weights this) = length sizes - 1
  /\ length (biases this) = length sizes - 1
  /\ forall i, i < length sizes - 1 ->
       exists layerW layerB,
         weights this !! i = Some layerW
         /\ biases this !! i = Some layerB
         /\ length layerW = Z.to_nat (size_at sizes i)
         /\ Forall (fun nodeWeights =>
                      length nodeWeights = Z.to_nat (size_at sizes (i + 1)))
                   layerW
         /\ layerB
            = replicate (Z.to_nat (size_at sizes (i + 1))) (num_neg num_0_1).
Proof.
  cbv zeta. rewrite getLayerConfig_new, new_SimpleNeuralNet_eq.
  cbn [weights biases].
  split; [apply length_weights_of|]. split; [apply length_biases_of|].
  intros i Hi. do 2 eexists.
  split; [by apply weights_of_lookup|].
  split; [by apply biases_of_lookup|].
  split; [apply length_layer_weights|]. split; [|reflexivity].
  unfold layer_weights. apply Forall_forall. intros row Hrow.
  apply list_elem_of_fmap in Hrow as (j & -> & _).
  by rewrite length_map, length_seq.
Qed.

(** X3.  On a topology of positive sizes, an input vector longer
    than the first layer makes [forwardPropagate] throw a [TypeError]:
    the dot product reads a row of weights that does not exist. *)
Theorem long_input_throws (inputSize : Z) (hiddenSizes : list Z)
    (outputSize : Z) (inputs : list number) :
  Forall (fun size => (0 < size)%Z)
         (getLayerConfig
            (new_SimpleNeuralNet inputSize hiddenSizes outputSize)) ->
  (inputSize < Z.of_nat (length inputs))%Z ->
  forwardPropagate (new_SimpleNeuralNet inputSize hiddenSizes outputSize)
    inputs
  = Throw TypeError.
Proof.
  rewrite getLayerConfig_new. intros Hpos Hlong.
  assert (0 < inputSize)%Z as Hin.
  { by apply Forall_cons in Hpos as [? _]. }
  apply forwardPropagate_long; [lia|].
  assert (exists s, topology inputSize hiddenSizes outputSize !! 1 = Some s)
    as (s & Hs).
  { apply lookup_lt_is_Some. rewrite length_topology. lia. }
  unfold size_at. rewrite Hs. cbn.
  pose proof (proj1 (Forall_lookup _ _) Hpos _ _ Hs). cbn in *. lia.
Qed.

End EngineShapes.

(** ** Exact real arithmetic: the range of the weights and of the activations *)

Section RealWeights.
Local Open Scope R_scope.

Lemma init_weight_range (i : nat) (a : Z) (j k : nat) :
  (0 < a)%Z ->
  - 3 / sqrt (IZR a) <= init_weight i a j k <= 1 / sqrt (IZR a).
Proof.
  intros Ha. unfold init_weight.
  cbn [num_sub num_mul num_div num_of_Z Math_sin Math_sqrt RArith].
  set (seed := (Z.of_nat i * 1000 + Z.of_nat j * 100 + Z.of_nat k)%Z).
  pose proof (SIN_bound (IZR seed)) as [Hlo Hhi].
  assert (0 < sqrt (IZR a)) as Hs.
  { apply sqrt_lt_R0. by apply IZR_lt. }
  assert (0 < / sqrt (IZR a)) as Hinv by (by apply Rinv_0_lt_compat).
  unfold Rdiv. split; apply Rmult_le_compat_r; lra.
Qed.

Lemma weighted_sum_app (i : nat) (a : Z) (outIdx : nat) (xs ys : list R)
    (inIdx : nat) (sum : R) :
  weighted_sum i a outIdx inIdx (xs ++ ys) sum
  = weighted_sum i a outIdx (inIdx + length xs) ys
      (weighted_sum i a outIdx inIdx xs sum).
Proof.
  revert inIdx sum. induction xs as [|x xs IH]; intros inIdx sum; cbn.
  - by rewrite Nat.add_0_r.
  - rewrite IH. by rewrite Nat.add_succ_r.
Qed.

(** The sum over inputs that lie in [0, 1] moves by at most
    [3 / sqrt a] down and [1 / sqrt a] up with each term. *)
Lemma weighted_sum_range (i : nat) (a : Z) (outIdx : nat) (xs : list R)
    (inIdx : nat) (sum : R) :
  (0 < a)%Z -> Forall (fun x => 0 <= x <= 1) xs ->
  sum - 3 * INR (length xs) / sqrt (IZR a)
  <= weighted_sum i a outIdx inIdx xs sum
  <= sum + INR (length xs) / sqrt (IZR a).
Proof.
  intros Ha Hxs. revert inIdx sum.
  induction Hxs as [|x xs [Hx0 Hx1] _ IH]; intros inIdx sum.
  - cbn. lra.
  - cbn [weighted_sum length]. rewrite S_INR.
    specialize (IH (S inIdx)
      (num_add sum (num_mul x (init_weight i a inIdx outIdx)))).
    cbn [num_add num_mul RArith] in *.
    pose proof (init_weight_range i a inIdx outIdx Ha) as [Hlo Hhi].
    assert (0 < sqrt (IZR a)) as Hs.
    { apply sqrt_lt_R0. by apply IZR_lt. }
    assert (0 < / sqrt (IZR a)) as Hinv by (by apply Rinv_0_lt_compat).
    unfold Rdiv in *.
    set (w := init_weight i a inIdx outIdx) in *.
    set (r := / sqrt (IZR a)) in *.
    set (n := INR (length xs)) in *.
    assert (- 3 * r <= x * w <= r) by nra.
    lra.
Qed.

Lemma sigmoid_monotone (x y : R) : x <= y -> sigmoid x <= sigmoid y.
Proof.
  intros [Hlt| ->]; [|lra]. left. by apply sigmoid_increasing.
Qed.

Lemma layer_output_range (i : nat) (a b : Z) (current : list R) (v : R) :
  length current = Z.to_nat a -> Forall (fun x => 0 <= x <= 1) current ->
  v ∈ layer_output i a b current ->
  sigmoid (- (1 / 10) - 3 * sqrt (IZR a)) <= v
  <= sigmoid (- (1 / 10) + sqrt (IZR a)).
Proof.
  intros Hlen Hcur Hv. unfold layer_output in Hv.
  apply list_elem_of_fmap in Hv as (outIdx & -> & _).
  destruct (Z_lt_le_dec 0 a) as [Ha|Ha].
  - pose proof (weighted_sum_range i a outIdx current 0 (num_neg num_0_1)
                  Ha Hcur) as [Hlo Hhi].
    cbn [num_neg num_0_1 RArith] in *.
    assert (0 < sqrt (IZR a)) as Hs.
    { apply sqrt_lt_R0. by apply IZR_lt. }
    assert (INR (length current) / sqrt (IZR a) = sqrt (IZR a)) as Hn.
    { rewrite Hlen, INR_IZR_INZ, Z2Nat.id by lia.
      rewrite <- (sqrt_sqrt (IZR a)) at 1 by (apply IZR_le; lia).
      field. lra. }
    split; apply sigmoid_monotone.
    + replace (3 * INR (length current) / sqrt (IZR a))
        with (3 * (INR (length current) / sqrt (IZR a))) in Hlo
        by (unfold Rdiv; ring).
      rewrite Hn in Hlo. lra.
    + rewrite Hn in Hhi. lra.
  - assert (current = []) as ->.
    { apply length_zero_iff_nil. lia. }
    cbn [weighted_sum num_neg num_0_1 RArith].
    pose proof (sqrt_pos (IZR a)).
    split; apply sigmoid_monotone; lra.
Qed.

Lemma layer_output_unit (i : nat) (a b : Z) (current : list R) :
  Forall (fun x => 0 <= x <= 1) (layer_output i a b current).
Proof.
  apply Forall_forall. intros v Hv.
  destruct (layer_output_sigmoid _ _ _ _ _ Hv) as (sum & ->).
  pose proof (sigmoid_range sum). lra.
Qed.

Lemma propagate_from_range (sizes : list Z) (count i : nat)
    (current : list R) (n : nat) (layer : list R) (v : R) :
  length current = Z.to_nat (size_at sizes i) ->
  Forall (fun x => 0 <= x <= 1) current ->
  propagate_from sizes i count current !! n = Some layer -> v ∈ layer ->
  sigmoid (- (1 / 10) - 3 * sqrt (IZR (size_at sizes (i + n)))) <= v
  <= sigmoid (- (1 / 10) + sqrt (IZR (size_at sizes (i + n)))).
Proof.
  revert i current n.
  induction count as [|count IH]; intros i current n Hlen Hcur Hlayer Hv;
    [done|].
  cbn [propagate_from] in Hlayer. destruct n as [|n].
  - cbn in Hlayer. injection Hlayer as <-. rewrite Nat.add_0_r.
    by eapply layer_output_range.
  - cbn in Hlayer. rewrite Nat.add_succ_r.
    eapply (IH (S i)); [| |exact Hlayer|exact Hv].
    + rewrite length_layer_output. by rewrite Nat.add_1_r.
    + apply layer_output_unit.
Qed.

(** X2.  In exact real arithmetic every weight of the transition
    [i] lies between [-3 / sqrt n] and [1 / sqrt n], where
    [n = layerSizes[i]], which is positive: [Math.sin(seed) * 2 - 1]
    ranges over [[-3, 1]]. *)
Theorem weight_range (inputSize : Z) (hiddenSizes : list Z) (outputSize : Z)
    (i j k : nat) (layerW : list (list R)) (nodeWeights : list R) (w : R) :
  weights (new_SimpleNeuralNet inputSize hiddenSizes outputSize) !! i
  = Some layerW ->
  layerW !! j = Some nodeWeights -> nodeWeights !! k = Some w ->
  exists n : Z,
    getLayerConfig (new_SimpleNeuralNet inputSize hiddenSizes outputSize) !! i
    = Some n
    /\ (0 < n)%Z
    /\ - 3 / sqrt (IZR n) <= w <= 1 / sqrt (IZR n).
Proof.
  rewrite getLayerConfig_new, new_SimpleNeuralNet_eq. cbn [weights].
  set (sizes := topology inputSize hiddenSizes outputSize).
  intros HW Hrow Hw.
  assert (i < length sizes - 1)%nat as Hi.
  { apply lookup_lt_Some in HW. by rewrite length_weights_of in HW. }
  rewrite weights_of_lookup in HW by done. injection HW as <-.
  assert (j < Z.to_nat (size_at sizes i))%nat as Hj.
  { apply lookup_lt_Some in Hrow. by rewrite length_layer_weights in Hrow. }
  rewrite layer_weights_lookup in Hrow by done. injection Hrow as <-.
  assert (k < Z.to_nat (size_at sizes (i + 1)))%nat as Hk.
  { apply lookup_lt_Some in Hw. by rewrite length_map, length_seq in Hw. }
  rewrite weight_row_lookup in Hw by done. injection Hw as <-.
  assert (exists n, sizes !! i = Some n) as (n & Hn).
  { apply lookup_lt_is_Some. lia. }
  assert (size_at sizes i = n) as Hsz by (unfold size_at; by rewrite Hn).
  rewrite Hsz in Hj |- *. exists n.
  split; [done|]. split; [lia|]. apply init_weight_range. lia.
Qed.

(** X4.  In exact real arithmetic, an input vector shorter than
    the first layer gives the layers 1 to last that the same vector
    gives once padded with zeros to the length of the first layer: the
    terms that are missing are left out of every sum. *)
Theorem short_input_is_zero_padded (inputSize : Z) (hiddenSizes : list Z)
    (outputSize : Z) (inputs : list R) :
  (length inputs <= Z.to_nat inputSize)%nat ->
  let padded :=
    inputs ++ replicate (Z.to_nat inputSize - length inputs) 0 in
  exists later,
    forwardPropagate (new_SimpleNeuralNet inputSize hiddenSizes outputSize)
      inputs
    = Normal (inputs :: later)
    /\ forwardPropagate
         (new_SimpleNeuralNet inputSize hiddenSizes outputSize) padded
       = Normal (padded :: later).
Proof.
  intros Hlen padded. eexists. split; [by apply forwardPropagate_eq|].
  rewrite forwardPropagate_eq
    by (unfold padded; rewrite length_app, length_replicate; lia).
  do 2 f_equal. rewrite Nat.add_1_r. cbn [propagate_from].
  assert (layer_output 0 (size_at (topology inputSize hiddenSizes outputSize) 0)
            (size_at (topology inputSize hiddenSizes outputSize) (0 + 1))
            padded
          = layer_output 0
              (size_at (topology inputSize hiddenSizes outputSize) 0)
              (size_at (topology inputSize hiddenSizes outputSize) (0 + 1))
              inputs) as ->; [|done].
  unfold layer_output. apply map_ext. intros outIdx. f_equal.
  unfold padded. rewrite weighted_sum_app. apply weighted_sum_zero.
Qed.

(** X5.  In exact real arithmetic, for an input of the length of
    the first layer with every value in [[0, 1]], each activation of
    the layer [i + 1] lies between [sigmoid(-0.1 - 3 sqrt n)] and
    [sigmoid(-0.1 + sqrt n)], with [n] the size of the layer [i]. *)
Theorem activation_bounds (inputSize : Z) (hiddenSizes : list Z)
    (outputSize : Z) (inputs : list R) :
  Z.of_nat (length inputs) = inputSize ->
  Forall (fun x => 0 <= x <= 1) inputs ->
  exists snapshot,
    forwardPropagate (new_SimpleNeuralNet inputSize hiddenSizes outputSize)
      inputs
    = Normal snapshot
    /\ forall (i : nat) (layer : list R) (v : R),
         snapshot !! (i + 1)%nat = Some layer -> v ∈ layer ->
         let n :=
           IZR (size_at
                  (getLayerConfig
                     (new_SimpleNeuralNet inputSize hiddenSizes outputSize))
                  i) in
         sigmoid (- (1 / 10) - 3 * sqrt n) <= v
         <= sigmoid (- (1 / 10) + sqrt n).
Proof.
  intros Hlen Hin. eexists. split; [apply forwardPropagate_eq; lia|].
  intros i layer v Hlayer Hv. cbv zeta. rewrite getLayerConfig_new.
  rewrite Nat.add_1_r in Hlayer. cbn [lookup list_lookup] in Hlayer.
  change (list_lookup i ?l) with (l !! i) in Hlayer.
  eapply (propagate_from_range _ _ 0 inputs i); [| |exact Hlayer|exact Hv].
  - unfold size_at, topology. cbn. lia.
  - done.
Qed.

End RealWeights.

(** ** The composer: the shape of the state *)

Section ComposerShape.
Context {number : Type} {A : Arith number}.

Lemma composeActivations_shape (inputActivations : list number)
    (probabilities : option (list number)) :
  exists state,
    composeActivations inputActivations probabilities = Normal state
    /\ map (fun layer => Z.of_nat (length layer)) state
       = [64; 16; 12; 10]%Z.
Proof.
  destruct (decide (length inputActivations = 64)) as [Hin|Hin].
  - assert (map (fun layer : list number => Z.of_nat (length layer))
              (inputActivations
               :: propagate_from [64; 16; 12; 10]%Z 0 3 inputActivations)
            = [64; 16; 12; 10]%Z) as Hshape.
    { cbn [propagate_from map]. rewrite !length_layer_output, Hin.
      reflexivity. }
    destruct probabilities as [p|].
    + destruct (decide (length p = 10)) as [Hp|Hp].
      * unfold composeActivations.
        rewrite decide_True, neuralNetEngine_propagate by done.
        cbn [mbind completion_bind]. rewrite decide_True by done.
        eexists. split; [reflexivity|].
        cbn [propagate_from set_last length list_insert insert map].
        rewrite !length_layer_output, Hin, Hp. reflexivity.
      * rewrite composeActivations_malformed, neuralNetEngine_propagate
          by done.
        by eexists.
    + rewrite composeActivations_absent, neuralNetEngine_propagate by done.
      by eexists.
  - rewrite composeActivations_other_length by done.
    eexists. split; [reflexivity|]. reflexivity.
Qed.

(** X6.  The first effect of the view never throws, and the
    state it sets has one vector per layer, of the lengths
    [[64, 16, 12, 10]] of the topology, whatever the input grid and the
    probabilities are. *)
Theorem composed_state_has_the_topology (inputActivations : list number)
    (probabilities : option (list number)) :
  exists state,
    composeActivations inputActivations probabilities = Normal state
    /\ map (fun layer => Z.of_nat (length layer)) state
       = getLayerConfig neuralNetEngine.
Proof.
  rewrite neuralNetEngine_config. apply composeActivations_shape.
Qed.

End ComposerShape.

(** ** The canvas grid *)

Section CanvasGrid.
Context {number : Type} {A : Arith number} {C : Compare number}.

Lemma for_uptoD_app {X : Type} (f : nat -> option (list X))
    (count start : nat) (acc : list X) :
  for_uptoD start count (fun v a => xs ← f v; Some (a ++ xs)) acc
  = (xss ← mapM f (seq start count); Some (acc ++ mjoin xss)).
Proof.
  revert start acc.
  induction count as [|count IH]; intros start acc; cbn [for_uptoD seq mapM].
  - cbn. by rewrite app_nil_r.
  - destruct (f start) as [xs|]; [|done]. cbn. rewrite IH.
    destruct (mapM f (seq (S start) count)) as [xss|]; [|done]. cbn.
    by rewrite app_assoc.
Qed.

Lemma for_uptoD_push {X : Type} (f : nat -> option X) (count start : nat)
    (acc : list X) :
  for_uptoD start count (fun v a => x ← f v; Some (push a x)) acc
  = (xs ← mapM f (seq start count); Some (acc ++ xs)).
Proof.
  revert start acc.
  induction count as [|count IH]; intros start acc; cbn [for_uptoD seq mapM].
  - cbn. by rewrite app_nil_r.
  - destruct (f start) as [x|]; [|done]. cbn. rewrite IH. unfold push.
    destruct (mapM f (seq (S start) count)) as [xs|]; [|done]. cbn.
    by rewrite <- app_assoc.
Qed.

Lemma for_uptoD_ext {S : Type} (body body' : nat -> S -> option S)
    (count start : nat) (s : S) :
  (forall v s, body v s = body' v s) ->
  for_uptoD start count body s = for_uptoD start count body' s.
Proof.
  intros Hext. revert start s.
  induction count as [|count IH]; intros start s; cbn [for_uptoD]; [done|].
  rewrite Hext. destruct (body' start s); [apply IH|done].
Qed.

Lemma getInputGrid_eq (canvas : HTMLCanvasElement number)
    (ctx : CanvasRenderingContext2D number) :
  getContext canvas = Some ctx ->
  getInputGrid (Some canvas)
  = (rows ← mapM (fun row => mapM (grid_cell canvas ctx row) (seq 0 8))
              (seq 0 8);
     Some (mjoin rows)).
Proof.
  intros Hctx. unfold getInputGrid. rewrite Hctx.
  change (Z.to_nat GRID_SIZE) with 8.
  etrans; [|apply (for_uptoD_app _ 8 0 [])].
  apply for_uptoD_ext. intros row inputGrid.
  etrans; [|apply (for_uptoD_push (grid_cell canvas ctx row) 8 0 inputGrid)].
  apply for_uptoD_ext. intros col a. unfold grid_cell. cbv zeta.
  by destruct (getImageData ctx _ _ _ _).
Qed.

Lemma getInputGrid_cells (canvas : HTMLCanvasElement number)
    (ctx : CanvasRenderingContext2D number) (inputGrid : list number) :
  getContext canvas = Some ctx ->
  getInputGrid (Some canvas) = Some inputGrid ->
  length inputGrid = 64
  /\ forall row col, row < 8 -> col < 8 ->
       exists v,
         grid_cell canvas ctx row col = Some v
         /\ inputGrid !! (row * 8 + col) = Some v.
Proof.
  intros Hctx Hgrid. rewrite (getInputGrid_eq _ _ Hctx) in Hgrid.
  apply bind_Some in Hgrid as (rows & Hrows & [= <-]).
  apply mapM_Some in Hrows.
  assert (Forall (fun cells : list number => length cells = 8) rows)
    as Hlen.
  { apply Forall_forall. intros cells Hcells.
    apply list_elem_of_lookup in Hcells as (row & Hcells).
    destruct (Forall2_lookup_r _ _ _ _ _ Hrows Hcells) as (r & _ & Hr).
    by apply length_mapM in Hr. }
  split.
  - rewrite length_join, (sum_list_fmap_same 8) by done.
    apply Forall2_length in Hrows. rewrite <- Hrows. reflexivity.
  - intros row col Hrow Hcol.
    assert (seq 0 8 !! row = Some row) as Hr by (by apply lookup_seq_lt).
    destruct (Forall2_lookup_l _ _ _ _ _ Hrows Hr) as (cells & Hcells & Hm).
    apply mapM_Some in Hm.
    assert (seq 0 8 !! col = Some col) as Hc by (by apply lookup_seq_lt).
    destruct (Forall2_lookup_l _ _ _ _ _ Hm Hc) as (v & Hv & Hcell).
    exists v. split; [exact Hcell|].
    apply (join_lookup_Some_same_length' 8); [done..|]. by exists cells.
Qed.

Lemma length_getInputGrid (canvas : option (HTMLCanvasElement number))
    (inputGrid : list number) :
  getInputGrid canvas = Some inputGrid -> length inputGrid = 64.
Proof.
  destruct canvas as [canvas|]; [|by intros [= <-]].
  destruct (getContext canvas) as [ctx|] eqn:Hctx.
  - intros Hgrid. by apply (getInputGrid_cells canvas ctx).
  - unfold getInputGrid. rewrite Hctx. by intros [= <-].
Qed.

(** X7.  When [getInputGrid] returns, on a canvas with a 2D
    context, it returns 64 values in row-major order: the value at
    [row * 8 + col] is the value of the cell whose rectangle starts at
    [(col * cellWidth, row * cellHeight)] and has the size
    [cellWidth] by [cellHeight], an eighth of the canvas each way. *)
Theorem input_grid_is_row_major (canvas : HTMLCanvasElement number)
    (ctx : CanvasRenderingContext2D number) (inputGrid : list number) :
  getContext canvas = Some ctx ->
  getInputGrid (Some canvas) = Some inputGrid ->
  length inputGrid = 64
  /\ forall row col, row < 8 -> col < 8 ->
       exists data,
         getImageData ctx
           (num_mul (num_of_Z (Z.of_nat col))
              (num_div (num_of_Z (width canvas)) (num_of_Z 8)))
           (num_mul (num_of_Z (Z.of_nat row))
              (num_div (num_of_Z (height canvas)) (num_of_Z 8)))
           (num_div (num_of_Z (width canvas)) (num_of_Z 8))
           (num_div (num_of_Z (height canvas)) (num_of_Z 8))
         = Some data
         /\ inputGrid !! (row * 8 + col) = Some (cell_value data).
Proof.
  intros Hctx Hgrid.
  destruct (getInputGrid_cells _ _ _ Hctx Hgrid) as [Hlen Hcells].
  split; [done|]. intros row col Hrow Hcol.
  destruct (Hcells row col Hrow Hcol) as (v & Hcell & Hv).
  unfold grid_cell in Hcell.
  apply bind_Some in Hcell as (data & Hdata & [= <-]).
  by exists data.
Qed.

(** X8.  Every grid that [getInputGrid] returns has the
    length the composer asks for: on such a grid the composer runs
    [forwardPropagate], and does not fall back to the zero state, and
    the layer 0 of the state it sets is the grid itself. *)
Theorem canvas_grid_feeds_the_engine
    (canvas : option (HTMLCanvasElement number)) (inputGrid : list number)
    (probabilities : option (list number)) :
  getInputGrid canvas = Some inputGrid ->
  exists local composed,
    forwardPropagate neuralNetEngine inputGrid = Normal local
    /\ composeActivations inputGrid None = Normal local
    /\ composeActivations inputGrid probabilities = Normal composed
    /\ local !! 0 = Some inputGrid
    /\ composed !! 0 = Some inputGrid.
Proof.
  intros Hgrid. apply length_getInputGrid in Hgrid.
  exists (inputGrid :: propagate_from [64; 16; 12; 10]%Z 0 3 inputGrid).
  rewrite composeActivations_absent, neuralNetEngine_propagate by done.
  destruct probabilities as [p|].
  - destruct (decide (length p = 10)) as [Hp|Hp].
    + unfold composeActivations.
      rewrite decide_True, neuralNetEngine_propagate by done.
      cbn [mbind completion_bind]. rewrite decide_True by done.
      by eexists.
    + rewrite composeActivations_malformed, neuralNetEngine_propagate
        by done.
      by eexists.
  - rewrite composeActivations_absent, neuralNetEngine_propagate by done.
    by eexists.
Qed.

End CanvasGrid.

(** ** Exact real arithmetic: the values of the grid *)

Section RealGrid.
Local Open Scope R_scope.

Lemma sample_pixels_rgba
    (pixels : list (Byte.byte * Byte.byte * Byte.byte * Byte.byte))
    (total : Z) :
  sample_pixels (rgba_bytes pixels) total = (total + red_sum pixels)%Z.
Proof.
  revert total. induction pixels as [|p pixels IH]; intros total.
  - cbn. lia.
  - change (rgba_bytes (p :: pixels))
      with (p.1.1.1 :: p.1.1.2 :: p.1.2 :: p.2 :: rgba_bytes pixels).
    cbn [sample_pixels red_sum foldr]. rewrite IH.
    fold (red_sum pixels). lia.
Qed.

Lemma length_rgba_bytes
    (pixels : list (Byte.byte * Byte.byte * Byte.byte * Byte.byte)) :
  length (rgba_bytes pixels) = (4 * length pixels)%nat.
Proof.
  induction pixels as [|p pixels IH]; [done|].
  change (rgba_bytes (p :: pixels))
    with (p.1.1.1 :: p.1.1.2 :: p.1.2 :: p.2 :: rgba_bytes pixels).
  cbn [length]. lia.
Qed.

Lemma sample_pixels_bounds (n : nat) (data : list Byte.byte) (total : Z) :
  (length data <= n)%nat ->
  (total <= sample_pixels data total)%Z.
Proof.
  revert data total.
  induction n as [|n IH]; intros data total Hn.
  - destruct data; [cbn; lia|cbn in Hn; lia].
  - destruct data as [|r [|g [|b [|a data]]]]; cbn [sample_pixels];
      [lia|try (pose proof (N2Z.is_nonneg (Byte.to_N r)); lia)..].
    pose proof (IH data (total + Z.of_N (Byte.to_N r))%Z) as Hrest.
    cbn [length] in Hn.
    pose proof (N2Z.is_nonneg (Byte.to_N r)). lia.
Qed.

Lemma cell_value_R (data : list Byte.byte) :
  cell_value data
  = Rmin 1 (IZR (sample_pixels data 0) / (INR (length data) / 4) / 100).
Proof. unfold cell_value. cbn. by rewrite <- INR_IZR_INZ. Qed.

Lemma cell_value_range (data : list Byte.byte) :
  data <> [] -> 0 <= cell_value data <= 1.
Proof.
  intros Hdata. rewrite cell_value_R. split; [|apply Rmin_l].
  apply Rmin_glb; [lra|].
  assert (0 < INR (length data)) as Hlen.
  { apply lt_0_INR. destruct data; [done|cbn; lia]. }
  assert (0 <= IZR (sample_pixels data 0)) as Htotal.
  { apply IZR_le. by apply (sample_pixels_bounds (length data)). }
  apply Rle_mult_inv_pos; [|lra].
  apply Rle_mult_inv_pos; [done|lra].
Qed.

(** X9.  In exact real arithmetic every value of a grid that
    [getInputGrid] returns lies in [[0, 1]], provided that no rectangle
    read from the canvas is empty.  (In binary64 the value of an empty
    rectangle is [NaN]: [ieee_empty_cell_is_NaN].) *)
Theorem grid_values_in_unit_interval
    (canvas : option (HTMLCanvasElement R)) (inputGrid : list R) (v : R) :
  (forall c ctx sx sy sw sh,
     canvas = Some c -> getContext c = Some ctx ->
     getImageData ctx sx sy sw sh <> Some []) ->
  getInputGrid canvas = Some inputGrid -> v ∈ inputGrid ->
  0 <= v <= 1.
Proof.
  intros Hdata Hgrid Hv.
  assert (v ∈ replicate (Z.to_nat (GRID_SIZE * GRID_SIZE)) (IZR 0) ->
          0 <= v <= 1) as Hzero.
  { intros Hin. apply elem_of_replicate in Hin as [-> _]. lra. }
  destruct canvas as [canvas|]; [|injection Hgrid as <-; by apply Hzero].
  destruct (getContext canvas) as [ctx|] eqn:Hctx.
  - destruct (getInputGrid_cells _ _ _ Hctx Hgrid) as [Hlen Hcells].
    apply list_elem_of_lookup in Hv as (idx & Hv).
    assert (idx < 64)%nat as Hidx.
    { apply lookup_lt_Some in Hv. lia. }
    destruct (Hcells (idx / 8)%nat (idx mod 8)%nat) as (v' & Hcell & Hv');
      [apply Nat.Div0.div_lt_upper_bound; lia
      |apply Nat.mod_upper_bound; lia|].
    replace (idx / 8 * 8 + idx mod 8)%nat with idx in Hv'
      by (pose proof (Nat.div_mod_eq idx 8); lia).
    rewrite Hv in Hv'. injection Hv' as <-.
    unfold grid_cell in Hcell.
    apply bind_Some in Hcell as (data & Hget & [= <-]).
    apply cell_value_range. intros ->. by eapply Hdata.
  - unfold getInputGrid in Hgrid. rewrite Hctx in Hgrid.
    injection Hgrid as <-. by apply Hzero.
Qed.

(** X10.  In exact real arithmetic the value of a cell is
    [min(1, m / 100)], with [m] the mean of the red bytes of its
    pixels: 0 for a cell without red, and exactly 1 as soon as the
    mean is 100 or more. *)
Theorem cell_value_is_clamped_red_mean
    (pixels : list (Byte.byte * Byte.byte * Byte.byte * Byte.byte)) :
  pixels <> [] ->
  cell_value (rgba_bytes pixels)
  = Rmin 1 (IZR (red_sum pixels) / INR (length pixels) / 100)
  /\ (red_sum pixels = 0%Z -> cell_value (rgba_bytes pixels) = 0)
  /\ ((100 * Z.of_nat (length pixels) <= red_sum pixels)%Z ->
      cell_value (rgba_bytes pixels) = 1).
Proof.
  intros Hpixels.
  assert (0 < INR (length pixels)) as Hlen.
  { apply lt_0_INR. destruct pixels; [done|cbn; lia]. }
  assert (cell_value (rgba_bytes pixels)
          = Rmin 1 (IZR (red_sum pixels) / INR (length pixels) / 100))
    as Heq.
  { rewrite cell_value_R, sample_pixels_rgba, length_rgba_bytes.
    rewrite Z.add_0_l, mult_INR. cbn [INR]. f_equal. field. lra. }
  split; [done|]. rewrite Heq. split.
  - intros ->. unfold Rdiv. rewrite !Rmult_0_l. apply Rmin_right. lra.
  - intros Hbright. apply Rmin_left.
    apply IZR_le in Hbright. rewrite mult_IZR, <- INR_IZR_INZ in Hbright.
    apply (Rmult_le_reg_r 100); [lra|].
    apply (Rmult_le_reg_r (INR (length pixels))); [done|].
    replace (IZR (red_sum pixels) / INR (length pixels) / 100 * 100
             * INR (length pixels))
      with (IZR (red_sum pixels)) by (field; lra).
    lra.
Qed.

End RealGrid.

(** ** IEEE-754 arithmetic: the value of a cell *)

Section Binary64Grid.
Variable M : ESMath.

(** An empty rectangle has no pixel: its mean is [0 / 0]. *)
Lemma ieee_empty_cell_is_NaN :
  PrimFloat.is_nan (cell_value (A := IEEE M) []) = true.
Proof. reflexivity. Qed.

(** A pixel of red 200 saturates its cell. *)
Lemma ieee_bright_cell_is_1 :
  cell_value (A := IEEE M) sample_pixel = 1%float.
Proof. reflexivity. Qed.

End Binary64Grid.

(** ** Node ids *)

Section Ids.

Lemma append_assoc (s1 s2 s3 : string) :
  String.append (String.append s1 s2) s3
  = String.append s1 (String.append s2 s3).
Proof. induction s1 as [|c s1 IH]; cbn; [done|by rewrite IH]. Qed.

Lemma append_empty (s : string) : String.append s String.EmptyString = s.
Proof. induction s as [|c s IH]; cbn; [done|by rewrite IH]. Qed.

(** The scan passes over decimal digits. *)
Lemma split_from_digits (d : Decimal.uint) (rest current : string) :
  split_from "-n"
    (String.append (DecimalString.NilEmpty.string_of_uint d) rest) 0 current
  = split_from "-n" rest 0
      (String.append current (DecimalString.NilEmpty.string_of_uint d)).
Proof.
  revert current.
  induction d as [|d IH|d IH|d IH|d IH|d IH|d IH|d IH|d IH|d IH|d IH];
    intros current;
    [cbn [DecimalString.NilEmpty.string_of_uint String.append];
     by rewrite append_empty|..];
    cbn [DecimalString.NilEmpty.string_of_uint String.append split_from];
    (change (String.prefix "-n" (String.String ?c ?s)) with false);
    cbv iota; rewrite IH, append_assoc; reflexivity.
Qed.

Lemma split_from_decimal (n : nat) (rest current : string) :
  split_from "-n" (String.append (Number_toString n) rest) 0 current
  = split_from "-n" rest 0 (String.append current (Number_toString n)).
Proof.
  unfold Number_toString, DecimalString.NilZero.string_of_uint.
  destruct (Nat.to_uint n); try apply split_from_digits.
  reflexivity.
Qed.

Lemma split_from_separator (s current : string) :
  split_from "-n" (String.String "-" (String.String "n" s)) 0 current
  = current :: split_from "-n" s 0 "".
Proof. destruct s; reflexivity. Qed.

(** The two pieces of a node id. *)
Lemma split_node_id (layerIndex i : nat) :
  split (node_id layerIndex i) "-n"
  = [String.append "l" (Number_toString layerIndex); Number_toString i].
Proof.
  unfold split, node_id.
  change (split_from "-n" (String.append "l" ?s) 0 "")
    with (split_from "-n" s 0 "l").
  rewrite split_from_decimal.
  change (String.append "-n" ?s)
    with (String.String "-" (String.String "n" s)).
  rewrite split_from_separator.
  rewrite <- (append_empty (Number_toString i)) at 1.
  rewrite split_from_decimal. reflexivity.
Qed.

Lemma parse_digits_uint (d : Decimal.uint) (acc : nat) :
  parse_digits 10 (DecimalString.NilEmpty.string_of_uint d)
    (Some (Z.of_nat acc))
  = Some (Z.of_nat (Nat.of_uint_acc d acc)).
Proof.
  revert acc.
  induction d as [|d IH|d IH|d IH|d IH|d IH|d IH|d IH|d IH|d IH|d IH];
    intros acc; [reflexivity|..];
    cbn [DecimalString.NilEmpty.string_of_uint parse_digits Nat.of_uint_acc];
    match goal with
    | |- context [digit_value ?c] =>
        let v := eval vm_compute in (digit_value c) in
        change (digit_value c) with v
    end;
    cbv iota beta;
    match goal with
    | |- context [(?a <? 10)%Z] => change (a <? 10)%Z with true
    end;
    cbv iota; rewrite <- IH; do 2 f_equal;
    rewrite Nat.tail_mul_spec; change (default 0%Z (Some ?z)) with z; lia.
Qed.

Lemma parse_digits_start (d : Decimal.uint) :
  d <> Decimal.Nil ->
  parse_digits 10 (DecimalString.NilEmpty.string_of_uint d) None
  = Some (Z.of_nat (Nat.of_uint d)).
Proof.
  intros Hd. unfold Nat.of_uint. rewrite <- parse_digits_uint.
  destruct d; [done|reflexivity..].
Qed.

(** A decimal numeral has no white space, no sign and no [0x]. *)
Lemma parseInt_digits (d : Decimal.uint) :
  d <> Decimal.Nil ->
  parseInt (DecimalString.NilEmpty.string_of_uint d)
  = parse_digits 10 (DecimalString.NilEmpty.string_of_uint d) None
      ≫= fun z => Some (1 * z)%Z.
Proof.
  intros Hd. destruct d as [|d|d|d|d|d|d|d|d|d|d]; [done|..];
    try reflexivity.
  destruct d; reflexivity.
Qed.

Lemma parseInt_Number_toString (n : nat) :
  parseInt (Number_toString n) = Some (Z.of_nat n).
Proof.
  unfold Number_toString, DecimalString.NilZero.string_of_uint.
  pose proof (DecimalNat.Unsigned.of_to n) as Hn.
  destruct (Nat.to_uint n) eqn:Hd;
    [by rewrite <- Hn|
     rewrite parseInt_digits, parse_digits_start by done;
     cbn [mbind option_bind]; rewrite Hn; f_equal; lia..].
Qed.

Lemma Number_toString_inj (n m : nat) :
  Number_toString n = Number_toString m -> n = m.
Proof.
  intros Heq. apply (f_equal parseInt) in Heq.
  rewrite !parseInt_Number_toString in Heq. injection Heq. lia.
Qed.

Lemma node_id_inj (layerIndex i layerIndex' i' : nat) :
  node_id layerIndex i = node_id layerIndex' i' ->
  layerIndex = layerIndex' /\ i = i'.
Proof.
  intros Heq. apply (f_equal (fun s => split s "-n")) in Heq.
  rewrite !split_node_id in Heq. injection Heq as HL Hi.
  split; by apply Number_toString_inj.
Qed.

Lemma parseInt_node_id (layerIndex i : nat) :
  parseInt_at (split (node_id layerIndex i) "-n") 1 = Some (Z.of_nat i).
Proof.
  rewrite split_node_id. unfold parseInt_at. cbn [lookup list_lookup].
  apply parseInt_Number_toString.
Qed.

End Ids.

(** ** The nodes of the view *)

Section Nodes.
Context {number : Type} {A : Arith number}.

Lemma layer_nodes_eq (layerSizes : list Z) (size : Z) (layerIndex : nat)
    (nodeList : list (NeuralNode.t number)) :
  layer_nodes layerSizes size layerIndex nodeList
  = nodeList
    ++ map (node_at layerSizes size layerIndex) (seq 0 (Z.to_nat size)).
Proof.
  unfold layer_nodes.
  apply (for_upto_push (node_at layerSizes size layerIndex)).
Qed.

Lemma forEach_layer_nodes (layerSizes sizes : list Z) (layerIndex : nat)
    (nodeList : list (NeuralNode.t number)) :
  forEach sizes layerIndex (layer_nodes layerSizes) nodeList
  = nodeList ++ nodes_from layerSizes sizes layerIndex.
Proof.
  revert layerIndex nodeList.
  induction sizes as [|size sizes IH]; intros layerIndex nodeList;
    cbn [forEach nodes_from].
  - by rewrite app_nil_r.
  - rewrite IH, layer_nodes_eq. by rewrite app_assoc.
Qed.

Lemma nodes_eq (layerSizes : list Z) :
  nodes layerSizes = nodes_from layerSizes layerSizes 0.
Proof. apply (forEach_layer_nodes layerSizes layerSizes 0 []). Qed.

Lemma length_nodes_from (layerSizes sizes : list Z) (layerIndex : nat) :
  length (nodes_from layerSizes sizes layerIndex)
  = sum_list (map Z.to_nat sizes).
Proof.
  revert layerIndex.
  induction sizes as [|size sizes IH]; intros layerIndex; [done|].
  cbn [nodes_from map sum_list]. fold (sum_list (map Z.to_nat sizes)).
  by rewrite length_app, length_map, length_seq, IH.
Qed.

Lemma elem_of_nodes_from (layerSizes sizes : list Z) (layerIndex : nat)
    (node : NeuralNode.t number) :
  node ∈ nodes_from layerSizes sizes layerIndex
  <-> exists k size i,
        sizes !! k = Some size /\ i < Z.to_nat size
        /\ node = node_at layerSizes size (layerIndex + k) i.
Proof.
  revert layerIndex.
  induction sizes as [|size sizes IH]; intros layerIndex; cbn [nodes_from].
  - split; [by intros ?%elem_of_nil|]. by intros (k & ? & ? & ? & _).
  - rewrite elem_of_app, IH, list_elem_of_fmap. split.
    + intros [(i & -> & Hi)|(k & size' & i & Hk & Hi & ->)].
      * apply elem_of_seq in Hi. exists 0, size, i.
        rewrite Nat.add_0_r. split; [done|]. split; [lia|done].
      * exists (S k), size', i. rewrite Nat.add_succ_r. done.
    + intros ([|k] & size' & i & Hk & Hi & ->).
      * injection Hk as <-. left. exists i. rewrite Nat.add_0_r.
        split; [done|]. apply elem_of_seq. lia.
      * right. exists k, size', i. rewrite Nat.add_succ_r. done.
Qed.

Lemma find_app {X : Type} (p : X -> bool) (l k : list X) :
  List.find p (l ++ k)
  = match List.find p l with
    | Some x => Some x
    | None => List.find p k
    end.
Proof.
  induction l as [|x l IH]; cbn; [done|]. by destruct (p x).
Qed.

(** Searching the nodes of one layer for an id. *)
Lemma find_in_layer (layerSizes : list Z) (size : Z)
    (layerIndex' layerIndex i count start : nat) :
  List.find (fun n => String.eqb (NeuralNode.id n) (node_id layerIndex i))
    (map (node_at layerSizes size layerIndex') (seq start count))
  = if decide (layerIndex' = layerIndex /\ start <= i < start + count)
    then Some (node_at layerSizes size layerIndex' i)
    else None.
Proof.
  revert start. induction count as [|count IH]; intros start.
  - cbn. rewrite decide_False; [done|lia].
  - cbn [seq map List.find NeuralNode.id node_at].
    destruct (String.eqb (node_id layerIndex' start) (node_id layerIndex i))
      eqn:Heq.
    + apply String.eqb_eq in Heq. apply node_id_inj in Heq as [-> ->].
      rewrite decide_True; [done|lia].
    + rewrite IH. apply String.eqb_neq in Heq.
      destruct (decide (layerIndex' = layerIndex
                        /\ S start <= i < S start + count))
        as [[-> Hi]|Hno].
      * rewrite decide_True; [done|lia].
      * rewrite decide_False; [done|].
        intros [-> Hi]. destruct (decide (i = start)) as [->|Hne]; [done|].
        apply Hno. lia.
Qed.

Lemma find_nodes_from (layerSizes sizes : list Z) (start layerIndex i : nat) :
  List.find (fun n => String.eqb (NeuralNode.id n) (node_id layerIndex i))
    (nodes_from layerSizes sizes start)
  = if decide (start <= layerIndex)
    then size ← sizes !! (layerIndex - start);
         if decide (i < Z.to_nat size)
         then Some (node_at layerSizes size layerIndex i)
         else None
    else None.
Proof.
  revert start.
  induction sizes as [|size sizes IH]; intros start; cbn [nodes_from].
  - cbn. by destruct (decide (start <= layerIndex)).
  - rewrite find_app, find_in_layer, IH.
    destruct (decide (start = layerIndex)) as [->|Hne].
    + rewrite Nat.sub_diag. cbn [lookup list_lookup mbind option_bind].
      rewrite (decide_True (P := layerIndex <= layerIndex)) by lia.
      rewrite (decide_False (P := S layerIndex <= layerIndex)) by lia.
      destruct (decide (i < Z.to_nat size)).
      * rewrite decide_True; [done|lia].
      * rewrite decide_False; [done|lia].
    + rewrite decide_False by lia.
      destruct (decide (S start <= layerIndex)).
      * rewrite decide_True by lia.
        replace (layerIndex - start) with (S (layerIndex - S start)) by lia.
        done.
      * rewrite decide_False by lia. done.
Qed.

Lemma find_nodes (layerSizes : list Z) (layerIndex i : nat) :
  List.find (fun n => String.eqb (NeuralNode.id n) (node_id layerIndex i))
    (nodes layerSizes)
  = (size ← layerSizes !! layerIndex;
     if decide (i < Z.to_nat size)
     then Some (node_at layerSizes size layerIndex i)
     else None).
Proof.
  rewrite nodes_eq, find_nodes_from, decide_True by lia.
  by rewrite Nat.sub_0_r.
Qed.

(** In terms of [size_at]. *)
Lemma find_nodes_size_at (layerSizes : list Z) (layerIndex i : nat) :
  List.find (fun n => String.eqb (NeuralNode.id n) (node_id layerIndex i))
    (nodes layerSizes)
  = if decide (i < Z.to_nat (size_at layerSizes layerIndex))
    then Some (node_at layerSizes (size_at layerSizes layerIndex)
                 layerIndex i)
    else None.
Proof.
  rewrite find_nodes. unfold size_at.
  destruct (layerSizes !! layerIndex) as [size|]; [done|].
  cbn. rewrite decide_False; [done|lia].
Qed.

End Nodes.

(** ** The connections *)

Section ConnectionProofs.
Context {number : Type} {A : Arith number} {C : Compare number}.

Lemma target_loop_eq (layerSizes : list Z) (predictedDigit : option number)
    (l i : nat) (sourceVal : number) (count start : nat)
    (lines : list (Line.t number)) :
  start + count <= Z.to_nat (size_at layerSizes (l + 1)) ->
  for_upto start count
    (target_step layerSizes (nodes layerSizes) predictedDigit l i sourceVal
       (node_at layerSizes (size_at layerSizes l) l i))
    lines
  = lines
    ++ map (connection layerSizes predictedDigit l i sourceVal)
         (seq start count).
Proof.
  revert start lines.
  induction count as [|count IH]; intros start lines Hle;
    cbn [for_upto seq map].
  - by rewrite app_nil_r.
  - rewrite IH by lia. unfold target_step, find_node.
    rewrite find_nodes_size_at, decide_True by lia.
    unfold push. by rewrite <- app_assoc.
Qed.

Lemma source_loop_eq (layerSizes : list Z) (predictedDigit : option number)
    (l : nat) (sourceLayer : list number) (i : nat)
    (lines : list (Line.t number)) :
  forEach sourceLayer i
    (source_step layerSizes (nodes layerSizes) predictedDigit l) lines
  = lines ++ source_connections layerSizes predictedDigit l sourceLayer i.
Proof.
  revert i lines.
  induction sourceLayer as [|sourceVal sourceLayer IH]; intros i lines;
    cbn [forEach source_connections].
  - by rewrite app_nil_r.
  - rewrite IH. unfold source_step, find_node.
    destruct (num_ltb sourceVal num_0_05); [done|].
    rewrite find_nodes_size_at.
    destruct (decide (i < Z.to_nat (size_at layerSizes l))); [|done].
    rewrite target_loop_eq by lia. by rewrite <- app_assoc.
Qed.

Lemma connection_loop_eq (layerSizes : list Z)
    (activations : list (list number)) (predictedDigit : option number)
    (count l : nat) (lines : list (Line.t number)) :
  l + count <= length activations ->
  for_uptoM l count
    (connection_layer_step layerSizes (nodes layerSizes) activations
       predictedDigit)
    lines
  = Normal
      (lines
       ++ connections_from layerSizes predictedDigit activations l count).
Proof.
  revert l lines.
  induction count as [|count IH]; intros l lines Hle;
    cbn [for_uptoM connections_from].
  - by rewrite app_nil_r.
  - unfold connection_layer_step at 1.
    destruct (lookup_lt_is_Some_2 activations l) as [sourceLayer Hl];
      [lia|].
    rewrite Hl, source_loop_eq, IH by lia. cbn [default from_option].
    by rewrite <- app_assoc.
Qed.

Lemma elem_of_source_connections (layerSizes : list Z)
    (predictedDigit : option number) (l : nat) (sourceLayer : list number)
    (start : nat) (line : Line.t number) :
  line ∈ source_connections layerSizes predictedDigit l sourceLayer start
  <-> exists k sourceVal j,
        sourceLayer !! k = Some sourceVal
        /\ num_ltb sourceVal num_0_05 = false
        /\ start + k < Z.to_nat (size_at layerSizes l)
        /\ j < Z.to_nat (size_at layerSizes (l + 1))
        /\ line = connection layerSizes predictedDigit l (start + k)
                    sourceVal j.
Proof.
  revert start.
  induction sourceLayer as [|v sourceLayer IH]; intros start;
    cbn [source_connections].
  - split; [by intros ?%elem_of_nil|]. by intros (k & ? & ? & ? & _).
  - rewrite elem_of_app, IH. split.
    + intros [Hhere|(k & v' & j & Hk & Hv & Hi & Hj & ->)].
      * destruct (num_ltb v num_0_05) eqn:Hv;
          [by apply elem_of_nil in Hhere|].
        destruct (decide (start < Z.to_nat (size_at layerSizes l)));
          [|by apply elem_of_nil in Hhere].
        apply list_elem_of_fmap in Hhere as (j & -> & Hj).
        apply elem_of_seq in Hj. exists 0, v, j.
        rewrite Nat.add_0_r. repeat split; (done || lia).
      * exists (S k), v', j. rewrite Nat.add_succ_r.
        repeat split; done.
    + intros ([|k] & v' & j & Hk & Hv & Hi & Hj & ->).
      * injection Hk as <-. left. rewrite Nat.add_0_r in *.
        rewrite Hv, decide_True by done.
        apply list_elem_of_fmap. exists j. split; [done|].
        apply elem_of_seq. lia.
      * right. exists k, v', j.
        replace (S start + k) with (start + S k) by lia.
        repeat split; done.
Qed.

Lemma elem_of_connections_from (layerSizes : list Z)
    (predictedDigit : option number) (activations : list (list number))
    (count start : nat) (line : Line.t number) :
  line ∈ connections_from layerSizes predictedDigit activations start count
  <-> exists l i j sourceLayer sourceVal,
        start <= l < start + count
        /\ activations !! l = Some sourceLayer
        /\ sourceLayer !! i = Some sourceVal
        /\ num_ltb sourceVal num_0_05 = false
        /\ i < Z.to_nat (size_at layerSizes l)
        /\ j < Z.to_nat (size_at layerSizes (l + 1))
        /\ line = connection layerSizes predictedDigit l i sourceVal j.
Proof.
  revert start.
  induction count as [|count IH]; intros start; cbn [connections_from].
  - split; [by intros ?%elem_of_nil|].
    intros (l & ? & ? & ? & ? & ? & _). lia.
  - rewrite elem_of_app, IH, elem_of_source_connections. split.
    + intros [(k & v & j & Hk & Hv & Hi & Hj & ->)
             |(l & i & j & src & v & Hl & Hsrc & Hi & Hv & ? & ? & ->)].
      * destruct (activations !! start) as [src|] eqn:Hsrc;
          [|by cbn in Hk].
        exists start, k, j, src, v. repeat split; (done || lia).
      * exists l, i, j, src, v. repeat split; (done || lia).
    + intros (l & i & j & src & v & Hl & Hsrc & Hi & Hv & ? & ? & ->).
      destruct (decide (l = start)) as [->|Hne].
      * left. exists i, v, j. rewrite Hsrc. repeat split; done.
      * right. exists l, i, j, src, v. repeat split; (done || lia).
Qed.

(** What [renderConnections] returns on any state that has a vector for
    each layer but the last. *)
Lemma renderConnections_eq (layerSizes : list Z)
    (activations : list (list number)) (predictedDigit : option number) :
  activations <> [] -> length layerSizes - 1 <= length activations ->
  renderConnections layerSizes (nodes layerSizes) activations predictedDigit
  = Normal
      (Some (connections_from layerSizes predictedDigit activations 0
               (length layerSizes - 1))).
Proof.
  intros Hne Hlen. unfold renderConnections.
  rewrite decide_False by (by destruct activations).
  by rewrite connection_loop_eq.
Qed.

(** X16.  On a state with a vector for each layer but the last,
    at least, [renderConnections] returns a list of lines without
    throwing, and the list holds a line exactly for each source whose
    activation is not below 0.05 and which is a node of its layer, and
    each node of the next layer: weak signals are culled, nothing else
    is. *)
Theorem connections_drawn (layerSizes : list Z)
    (activations : list (list number)) (predictedDigit : option number) :
  activations <> [] -> length layerSizes - 1 <= length activations ->
  exists lines,
    renderConnections layerSizes (nodes layerSizes) activations
      predictedDigit
    = Normal (Some lines)
    /\ forall line,
         line ∈ lines
         <-> exists l i j sourceLayer sourceVal,
               l + 1 < length layerSizes
               /\ activations !! l = Some sourceLayer
               /\ sourceLayer !! i = Some sourceVal
               /\ num_ltb sourceVal num_0_05 = false
               /\ i < Z.to_nat (size_at layerSizes l)
               /\ j < Z.to_nat (size_at layerSizes (l + 1))
               /\ line = connection layerSizes predictedDigit l i
                           sourceVal j.
Proof.
  intros Hne Hlen. eexists. split; [by apply renderConnections_eq|].
  intros line. rewrite elem_of_connections_from. split.
  - intros (l & i & j & src & v & Hl & H). exists l, i, j, src, v.
    split; [lia|done].
  - intros (l & i & j & src & v & Hl & H). exists l, i, j, src, v.
    split; [lia|done].
Qed.

Lemma length_source_connections (layerSizes : list Z)
    (predictedDigit : option number) (l : nat) (sourceLayer : list number)
    (start : nat) :
  length (source_connections layerSizes predictedDigit l sourceLayer start)
  <= length sourceLayer * Z.to_nat (size_at layerSizes (l + 1)).
Proof.
  revert start.
  induction sourceLayer as [|v sourceLayer IH]; intros start;
    cbn [source_connections length]; [lia|].
  rewrite length_app. specialize (IH (S start)).
  destruct (num_ltb v num_0_05); [cbn [length]; lia|].
  destruct (decide (start < Z.to_nat (size_at layerSizes l)));
    [|cbn [length]; lia].
  rewrite length_map, length_seq. lia.
Qed.

(** X17.  On every state that the composer sets,
    [renderConnections] returns a list of lines, without throwing; it
    has at most [64 * 16 + 16 * 12 + 12 * 10] lines. *)
Theorem view_draws_every_composed_state (inputActivations : list number)
    (probabilities : option (list number)) (predictedDigit : option number) :
  exists state lines,
    composeActivations inputActivations probabilities = Normal state
    /\ renderConnections (getLayerConfig neuralNetEngine)
         (nodes (getLayerConfig neuralNetEngine)) state predictedDigit
       = Normal (Some lines)
    /\ length lines <= 64 * 16 + 16 * 12 + 12 * 10.
Proof.
  destruct (composeActivations_shape inputActivations probabilities)
    as (state & Hstate & Hshape).
  rewrite neuralNetEngine_config.
  destruct state as [|a [|b [|c [|d [|? ?]]]]]; try done.
  injection Hshape as Ha Hb Hc Hd.
  eexists _, _. split; [done|].
  split; [apply renderConnections_eq; [done|cbn; lia]|].
  cbn [length Nat.sub connections_from lookup list_lookup].
  cbv [default from_option Datatypes.id]. rewrite !length_app.
  pose proof (length_source_connections [64; 16; 12; 10]%Z predictedDigit
                0 a 0).
  pose proof (length_source_connections [64; 16; 12; 10]%Z predictedDigit
                1 b 0).
  pose proof (length_source_connections [64; 16; 12; 10]%Z predictedDigit
                2 c 0).
  change (Z.to_nat (size_at [64; 16; 12; 10]%Z (0 + 1))) with 16 in *.
  change (Z.to_nat (size_at [64; 16; 12; 10]%Z (1 + 1))) with 12 in *.
  change (Z.to_nat (size_at [64; 16; 12; 10]%Z (2 + 1))) with 10 in *.
  cbn [length]. lia.
Qed.

End ConnectionProofs.

(** ** The circles *)

Section CircleProofs.
Context {number : Type} {A : Arith number} {C : Compare number}.

Lemma element_at_index (a : list number) (i : nat) :
  element_at a (Some (Z.of_nat i)) = a !! i.
Proof.
  unfold element_at. destruct (Z.ltb_spec (Z.of_nat i) 0); [lia|].
  by rewrite Nat2Z.id.
Qed.

Lemma is_output_spec (layerSizes : list Z) (layerIndex : nat) :
  (Z.of_nat layerIndex =? Z.of_nat (length layerSizes) - 1)%Z
  = Nat.eqb (Datatypes.S layerIndex) (length layerSizes).
Proof.
  destruct (Z.eqb_spec (Z.of_nat layerIndex)
              (Z.of_nat (length layerSizes) - 1)),
    (Nat.eqb_spec (Datatypes.S layerIndex) (length layerSizes)); lia || done.
Qed.

(** The circle of the node [i] of the layer [layerIndex], with the
    index read back from the id. *)
Lemma render_node_at (layerSizes : list Z)
    (activations : list (list number)) (predictedDigit : option number)
    (size : Z) (layerIndex i : nat) :
  let node := node_at layerSizes size layerIndex i in
  let val :=
    or_0 (match activations !! layerIndex with
          | Some layerVals => layerVals !! i
          | None => Some (num_of_Z 0)
          end) in
  let isOutput := Nat.eqb (Datatypes.S layerIndex) (length layerSizes) in
  let isWinning :=
    (isOutput && is_predicted (Z.of_nat i) predictedDigit)%bool in
  render_node layerSizes activations predictedDigit node
  = Circle.mk (NeuralNode.x node) (NeuralNode.y node)
      (if isWinning then 10 else if isOutput then 6
       else if Nat.eqb layerIndex 0 then 2 else 5)%Z
      (if num_ltb num_0_1 val
       then if isWinning then fill_winning
            else if isOutput then fill_output val
            else fill_hidden val
       else fill_inactive)
      (num_ltb num_0_5 val)
      (if isOutput then Some (Some (Z.of_nat i)) else None)
      isWinning.
Proof.
  cbv zeta. unfold render_node.
  change (NeuralNode.id (node_at layerSizes size layerIndex i))
    with (node_id layerIndex i).
  change (NeuralNode.layer (node_at layerSizes size layerIndex i))
    with layerIndex.
  rewrite parseInt_node_id, is_output_spec.
  assert (match activations !! layerIndex with
          | Some layerVals => element_at layerVals (Some (Z.of_nat i))
          | None => Some (num_of_Z 0)
          end
          = match activations !! layerIndex with
            | Some layerVals => layerVals !! i
            | None => Some (num_of_Z 0)
            end) as ->.
  { destruct (activations !! layerIndex); [apply element_at_index|done]. }
  unfold is_predicted.
  destruct (Nat.eqb (Datatypes.S layerIndex) (length layerSizes)),
    predictedDigit as [d|]; reflexivity.
Qed.

End CircleProofs.

(** ** Exact real arithmetic: the winning node *)

Section RealCircles.
Local Open Scope R_scope.

Lemma num_eqb_R (x y : R) : num_eqb x y = true <-> x = y.
Proof. cbn. by destruct (Req_dec_T x y). Qed.

Lemma num_ltb_R (x y : R) : num_ltb x y = true <-> x < y.
Proof. cbn. by destruct (Rlt_dec x y). Qed.

(** X18.  In exact real arithmetic the circle of the node [i]
    of the layer [layerIndex] is the winning one exactly when the
    layer is the last one and [predictedDigit] is the number [i]: at
    most one node wins, and none when [predictedDigit] is [null],
    negative or not an integer.  The radius is 10 for the winning
    node, otherwise 6 for an output node, otherwise 2 for an input node
    and 5 for a hidden one; the label of an output node is its
    index. *)
Theorem at_most_one_node_wins (layerSizes : list Z)
    (activations : list (list R)) (predictedDigit : option R) (size : Z)
    (layerIndex i : nat) :
  let circle :=
    render_node layerSizes activations predictedDigit
      (node_at layerSizes size layerIndex i) in
  (Circle.winning circle = true
   <-> Datatypes.S layerIndex = length layerSizes
       /\ predictedDigit = Some (IZR (Z.of_nat i)))
  /\ Circle.r circle
     = (if Circle.winning circle then 10
        else if Nat.eqb (Datatypes.S layerIndex) (length layerSizes) then 6
        else if Nat.eqb layerIndex 0 then 2 else 5)%Z
  /\ Circle.label circle
     = if Nat.eqb (Datatypes.S layerIndex) (length layerSizes)
       then Some (Some (Z.of_nat i)) else None.
Proof.
  cbv zeta. rewrite render_node_at. cbv zeta.
  cbn [Circle.winning Circle.r Circle.label].
  split; [|done]. rewrite andb_true_iff, Nat.eqb_eq.
  apply and_iff_compat_l. unfold is_predicted.
  destruct predictedDigit as [d|]; [|done].
  rewrite num_eqb_R. cbn [num_of_Z RArith]. split; [by intros ->|].
  by intros [= ->].
Qed.

End RealCircles.

(** ** The nodes and their circles *)

Section NodeViews.
Context {number : Type} {A : Arith number} {C : Compare number}.

Lemma elem_of_nodes (layerSizes : list Z) (node : NeuralNode.t number) :
  node ∈ nodes layerSizes
  <-> exists layerIndex size i,
        layerSizes !! layerIndex = Some size /\ i < Z.to_nat size
        /\ node = node_at layerSizes size layerIndex i.
Proof. rewrite nodes_eq. apply elem_of_nodes_from. Qed.

(** X11.  [nodes] holds one node for each index of each layer
    and nothing else, as many as the sizes add up to: 102 for the
    topology of the singleton engine. *)
Theorem nodes_enumerate_the_layers (layerSizes : list Z) :
  length (nodes layerSizes) = sum_list (map Z.to_nat layerSizes)
  /\ (forall node : NeuralNode.t number,
        node ∈ nodes layerSizes
        <-> exists layerIndex size i,
              layerSizes !! layerIndex = Some size /\ i < Z.to_nat size
              /\ node = node_at layerSizes size layerIndex i)
  /\ length (nodes (getLayerConfig neuralNetEngine)) = 102.
Proof.
  split; [|split].
  - rewrite nodes_eq. apply length_nodes_from.
  - apply elem_of_nodes.
  - rewrite neuralNetEngine_config, nodes_eq, length_nodes_from.
    reflexivity.
Qed.

(** X12.  Node ids are unique.  [nodes.find] by the id
    [`l${layerIndex}-n${i}`] returns the node [i] of the layer
    [layerIndex] when that layer has such a node, and [undefined]
    otherwise; and two ids are equal only for the same layer and the
    same index. *)
Theorem node_ids_are_unique (layerSizes : list Z) (layerIndex i : nat) :
  find_node (nodes layerSizes) (node_id layerIndex i)
  = (size ← layerSizes !! layerIndex;
     if decide (i < Z.to_nat size)
     then Some (node_at layerSizes size layerIndex i)
     else None)
  /\ forall layerIndex' i',
       node_id layerIndex' i' = node_id layerIndex i ->
       layerIndex' = layerIndex /\ i' = i.
Proof.
  split; [apply find_nodes|]. intros layerIndex' i'. apply node_id_inj.
Qed.

(** X13.  For every node of [nodes],
    [parseInt(node.id.split('-n')[1])] is the index [i] of the node in
    its layer, so that its circle is drawn from the activation of that
    very node, [activations[node.layer][i]] (0 when there is none): it
    glows when that value is above 0.5, and it is inactive exactly when
    that value is not above 0.1. *)
Theorem node_shows_its_own_activation (layerSizes : list Z)
    (activations : list (list number)) (predictedDigit : option number)
    (node : NeuralNode.t number) :
  node ∈ nodes layerSizes ->
  exists size i,
    layerSizes !! NeuralNode.layer node = Some size
    /\ i < Z.to_nat size
    /\ NeuralNode.id node = node_id (NeuralNode.layer node) i
    /\ parseInt_at (split (NeuralNode.id node) "-n") 1 = Some (Z.of_nat i)
    /\ let val :=
         or_0 (match activations !! NeuralNode.layer node with
               | Some layerVals => layerVals !! i
               | None => Some (num_of_Z 0)
               end) in
       let circle := render_node layerSizes activations predictedDigit node in
       Circle.glow circle = num_ltb num_0_5 val
       /\ (Circle.fill circle = fill_inactive
           <-> num_ltb num_0_1 val = false).
Proof.
  intros (layerIndex & size & i & Hsize & Hi & ->)%elem_of_nodes.
  exists size, i.
  change (NeuralNode.layer (node_at layerSizes size layerIndex i))
    with layerIndex.
  change (NeuralNode.id (node_at layerSizes size layerIndex i))
    with (node_id layerIndex i).
  do 3 (split; [done|]). split; [apply parseInt_node_id|].
  cbv zeta. rewrite render_node_at. cbv zeta.
  cbn [Circle.glow Circle.fill]. split; [done|].
  destruct (num_ltb num_0_1 _); [|done].
  split; [|done].
  by destruct (Nat.eqb (Datatypes.S layerIndex) (length layerSizes)),
       (is_predicted (Z.of_nat i) predictedDigit).
Qed.

End NodeViews.

(** ** Exact real arithmetic: the geometry *)

Section RealGeometry.
Local Open Scope R_scope.

Lemma node_at_x (layerSizes : list Z) (size : Z) (layerIndex i : nat) :
  NeuralNode.x (node_at layerSizes size layerIndex i)
  = INR layerIndex / (INR (length layerSizes) - 1) * (600 - 80) + 40.
Proof.
  cbn. rewrite minus_IZR, <- !INR_IZR_INZ. reflexivity.
Qed.

Lemma node_at_y (layerSizes : list Z) (size : Z) (layerIndex i : nat) :
  NeuralNode.y (node_at layerSizes size layerIndex i)
  = 20 + INR i * ((400 - 40)
                  / (IZR size + (if Nat.eqb layerIndex 0 then 4 else 0)))
    + (if Nat.eqb layerIndex 0 then 0
       else ((400 - 40)
             - IZR size * ((400 - 40)
                           / (IZR size
                              + (if Nat.eqb layerIndex 0 then 4 else 0))))
            / 2).
Proof.
  cbn. rewrite <- !INR_IZR_INZ. by destruct (Nat.eqb layerIndex 0).
Qed.

(** X15.  In exact real arithmetic the term of [y] that is
    meant to centre the nodes of a layer other than the input is zero:
    the node [i] of such a layer is at [y = 20 + i * (360 / size)], the
    first one 20 below the top of the view box and the last one
    [20 + 360 / size] above its bottom. *)
Theorem hidden_layers_are_top_aligned (layerSizes : list Z) (size : Z)
    (layerIndex i : nat) :
  (0 < layerIndex)%nat -> (0 < size)%Z ->
  NeuralNode.y (node_at layerSizes size layerIndex i)
  = 20 + INR i * (360 / IZR size)
  /\ NeuralNode.y (node_at layerSizes size layerIndex 0) = 20
  /\ 400 - NeuralNode.y (node_at layerSizes size layerIndex
                           (Z.to_nat size - 1))
     = 20 + 360 / IZR size.
Proof.
  intros HL Hsize. apply IZR_lt in Hsize as Hpos.
  assert (forall k : nat,
            NeuralNode.y (node_at layerSizes size layerIndex k)
            = 20 + INR k * (360 / IZR size)) as Hy.
  { intros k. rewrite node_at_y.
    destruct (Nat.eqb_spec layerIndex 0) as [->|_]; [lia|].
    field. lra. }
  split; [apply Hy|]. split.
  - rewrite Hy. cbn [INR]. lra.
  - rewrite Hy, minus_INR by lia. rewrite INR_IZR_INZ, Z2Nat.id by lia.
    cbn [INR]. field. lra.
Qed.

(** X14.  In exact real arithmetic, with two layers or more,
    every node lies inside the view box of 600 by 400:
    [40 <= x <= 560] and [20 <= y < 380]. *)
Theorem nodes_inside_the_viewbox (layerSizes : list Z)
    (node : NeuralNode.t R) :
  (2 <= length layerSizes)%nat -> node ∈ nodes layerSizes ->
  40 <= NeuralNode.x node <= 560 /\ 20 <= NeuralNode.y node < 380.
Proof.
  intros Hlen (layerIndex & size & i & Hsize & Hi & ->)%elem_of_nodes.
  apply lookup_lt_Some in Hsize as HL.
  assert (0 < size)%Z as Hpos by lia. apply IZR_lt in Hpos as HposR.
  assert (INR i <= IZR size - 1) as HiR.
  { rewrite <- (Z2Nat.id size), <- INR_IZR_INZ by lia.
    replace 1 with (INR 1) by done. rewrite <- minus_INR by lia.
    apply le_INR. lia. }
  pose proof (pos_INR i) as Hi0.
  split.
  - rewrite node_at_x.
    assert (1 <= INR (length layerSizes) - 1) as Hden.
    { replace 1 with (INR 1) at 2 by done. rewrite <- minus_INR by lia.
      replace 1 with (INR 1) by done. apply le_INR. lia. }
    assert (INR layerIndex <= INR (length layerSizes) - 1) as Hnum.
    { replace 1 with (INR 1) by done. rewrite <- minus_INR by lia.
      apply le_INR. lia. }
    pose proof (pos_INR layerIndex) as HL0.
    assert (0 <= INR layerIndex / (INR (length layerSizes) - 1) <= 1)
      as [Hlo Hhi].
    { split.
      - apply Rle_mult_inv_pos; lra.
      - apply (Rmult_le_reg_r (INR (length layerSizes) - 1)); [lra|].
        unfold Rdiv. rewrite Rmult_assoc, Rinv_l by lra. lra. }
    split; nra.
  - rewrite node_at_y.
    destruct (Nat.eqb layerIndex 0).
    + assert (0 < (400 - 40) / (IZR size + 4)) as Hs
        by (apply Rdiv_lt_0_compat; lra).
      assert (INR i * ((400 - 40) / (IZR size + 4)) < 360); [|split; nra].
      apply (Rmult_lt_reg_r (IZR size + 4)); [lra|].
      replace (INR i * ((400 - 40) / (IZR size + 4)) * (IZR size + 4))
        with (INR i * 360) by (field; lra).
      nra.
    + replace (((400 - 40) - IZR size * ((400 - 40) / (IZR size + 0))) / 2)
        with 0 by (field; lra).
      assert (0 < (400 - 40) / (IZR size + 0)) as Hs
        by (apply Rdiv_lt_0_compat; lra).
      assert (INR i * ((400 - 40) / (IZR size + 0)) < 360); [|split; nra].
      apply (Rmult_lt_reg_r (IZR size + 0)); [lra|].
      replace (INR i * ((400 - 40) / (IZR size + 0)) * (IZR size + 0))
        with (INR i * 360) by (field; lra).
      nra.
Qed.

End RealGeometry.

(** ** The service *)

Section ServiceProofs.

Lemma strip_prefix_append (p s : string) :
  strip_prefix p (String.append p s) = Some s.
Proof.
  induction p as [|a p IH]; cbn; [done|]. by rewrite Ascii.eqb_refl.
Qed.

Lemma strip_prefix_Some (p s rest : string) :
  strip_prefix p s = Some rest -> s = String.append p rest.
Proof.
  revert s. induction p as [|a p IH]; intros s; cbn.
  - by intros [= ->].
  - destruct s as [|b s]; [done|].
    destruct (Ascii.eqb_spec a b) as [->|]; [|done].
    intros Hrest. by rewrite (IH _ Hrest).
Qed.

(** X19.  The image data sent to the API is the payload of a
    PNG, JPEG or JPG data URL; in general it is the image string
    without its prefix, where the prefix is one of the three data URL
    prefixes or empty. *)
Theorem cleanBase64_strips_the_data_url_prefix (payload base64Image : string) :
  cleanBase64 (String.append "data:image/png;base64," payload) = payload
  /\ cleanBase64 (String.append "data:image/jpeg;base64," payload) = payload
  /\ cleanBase64 (String.append "data:image/jpg;base64," payload) = payload
  /\ exists p,
       base64Image = String.append p (cleanBase64 base64Image)
       /\ p ∈ [String.EmptyString; "data:image/png;base64,"%string;
               "data:image/jpeg;base64,"%string;
               "data:image/jpg;base64,"%string].
Proof.
  split; [|split; [|split]].
  - unfold cleanBase64. by rewrite strip_prefix_append.
  - unfold cleanBase64.
    rewrite (strip_prefix_append "data:image/jpeg;base64,"). reflexivity.
  - unfold cleanBase64.
    rewrite (strip_prefix_append "data:image/jpg;base64,"). reflexivity.
  - unfold cleanBase64.
    destruct (strip_prefix "data:image/png;base64," base64Image)
      as [rest|] eqn:Hpng.
    { eexists. split; [by apply strip_prefix_Some|].
      rewrite !elem_of_cons. tauto. }
    destruct (strip_prefix "data:image/jpeg;base64," base64Image)
      as [rest|] eqn:Hjpeg.
    { eexists. split; [by apply strip_prefix_Some|].
      rewrite !elem_of_cons. tauto. }
    destruct (strip_prefix "data:image/jpg;base64," base64Image)
      as [rest|] eqn:Hjpg.
    { eexists. split; [by apply strip_prefix_Some|].
      rewrite !elem_of_cons. tauto. }
    exists String.EmptyString. split; [done|]. rewrite !elem_of_cons. tauto.
Qed.

End ServiceProofs.

(** ** The application *)

Section AppProofs.
Context {number : Type} {A : Arith number} {C : Compare number}.

Lemma App_step_grid (s s' : AppState.t number) :
  App_step s s' -> length (AppState.inputGrid s) = 64 ->
  length (AppState.inputGrid s') = 64.
Proof.
  intros [s0 canvas gridData Hgrid|s0 gc jp image] Hlen; cbn.
  - by apply length_getInputGrid in Hgrid.
  - done.
Qed.

Lemma App_reachable_grid (s : AppState.t number) :
  App_reachable s -> length (AppState.inputGrid s) = 64.
Proof.
  induction 1 as [|s s' _ IH Hstep].
  - cbn. by rewrite length_replicate.
  - by eapply App_step_grid.
Qed.

(** X20.  In every state the application reaches,
    [inputGrid] has 64 values, so that the effect of the view always
    runs the engine on it and never takes its zero-state branch: the
    state it sets is the snapshot of [forwardPropagate], but for the
    last layer. *)
Theorem app_always_feeds_the_engine (s : AppState.t number) :
  App_reachable s ->
  length (AppState.inputGrid s) = 64
  /\ exists local state,
       forwardPropagate neuralNetEngine (AppState.inputGrid s)
       = Normal local
       /\ composeActivations (AppState.inputGrid s) (App_probabilities s)
          = Normal state
       /\ length state = length local
       /\ forall i, i < length local - 1 -> state !! i = local !! i.
Proof.
  intros Hlen%App_reachable_grid. split; [done|].
  rewrite neuralNetEngine_propagate by done. eexists. 
  destruct (App_probabilities s) as [p|].
  - destruct (decide (length p = 10)) as [Hp|Hp].
    + unfold composeActivations.
      rewrite decide_True, neuralNetEngine_propagate by done.
      cbn [mbind completion_bind]. rewrite decide_True by done.
      eexists. split; [done|]. split; [done|].
      split; [apply length_set_last|]. intros i Hi.
      by apply lookup_set_last.
    + rewrite composeActivations_malformed, neuralNetEngine_propagate
        by done.
      by eexists.
  - rewrite composeActivations_absent, neuralNetEngine_propagate by done.
    by eexists.
Qed.

End AppProofs.

(** ** Exact real arithmetic: the view after a failed analysis *)

Section RealFailure.
Local Open Scope R_scope.

(** X21.  In exact real arithmetic.  When the analysis fails (the
    call to the API throws, its text is missing or empty, or the text
    does not parse), the result is the fallback of the service; the
    last layer of the state of the view is then ten times 0.1, and
    every output node is drawn with radius 6, inactive and without
    glow: none wins, and 0.1 is not above 0.1. *)
Theorem failed_analysis_display
    (generateContent : string -> option (option string))
    (JSON_parse : string -> option (RecognitionResult.t R))
    (imageData : string) (inputGrid : list R) :
  match generateContent (cleanBase64 imageData) with
  | Some (Some text) =>
      text = String.EmptyString \/ JSON_parse text = None
  | _ => True
  end ->
  length inputGrid = 64%nat ->
  let s :=
    handleAnalysis_settle
      (analyzeDigit generateContent JSON_parse imageData)
      (handleAnalysis_begin inputGrid App_initial) in
  AppState.result s = Some fallback
  /\ exists state,
       composeActivations (AppState.inputGrid s) (App_probabilities s)
       = Normal state
       /\ last state = Some (replicate 10 (1 / 10))
       /\ forall i, (i < 10)%nat ->
            let circle :=
              render_node (getLayerConfig neuralNetEngine) state
                (App_predictedDigit s)
                (node_at (getLayerConfig neuralNetEngine) 10 3 i) in
            Circle.winning circle = false
            /\ Circle.r circle = 6%Z
            /\ Circle.fill circle = fill_inactive
            /\ Circle.glow circle = false.
Proof.
  intros Hfail Hlen s.
  assert (analyzeDigit generateContent JSON_parse imageData = fallback)
    as Hresult.
  { unfold analyzeDigit.
    destruct (generateContent (cleanBase64 imageData)) as [[text|]|];
      [|done..].
    destruct Hfail as [->|Hparse]; [done|].
    rewrite Hparse. by destruct (String.eqb text ""). }
  subst s. rewrite Hresult. split; [done|].
  unfold App_probabilities, App_predictedDigit, handleAnalysis_settle,
    handleAnalysis_begin.
  cbn [AppState.result AppState.inputGrid fmap option_fmap option_map
       RecognitionResult.probabilities RecognitionResult.prediction
       fallback].
  unfold composeActivations.
  rewrite decide_True, neuralNetEngine_propagate by done.
  cbn [mbind completion_bind]. rewrite decide_True by done.
  eexists. split; [reflexivity|]. split; [reflexivity|].
  intros i Hi. cbv zeta. rewrite render_node_at. cbv zeta.
  cbn [Circle.winning Circle.r Circle.fill Circle.glow].
  rewrite neuralNetEngine_config.
  change (Nat.eqb 4 (length [64; 16; 12; 10]%Z)) with true.
  cbn [andb Nat.eqb].
  assert (is_predicted (Z.of_nat i) (Some (num_neg (num_of_Z 1))) = false)
    as ->.
  { apply not_true_is_false. intros Heq%num_eqb_R.
    cbn [num_of_Z num_neg RArith] in Heq.
    pose proof (IZR_le 0 (Z.of_nat i) ltac:(lia)). lra. }
  cbn [propagate_from set_last length list_insert insert lookup
       list_lookup].
  change (Z.to_nat 10) with 10%nat.
  rewrite lookup_replicate_2 by done.
  assert (or_0 (Some (num_0_1 : R)) = 1 / 10) as ->.
  { cbn. destruct (Req_dec_T _ _); [lra|done]. }
  assert (num_ltb (num_0_1 : R) (1 / 10) = false) as ->.
  { apply not_true_is_false. intros Hlt%num_ltb_R. cbn in Hlt. lra. }
  assert (num_ltb (num_0_5 : R) (1 / 10) = false) as ->.
  { apply not_true_is_false. intros Hlt%num_ltb_R. cbn in Hlt. lra. }
  done.
Qed.

End RealFailure.

(** ** The application and the view *)

Section AppView.
Context {number : Type} {A : Arith number} {C : Compare number}.

Lemma App_reachable_pending (s : AppState.t number) :
  App_reachable s -> AppState.isAnalyzing s = true ->
  AppState.result s = None.
Proof.
  induction 1 as [|s s' _ _ Hstep]; [done|].
  by destruct Hstep.
Qed.

(** X22.  While an analysis is pending the result is [null]: the
    view gets neither probabilities nor a predicted digit, and its state
    is the snapshot of [forwardPropagate] on the grid, with no
    override. *)
Theorem pending_analysis_shows_the_local_simulation (s : AppState.t number) :
  App_reachable s -> AppState.isAnalyzing s = true ->
  App_probabilities s = None
  /\ App_predictedDigit s = None
  /\ composeActivations (AppState.inputGrid s) (App_probabilities s)
     = forwardPropagate neuralNetEngine (AppState.inputGrid s).
Proof.
  intros Hreach Hpending.
  pose proof (App_reachable_grid s Hreach) as Hlen.
  unfold App_probabilities, App_predictedDigit.
  rewrite (App_reachable_pending s Hreach Hpending).
  do 2 (split; [done|]). by apply composeActivations_absent.
Qed.

(** X23.  The probabilities have no part in the connections:
    for the same predicted digit, [renderConnections] returns the same
    lines on the state composed with them as on the state composed
    without, since the last layer is the source of no line. *)
Theorem probabilities_do_not_change_the_connections
    (inputActivations : list number) (probabilities : option (list number))
    (predictedDigit : option number) :
  exists local composed lines,
    composeActivations inputActivations None = Normal local
    /\ composeActivations inputActivations probabilities = Normal composed
    /\ renderConnections (getLayerConfig neuralNetEngine)
         (nodes (getLayerConfig neuralNetEngine)) local predictedDigit
       = Normal (Some lines)
    /\ renderConnections (getLayerConfig neuralNetEngine)
         (nodes (getLayerConfig neuralNetEngine)) composed predictedDigit
       = Normal (Some lines).
Proof.
  rewrite neuralNetEngine_config.
  destruct (decide (length inputActivations = 64)) as [Hin|Hin].
  - rewrite composeActivations_absent, neuralNetEngine_propagate by done.
    destruct probabilities as [p|].
    + destruct (decide (length p = 10)) as [Hp|Hp].
      * unfold composeActivations.
        rewrite decide_True, neuralNetEngine_propagate by done.
        cbn [mbind completion_bind]. rewrite decide_True by done.
        eexists _, _, _. do 2 (split; [reflexivity|]).
        split; (rewrite renderConnections_eq; [reflexivity|done|cbn; lia]).
      * rewrite composeActivations_malformed, neuralNetEngine_propagate
          by done.
        eexists _, _, _. do 2 (split; [reflexivity|]).
        split; (rewrite renderConnections_eq; [reflexivity|done|cbn; lia]).
    + rewrite composeActivations_absent, neuralNetEngine_propagate by done.
      eexists _, _, _. do 2 (split; [reflexivity|]).
      split; (rewrite renderConnections_eq; [reflexivity|done|cbn; lia]).
  - rewrite !composeActivations_other_length by done.
    eexists _, _, _. do 2 (split; [reflexivity|]).
    split; (rewrite renderConnections_eq; [reflexivity|done|cbn; lia]).
Qed.

End AppView.

(** ** The composer on the store layer *)

Section StoreComposer.
Context {number : Type} {A : Arith number}.

#[local] Abbreviation store := (list (list (Store.value number))).
#[local] Abbreviation M := (Store.M number).

Lemma zero_row_eq (size : Z) (h : store) :
  (0 <= size)%Z ->
  StoreView.zero_row (Store.VInt size) h
  = (Normal (Store.VRef (length h)),
     h ++ [replicate (Z.to_nat size) (Store.VNum (num_of_Z 0))]).
Proof.
  intros Hsize. unfold StoreView.zero_row, StoreView.Array_fill_0.
  unfold Store.bind at 1. cbn [Store.as_size Store.ret].
  destruct (Z.ltb_spec size 0) as [|_]; [lia|]. reflexivity.
Qed.

Lemma zero_rows_eq (sizes : list Z) (results : Store.loc)
    (a : list (Store.value number)) (h : store) :
  Forall (fun size => (0 <= size)%Z) sizes ->
  h !! results = Some a ->
  StoreView.Array_map_loop StoreView.zero_row (map Store.VInt sizes)
    results h
  = (Normal tt,
     <[results := a ++ map Store.VRef (seq (length h) (length sizes))]>
       (h ++ map (fun size =>
                    replicate (Z.to_nat size) (Store.VNum (num_of_Z 0)))
               sizes)).
Proof.
  intros Hsizes. revert a h.
  induction Hsizes as [|size sizes Hsize _ IH]; intros a h Ha.
  - cbn. rewrite !app_nil_r. by rewrite list_insert_id.
  - pose proof (lookup_lt_Some _ _ _ Ha) as Hlt.
    cbn [map StoreView.Array_map_loop length seq].
    unfold Store.bind at 1. rewrite zero_row_eq by done.
    unfold Store.bind at 1.
    rewrite (array_push_eq results a) by (by rewrite lookup_app_l).
    rewrite (IH (a ++ [Store.VRef (length h)]))
      by (apply list_lookup_insert_eq; rewrite length_app; lia).
    f_equal. rewrite length_insert, length_app. cbn [length].
    rewrite Nat.add_1_r, <- !app_assoc. cbn [app].
    rewrite <- (insert_app_l _ _ results) by (rewrite length_app; cbn; lia).
    rewrite list_insert_insert_eq.
    by rewrite <- !app_assoc.
Qed.

Lemma set_last_refs (rows : list Store.loc) (l : Store.loc) :
  set_last (map Store.VRef rows) (Store.VRef (number := number) l)
  = map Store.VRef (set_last rows l).
Proof.
  unfold set_last. rewrite length_map.
  destruct (length rows); [done|]. by rewrite list_fmap_insert.
Qed.

Lemma Forall2_set_last {X Y : Type} (P : X -> Y -> Prop) (l : list X)
    (k : list Y) (x : X) (y : Y) :
  Forall2 P l k -> P x y -> Forall2 P (set_last l x) (set_last k y).
Proof.
  intros Hlk Hxy. unfold set_last.
  rewrite <- (Forall2_length _ _ _ Hlk).
  destruct (length l); [done|]. by apply Forall2_insert.
Qed.

(** A row of a matrix is not the matrix. *)
Lemma rep_mat_row_ne (h : store) (l r : Store.loc) (rows : list Store.loc)
    (xs : list number) :
  h !! l = Some (map Store.VRef rows) -> r ∈ rows ->
  Store.rep_vec h r xs -> r <> l.
Proof.
  intros Hl Hr Hvec ->. unfold Store.rep_vec in Hvec.
  rewrite Hl in Hvec. injection Hvec as Heq.
  destruct rows as [|r rows]; [by apply elem_of_nil in Hr|].
  by destruct xs.
Qed.

Lemma Forall2_rep_vec_insert (h : store) (l : Store.loc)
    (a : list (Store.value number)) (rows : list Store.loc)
    (xss : list (list number)) :
  Forall2 (Store.rep_vec h) rows xss ->
  (forall r xs, r ∈ rows -> Store.rep_vec h r xs -> r <> l) ->
  Forall2 (Store.rep_vec (<[l := a]> h)) rows xss.
Proof.
  induction 1 as [|r xs rows xss Hr _ IH]; intros Hne; constructor.
  - unfold Store.rep_vec. rewrite list_lookup_insert_ne; [done|].
    intros Heq. by apply (Hne r xs); [left| |].
  - apply IH. intros r' xs' Hin. apply Hne. by right.
Qed.

(** The effect with a grid of 64 values and probabilities of 10: the
    snapshot of [forwardPropagate] is written to in place, and its last
    element becomes the address of the probabilities. *)
Lemma composeActivations_override (h : store) (e : Store.engine)
    (lin lp : Store.loc) (x ps : list number) :
  Store.decode_engine h e = Some neuralNetEngine ->
  Store.decode_vec h lin = Some x ->
  Store.decode_vec h lp = Some ps ->
  length x = 64 -> length ps = 10 ->
  exists h' rows local,
    forwardPropagate neuralNetEngine x = Normal local
    /\ StoreView.composeActivations e lin (Some lp) h
       = (Normal (length h), h')
    /\ h' !! length h = Some (map Store.VRef (set_last rows lp))
    /\ Forall2 (Store.rep_vec h') rows local
    /\ Forall (fun r => length h < r) rows
    /\ Store.unchanged (length h) [] h h'.
Proof.
  intros He Hin Hp Hlen Hps.
  apply decode_vec_rep in Hin as Hlin. apply decode_vec_rep in Hp as Hlp.
  pose proof (forwardPropagate_sim h e _ lin x He Hin) as Hsim.
  rewrite neuralNetEngine_propagate in Hsim by done.
  destruct Hsim as (h1 & Hcall & Hmat & Hfresh).
  pose proof (frames_forwardPropagate (length h) e lin h (le_n _)) as Hun.
  rewrite Hcall in Hun. cbn [snd] in Hun.
  apply decode_mat_rep in Hmat as (rows & Hrows & Hvecs).
  pose proof (rep_vec_unchanged _ _ _ _ Hun Hlp) as Hlp1.
  assert (lp < length h) as Hlt by (by eapply lookup_lt_Some).
  assert (length h < length h1) as Hlt1 by (by eapply lookup_lt_Some).
  assert (forall r xs, r ∈ rows -> Store.rep_vec h1 r xs -> r <> length h)
    as Hne.
  { intros r xs. by apply rep_mat_row_ne. }
  unfold StoreView.composeActivations. unfold Store.bind at 1.
  rewrite (array_length_eq lin _ h Hlin), length_map, decide_True by done.
  unfold Store.bind at 1. rewrite Hcall.
  unfold Store.bind at 1. unfold Store.bind at 1.
  rewrite (array_length_eq lp _ h1 Hlp1), length_map, decide_True by done.
  unfold StoreView.array_set_last. rewrite Hrows. cbn [Store.ret].
  eexists _, rows, _. split; [by apply neuralNetEngine_propagate|].
  split; [done|]. split.
  { rewrite list_lookup_insert_eq by done. by rewrite set_last_refs. }
  split; [by apply Forall2_rep_vec_insert|]. split.
  - unfold Store.snapshot_locs in Hfresh. rewrite Hrows in Hfresh.
    cbn [mbind option_bind] in Hfresh.
    rewrite (proj2 (mapM_ref_of _ rows) eq_refl) in Hfresh.
    apply Forall_cons in Hfresh as [_ Hfresh].
    apply Forall_forall. intros r Hr.
    pose proof (proj1 (Forall_forall _ _) Hfresh r Hr) as Hge.
    cbn beta in Hge.
    pose proof Hr as (i & Hi)%list_elem_of_lookup.
    destruct (Forall2_lookup_l _ _ _ i r Hvecs Hi) as (xs & _ & Hxs).
    specialize (Hne r xs Hr Hxs). lia.
  - destruct Hun as [Hle Hsame]. split.
    + rewrite length_insert. lia.
    + intros l Hl Hex. rewrite list_lookup_insert_ne by lia.
      by apply Hsame.
Qed.

(** The effect on the store layer, against the effect on values: it
    returns the address of a new array, which reads back as the state
    of the value layer, and it leaves every object that existed before
    as it was. *)
Lemma composeActivations_sim (h : store) (e : Store.engine)
    (lin : Store.loc) (x : list number) (probabilities : option Store.loc)
    (p : option (list number)) :
  Store.decode_engine h e = Some neuralNetEngine ->
  Store.decode_vec h lin = Some x ->
  match probabilities, p with
  | Some lp, Some ps => Store.decode_vec h lp = Some ps
  | None, None => True
  | _, _ => False
  end ->
  exists state h',
    composeActivations x p = Normal state
    /\ StoreView.composeActivations e lin probabilities h
       = (Normal (length h), h')
    /\ Store.rep_mat h' (length h) state
    /\ Store.unchanged (length h) [] h h'.
Proof.
  intros He Hin Hp. apply decode_vec_rep in Hin as Hlin.
  destruct (decide (length x = 64)) as [Hlen|Hlen];
    [destruct probabilities as [lp|], p as [ps|]; try done;
     [destruct (decide (length ps = 10)) as [Hps|Hps]|]|].
  - destruct (composeActivations_override h e lin lp x ps He Hin Hp Hlen Hps)
      as (h' & rows & local & Hlocal & Hcall & Hrows & Hvecs & _ & Hun).
    exists (set_last local ps), h'. split.
    { unfold composeActivations. rewrite decide_True, Hlocal by done.
      cbn [mbind completion_bind]. by rewrite decide_True. }
    split; [done|]. split; [|done].
    exists (set_last rows lp). split; [done|].
    apply Forall2_set_last; [done|].
    apply (rep_vec_unchanged h); [done|]. by apply decode_vec_rep.
  - pose proof (forwardPropagate_sim h e _ lin x He Hin) as Hsim.
    rewrite neuralNetEngine_propagate in Hsim by done.
    destruct Hsim as (h1 & Hcall & Hmat & _).
    pose proof (frames_forwardPropagate (length h) e lin h (le_n _)) as Hun.
    rewrite Hcall in Hun. cbn [snd] in Hun.
    apply decode_vec_rep in Hp as Hlp.
    pose proof (rep_vec_unchanged _ _ _ _ Hun Hlp) as Hlp1.
    rewrite composeActivations_malformed, neuralNetEngine_propagate by done.
    unfold StoreView.composeActivations. unfold Store.bind at 1.
    rewrite (array_length_eq lin _ h Hlin), length_map, decide_True by done.
    unfold Store.bind at 1. rewrite Hcall.
    unfold Store.bind at 1. unfold Store.bind at 1.
    rewrite (array_length_eq lp _ h1 Hlp1), length_map, decide_False by done.
    cbn [Store.ret]. eexists _, _. do 2 (split; [done|]).
    split; [by apply decode_mat_rep|done].
  - pose proof (forwardPropagate_sim h e _ lin x He Hin) as Hsim.
    rewrite neuralNetEngine_propagate in Hsim by done.
    destruct Hsim as (h1 & Hcall & Hmat & _).
    pose proof (frames_forwardPropagate (length h) e lin h (le_n _)) as Hun.
    rewrite Hcall in Hun. cbn [snd] in Hun.
    rewrite composeActivations_absent, neuralNetEngine_propagate by done.
    unfold StoreView.composeActivations. unfold Store.bind at 1.
    rewrite (array_length_eq lin _ h Hlin), length_map, decide_True by done.
    unfold Store.bind at 1. rewrite Hcall.
    unfold Store.bind at 1. cbn [Store.ret]. eexists _, _.
    do 2 (split; [done|]). split; [by apply decode_mat_rep|done].
  - unfold StoreView.composeActivations. unfold Store.bind at 1.
    rewrite (array_length_eq lin _ h Hlin), length_map, decide_False by done.
    rewrite composeActivations_other_length by done.
    apply decode_engine_rep in He as (_ & _ & Hsizes).
    change (layerSizes neuralNetEngine) with (getLayerConfig neuralNetEngine)
      in Hsizes.
    rewrite neuralNetEngine_config in Hsizes.
    unfold Store.getLayerConfig, StoreView.Array_map.
    unfold Store.bind at 1. cbn [Store.ret].
    unfold Store.bind at 1. rewrite (contents_eq _ _ h Hsizes).
    unfold Store.bind at 1. cbn [Store.alloc].
    unfold Store.bind at 1.
    rewrite (zero_rows_eq [64; 16; 12; 10]%Z (length h) [])
      by (try apply list_lookup_middle; repeat constructor; done).
    cbn [Store.ret]. eexists _, _. split; [done|]. split; [done|].
    rewrite length_app. cbn [length app].
    split.
    + exists (seq (length h + 1) 4). split.
      * apply list_lookup_insert_eq. rewrite !length_app. cbn. lia.
      * unfold zero_state. cbn [map seq].
        assert (forall k r zeros,
                  r = (length h + 1 + k)%nat ->
                  [replicate (Z.to_nat 64) (Store.VNum (num_of_Z 0));
                   replicate (Z.to_nat 16) (Store.VNum (num_of_Z 0));
                   replicate (Z.to_nat 12) (Store.VNum (num_of_Z 0));
                   replicate (Z.to_nat 10) (Store.VNum (num_of_Z 0))] !! k
                  = Some (map Store.VNum zeros) ->
                  Store.rep_vec
                    (<[length h :=
                         [Store.VRef (length h + 1);
                          Store.VRef (S (length h + 1));
                          Store.VRef (S (S (length h + 1)));
                          Store.VRef (S (S (S (length h + 1))))]]>
                       ((h ++ [[]])
                        ++ [replicate (Z.to_nat 64) (Store.VNum (num_of_Z 0));
                            replicate (Z.to_nat 16) (Store.VNum (num_of_Z 0));
                            replicate (Z.to_nat 12) (Store.VNum (num_of_Z 0));
                            replicate (Z.to_nat 10)
                              (Store.VNum (num_of_Z 0))]))
                    r zeros) as Hrow.
        { intros k r zeros -> Hk. unfold Store.rep_vec.
          rewrite list_lookup_insert_ne by lia.
          rewrite lookup_app_r by (rewrite length_app; cbn; lia).
          rewrite length_app. cbn [length].
          by replace (length h + 1 + k - (length h + 1))%nat with k by lia. }
        constructor; [|constructor; [|constructor; [|constructor]]];
          [apply (Hrow 0%nat)|apply (Hrow 1%nat)|apply (Hrow 2%nat)
          |apply (Hrow 3%nat)|constructor];
          (lia || (cbn [lookup list_lookup]; by rewrite fmap_replicate)).
    + split.
      * rewrite length_insert, !length_app. lia.
      * intros l Hl _. rewrite list_lookup_insert_ne by lia.
        rewrite <- app_assoc. by rewrite lookup_app_l.
Qed.

(** X24.  The effect with its arrays in the store does what the
    effect on values does: on an engine that reads back as the
    singleton, a grid and probabilities that read back as [x] and [p],
    it returns the address of an array, allocated by the call, that
    reads back as the state [composeActivations x p]; the write to the
    snapshot in place touches no object that existed before: the
    engine and the grid read back as before. *)
Theorem store_composer_refines (h : store) (e : Store.engine)
    (lin : Store.loc) (x : list number) (probabilities : option Store.loc)
    (p : option (list number)) :
  Store.decode_engine h e = Some neuralNetEngine ->
  Store.decode_vec h lin = Some x ->
  match probabilities, p with
  | Some lp, Some ps => Store.decode_vec h lp = Some ps
  | None, None => True
  | _, _ => False
  end ->
  exists state l h',
    composeActivations x p = Normal state
    /\ StoreView.composeActivations e lin probabilities h = (Normal l, h')
    /\ Store.decode_mat h' l = Some state
    /\ length h <= l
    /\ (forall a, a < length h -> h' !! a = h !! a)
    /\ Store.decode_engine h' e = Some neuralNetEngine
    /\ Store.decode_vec h' lin = Some x.
Proof.
  intros He Hin Hp.
  destruct (composeActivations_sim h e lin x probabilities p He Hin Hp)
    as (state & h' & Hstate & Hcall & Hrep & Hun).
  exists state, (length h), h'. do 2 (split; [done|]).
  split; [by apply decode_mat_rep|]. split; [done|].
  split; [intros a Ha; by apply unchanged_lookup|].
  split; [by eapply decode_engine_unchanged|by eapply decode_vec_unchanged].
Qed.

(** X25.  With a grid of 64 values and probabilities of 10, the
    last element of the state is the address of the probabilities
    themselves, not of a copy: the state reads back with the
    probabilities as its last layer, and after a later
    [probabilities.push(v)] it reads back with the longer array as its
    last layer. *)
Theorem composed_state_shares_the_probabilities (h : store)
    (e : Store.engine) (lin lp : Store.loc) (x ps : list number)
    (v : number) :
  Store.decode_engine h e = Some neuralNetEngine ->
  Store.decode_vec h lin = Some x ->
  Store.decode_vec h lp = Some ps ->
  length x = 64 -> length ps = 10 ->
  exists l h' rows local,
    StoreView.composeActivations e lin (Some lp) h = (Normal l, h')
    /\ forwardPropagate neuralNetEngine x = Normal local
    /\ h' !! l = Some (map Store.VRef rows)
    /\ last rows = Some lp
    /\ Store.decode_mat h' l = Some (set_last local ps)
    /\ Store.decode_mat (Store.array_push lp (Store.VNum v) h').2 l
       = Some (set_last local (ps ++ [v])).
Proof.
  intros He Hin Hp Hlen Hps.
  destruct (composeActivations_override h e lin lp x ps He Hin Hp Hlen Hps)
    as (h' & rows & local & Hlocal & Hcall & Hrows & Hvecs & Hfresh & Hun).
  apply decode_vec_rep in Hp as Hlp.
  pose proof (rep_vec_unchanged _ _ _ _ Hun Hlp) as Hlp'.
  assert (lp < length h) as Hlt by (by eapply lookup_lt_Some).
  assert (lp < length h') as Hlt' by (by eapply lookup_lt_Some).
  exists (length h), h', (set_last rows lp), local.
  do 3 (split; [done|]). split.
  { apply last_set_last. rewrite (Forall2_length _ _ _ Hvecs).
    rewrite neuralNetEngine_propagate in Hlocal by done.
    injection Hlocal as <-. cbn. lia. }
  split.
  - apply decode_mat_rep. exists (set_last rows lp). split; [done|].
    by apply Forall2_set_last.
  - rewrite (array_push_eq lp _ _ h' Hlp'). cbn [snd].
    apply decode_mat_rep. exists (set_last rows lp). split.
    + rewrite list_lookup_insert_ne by lia. done.
    + apply Forall2_set_last.
      * apply Forall2_rep_vec_insert; [done|]. intros r xs Hr _.
        pose proof (proj1 (Forall_forall _ _) Hfresh r Hr) as Hgt.
        cbn beta in Hgt. lia.
      * unfold Store.rep_vec. rewrite list_lookup_insert_eq by done.
        by rewrite map_app.
Qed.

End StoreComposer.

(** ** The further properties at concrete inputs *)

Section MoreInstances.
Local Open Scope R_scope.

(** Two values for a first layer of one node. *)
Lemma long_input_throws_witness :
  forwardPropagate (new_SimpleNeuralNet 1 [] 1) [0; 0] = Throw TypeError.
Proof.
  apply (long_input_throws 1 [] 1 [0; 0]).
  - rewrite getLayerConfig_new. repeat constructor.
  - reflexivity.
Defined.

(** The only weight of the topology [1, 1]. *)
Lemma weight_range_witness :
  exists n : Z,
    getLayerConfig (new_SimpleNeuralNet (A := RArith) 1 [] 1) !! 0%nat
    = Some n
    /\ (0 < n)%Z
    /\ - 3 / sqrt (IZR n) <= init_weight 0 1 0 0 <= 1 / sqrt (IZR n).
Proof.
  apply (weight_range 1 [] 1 0 0 0 [[init_weight 0 1 0 0]]
           [init_weight 0 1 0 0] (init_weight 0 1 0 0)); reflexivity.
Defined.

(** One value for a first layer of two nodes. *)
Lemma short_input_is_zero_padded_witness :
  exists later : list (list R),
    forwardPropagate (new_SimpleNeuralNet 2 [] 1) [1] = Normal ([1] :: later)
    /\ forwardPropagate (new_SimpleNeuralNet 2 [] 1) [1; 0]
       = Normal ([1; 0] :: later).
Proof.
  apply (short_input_is_zero_padded 2 [] 1 [1]). cbn. lia.
Defined.

Lemma activation_bounds_witness :
  exists snapshot : list (list R),
    forwardPropagate (new_SimpleNeuralNet 2 [] 1) [0; 1] = Normal snapshot
    /\ forall (i : nat) (layer : list R) (v : R),
         snapshot !! (i + 1)%nat = Some layer -> v ∈ layer ->
         let n :=
           IZR (size_at
                  (getLayerConfig (new_SimpleNeuralNet (A := RArith) 2 [] 1))
                  i) in
         sigmoid (- (1 / 10) - 3 * sqrt n) <= v
         <= sigmoid (- (1 / 10) + sqrt n).
Proof.
  apply (activation_bounds 2 [] 1 [0; 1]).
  - reflexivity.
  - repeat constructor; lra.
Defined.

(** The sample canvas. *)
Lemma input_grid_is_row_major_witness :
  length sample_grid = 64%nat
  /\ forall row col, (row < 8)%nat -> (col < 8)%nat ->
       exists data,
         getImageData sample_context
           (num_mul (num_of_Z (Z.of_nat col))
              (num_div (num_of_Z (width sample_canvas)) (num_of_Z 8)))
           (num_mul (num_of_Z (Z.of_nat row))
              (num_div (num_of_Z (height sample_canvas)) (num_of_Z 8)))
           (num_div (num_of_Z (width sample_canvas)) (num_of_Z 8))
           (num_div (num_of_Z (height sample_canvas)) (num_of_Z 8))
         = Some data
         /\ sample_grid !! (row * 8 + col)%nat = Some (cell_value data).
Proof.
  apply (input_grid_is_row_major sample_canvas sample_context sample_grid);
    reflexivity.
Defined.

Lemma canvas_grid_feeds_the_engine_witness :
  exists local composed : list (list R),
    forwardPropagate neuralNetEngine sample_grid = Normal local
    /\ composeActivations sample_grid None = Normal local
    /\ composeActivations sample_grid None = Normal composed
    /\ local !! 0%nat = Some sample_grid
    /\ composed !! 0%nat = Some sample_grid.
Proof.
  apply (canvas_grid_feeds_the_engine (Some sample_canvas) sample_grid None).
  reflexivity.
Defined.

Lemma grid_values_in_unit_interval_witness :
  0 <= cell_value sample_pixel <= 1.
Proof.
  apply (grid_values_in_unit_interval (Some sample_canvas) sample_grid
           (cell_value sample_pixel)).
  - intros c ctx sx sy sw sh [= <-] [= <-]. discriminate.
  - reflexivity.
  - apply elem_of_replicate. split; [reflexivity|lia].
Defined.

(** One pixel of red 200. *)
Lemma cell_value_is_clamped_red_mean_witness :
  cell_value (rgba_bytes [(Byte.xc8, Byte.x00, Byte.x00, Byte.xff)])
  = Rmin 1
      (IZR (red_sum [(Byte.xc8, Byte.x00, Byte.x00, Byte.xff)])
       / INR (length [(Byte.xc8, Byte.x00, Byte.x00, Byte.xff)]) / 100)
  /\ (red_sum [(Byte.xc8, Byte.x00, Byte.x00, Byte.xff)] = 0%Z ->
      cell_value (rgba_bytes [(Byte.xc8, Byte.x00, Byte.x00, Byte.xff)]) = 0)
  /\ ((100 * Z.of_nat (length [(Byte.xc8, Byte.x00, Byte.x00, Byte.xff)])
       <= red_sum [(Byte.xc8, Byte.x00, Byte.x00, Byte.xff)])%Z ->
      cell_value (rgba_bytes [(Byte.xc8, Byte.x00, Byte.x00, Byte.xff)]) = 1).
Proof.
  apply (cell_value_is_clamped_red_mean
           [(Byte.xc8, Byte.x00, Byte.x00, Byte.xff)]).
  discriminate.
Defined.

(** The output node of the topology [1, 1], on the state [[1], [0]]. *)
Lemma node_shows_its_own_activation_witness :
  exists size i,
    [1; 1]%Z !! NeuralNode.layer (node_at (A := RArith) [1; 1]%Z 1 1 0)
    = Some size
    /\ (i < Z.to_nat size)%nat
    /\ NeuralNode.id (node_at (A := RArith) [1; 1]%Z 1 1 0)
       = node_id (NeuralNode.layer (node_at (A := RArith) [1; 1]%Z 1 1 0)) i
    /\ parseInt_at
         (split (NeuralNode.id (node_at (A := RArith) [1; 1]%Z 1 1 0)) "-n")
         1
       = Some (Z.of_nat i)
    /\ let val :=
         or_0 (match [[1]; [0]]
                     !! NeuralNode.layer (node_at (A := RArith) [1; 1]%Z 1 1 0)
               with
               | Some layerVals => layerVals !! i
               | None => Some (num_of_Z 0)
               end) in
       let circle :=
         render_node [1; 1]%Z [[1]; [0]] None (node_at [1; 1]%Z 1 1 0) in
       Circle.glow circle = num_ltb num_0_5 val
       /\ (Circle.fill circle = fill_inactive
           <-> num_ltb num_0_1 val = false).
Proof.
  apply (node_shows_its_own_activation [1; 1]%Z [[1]; [0]] None
           (node_at [1; 1]%Z 1 1 0)).
  apply list_elem_of_lookup. exists 1%nat. reflexivity.
Defined.

Lemma nodes_inside_the_viewbox_witness :
  40 <= NeuralNode.x (node_at [1; 1]%Z 1 1 0) <= 560
  /\ 20 <= NeuralNode.y (node_at [1; 1]%Z 1 1 0) < 380.
Proof.
  apply (nodes_inside_the_viewbox [1; 1]%Z (node_at [1; 1]%Z 1 1 0)).
  - cbn. lia.
  - apply list_elem_of_lookup. exists 1%nat. reflexivity.
Defined.

(** A layer of two nodes, after the input. *)
Lemma hidden_layers_are_top_aligned_witness :
  NeuralNode.y (node_at [1; 2]%Z 2 1 1) = 20 + INR 1 * (360 / IZR 2)
  /\ NeuralNode.y (node_at [1; 2]%Z 2 1 0) = 20
  /\ 400 - NeuralNode.y (node_at [1; 2]%Z 2 1 (Z.to_nat 2 - 1))
     = 20 + 360 / IZR 2.
Proof.
  apply (hidden_layers_are_top_aligned [1; 2]%Z 2 1 1); lia.
Defined.

(** The topology [1, 1] on the state [[1], [0]]. *)
Lemma connections_drawn_witness :
  exists lines,
    renderConnections [1; 1]%Z (nodes [1; 1]%Z) [[1]; [0]] None
    = Normal (Some lines)
    /\ forall line,
         line ∈ lines
         <-> exists l i j sourceLayer sourceVal,
               (l + 1 < length [1; 1]%Z)%nat
               /\ [[1]; [0]] !! l = Some sourceLayer
               /\ sourceLayer !! i = Some sourceVal
               /\ num_ltb sourceVal num_0_05 = false
               /\ (i < Z.to_nat (size_at [1; 1]%Z l))%nat
               /\ (j < Z.to_nat (size_at [1; 1]%Z (l + 1)))%nat
               /\ line = connection [1; 1]%Z None l i sourceVal j.
Proof.
  apply (connections_drawn [1; 1]%Z [[1]; [0]] None).
  - discriminate.
  - cbn. lia.
Defined.

(** The initial state of the application. *)
Lemma app_always_feeds_the_engine_witness :
  length (AppState.inputGrid (App_initial (A := RArith))) = 64%nat
  /\ exists local state,
       forwardPropagate neuralNetEngine
         (AppState.inputGrid (App_initial (A := RArith)))
       = Normal local
       /\ composeActivations (AppState.inputGrid App_initial)
            (App_probabilities App_initial)
          = Normal state
       /\ length state = length local
       /\ forall i, (i < length local - 1)%nat -> state !! i = local !! i.
Proof.
  apply (app_always_feeds_the_engine App_initial). apply reach_initial.
Defined.

(** A call to the API that throws, on the all-zero grid. *)
Lemma failed_analysis_display_witness :
  let s :=
    handleAnalysis_settle
      (analyzeDigit (fun _ => None) (fun _ => None) String.EmptyString)
      (handleAnalysis_begin (replicate 64 0) App_initial) in
  AppState.result s = Some fallback
  /\ exists state,
       composeActivations (AppState.inputGrid s) (App_probabilities s)
       = Normal state
       /\ last state = Some (replicate 10 (1 / 10))
       /\ forall i, (i < 10)%nat ->
            let circle :=
              render_node (getLayerConfig neuralNetEngine) state
                (App_predictedDigit s)
                (node_at (getLayerConfig neuralNetEngine) 10 3 i) in
            Circle.winning circle = false
            /\ Circle.r circle = 6%Z
            /\ Circle.fill circle = fill_inactive
            /\ Circle.glow circle = false.
Proof.
  apply (failed_analysis_display (fun _ => None) (fun _ => None)
           String.EmptyString (replicate 64 0)).
  - exact I.
  - reflexivity.
Defined.

(** The state after [handleAnalysis] has started on the sample grid. *)
Lemma pending_analysis_shows_the_local_simulation_witness :
  App_probabilities (handleAnalysis_begin sample_grid App_initial) = None
  /\ App_predictedDigit (handleAnalysis_begin sample_grid App_initial) = None
  /\ composeActivations
       (AppState.inputGrid (handleAnalysis_begin sample_grid App_initial))
       (App_probabilities (handleAnalysis_begin sample_grid App_initial))
     = forwardPropagate neuralNetEngine
         (AppState.inputGrid (handleAnalysis_begin sample_grid App_initial)).
Proof.
  apply (pending_analysis_shows_the_local_simulation
           (handleAnalysis_begin sample_grid App_initial)).
  - apply (reach_step App_initial); [apply reach_initial|].
    apply (step_begin App_initial sample_canvas sample_grid). reflexivity.
  - reflexivity.
Defined.

(** The singleton store, with the grid at 0 and the probabilities at 1. *)
Lemma store_composer_refines_witness :
  exists state l h',
    composeActivations (replicate 64 0) (Some (replicate 10 (1 / 10)))
    = Normal state
    /\ StoreView.composeActivations singleton_engine 0 (Some 1%nat)
         singleton_store
       = (Normal l, h')
    /\ Store.decode_mat h' l = Some state
    /\ (length singleton_store <= l)%nat
    /\ (forall a, (a < length singleton_store)%nat ->
          h' !! a = singleton_store !! a)
    /\ Store.decode_engine h' singleton_engine = Some neuralNetEngine
    /\ Store.decode_vec h' 0 = Some (replicate 64 0).
Proof.
  apply (store_composer_refines singleton_store singleton_engine 0
           (replicate 64 0) (Some 1%nat) (Some (replicate 10 (1 / 10))));
    reflexivity.
Defined.

Lemma composed_state_shares_the_probabilities_witness :
  exists l h' rows local,
    StoreView.composeActivations singleton_engine 0 (Some 1%nat)
      singleton_store
    = (Normal l, h')
    /\ forwardPropagate neuralNetEngine (replicate 64 0) = Normal local
    /\ h' !! l = Some (map Store.VRef rows)
    /\ last rows = Some 1%nat
    /\ Store.decode_mat h' l = Some (set_last local (replicate 10 (1 / 10)))
    /\ Store.decode_mat (Store.array_push 1 (Store.VNum 0) h').2 l
       = Some (set_last local (replicate 10 (1 / 10) ++ [0])).
Proof.
  apply (composed_state_shares_the_probabilities singleton_store
           singleton_engine 0 1 (replicate 64 0) (replicate 10 (1 / 10)) 0);
    reflexivity.
Defined.

End MoreInstances.
